(** * The retweet / like / comment core of the Twitter backend (server.js)

    A shallow embedding of the Express handlers of [server.js] that touch
    the [Tweet], [Comment] and [User] collections, and the properties of the
    replication model that the specification states about them.

    A collection is the list of its documents in natural (insertion) order;
    [findOne] returns the first match, [updateMany] rewrites every match.
    A handler is a computation over the store that either continues or
    stops the request with (or without) a response. *)

From Stdlib Require Import ZArith NArith List String Ascii Bool Lia.
From Stdlib Require Import Permutation Sorting.Sorted.
Import ListNotations.

Open Scope string_scope.
Open Scope list_scope.

(* ================================================================== *)
(** * JavaScript values and built-ins used by the handlers             *)
(* ================================================================== *)

(** A MongoDB ObjectId, as the 96-bit number it stands for. *)
Definition ObjectId := N.

(** A value found in a parsed JSON body ([req.body.content]).  Numbers are
    the integer literals; objects and arrays carry no information the
    handlers look at. *)
Inductive JsValue :=
| JUndefined
| JNull
| JBool (b : bool)
| JNumber (z : Z)
| JString (s : string)
| JObject.

(** [!v] is [negb (truthy v)]. *)
Definition truthy (v : JsValue) : bool :=
  match v with
  | JUndefined | JNull => false
  | JBool b => b
  | JNumber z => negb (z =? 0)%Z
  | JString s => negb (s =? EmptyString)
  | JObject => true
  end.

(** White space and line terminators of [String.prototype.trim] among the
    code units below 256: TAB, LF, VT, FF, CR, SP and NBSP. *)
Definition isWhiteSpace (c : ascii) : bool :=
  let n := nat_of_ascii c in
  (((9 <=? n) && (n <=? 13)) || (n =? 32) || (n =? 160))%nat.

Fixpoint trimStart (s : string) : string :=
  match s with
  | EmptyString => EmptyString
  | String c r => if isWhiteSpace c then trimStart r else s
  end.

(** Drops the trailing white space: a character stays when it is not
    white space or when something stays after it. *)
Fixpoint trimEnd (s : string) : string :=
  match s with
  | EmptyString => EmptyString
  | String c r =>
      match trimEnd r with
      | EmptyString => if isWhiteSpace c then EmptyString else String c EmptyString
      | r' => String c r'
      end
  end.

Definition trim (s : string) : string := trimEnd (trimStart s).

(** [Array.prototype.indexOf]: [None] stands for [-1]. *)
Fixpoint indexOf (x : string) (l : list string) : option nat :=
  match l with
  | [] => None
  | y :: r => if y =? x then Some 0 else option_map S (indexOf x r)
  end.

(** [Array.prototype.includes]. *)
Definition includes (x : string) (l : list string) : bool :=
  existsb (String.eqb x) l.

(** [l.splice(i, 1)]: the array without its element at index [i]. *)
Definition splice1 {A : Type} (i : nat) (l : list A) : list A :=
  firstn i l ++ skipn (S i) l.

(** [l.push(x)] and [l.unshift(x)]. *)
Definition push {A : Type} (x : A) (l : list A) : list A := l ++ [x].
Definition unshift {A : Type} (x : A) (l : list A) : list A := x :: l.

(** ** [parseInt] on a query-string parameter *)

Definition digitValue (c : ascii) : option Z :=
  let n := Z.of_nat (nat_of_ascii c) in
  if ((48 <=? n) && (n <=? 57))%Z then Some (n - 48)%Z
  else if ((97 <=? n) && (n <=? 122))%Z then Some (n - 87)%Z
  else if ((65 <=? n) && (n <=? 90))%Z then Some (n - 55)%Z
  else None.

(** Reads the longest prefix of digits of the radix; [seen] tells whether a
    digit was read, [acc] is the value so far. *)
Fixpoint parseDigits (radix : Z) (s : string) (seen : bool) (acc : Z) : option Z :=
  match s with
  | EmptyString => if seen then Some acc else None
  | String c r =>
      match digitValue c with
      | Some d =>
          if (d <? radix)%Z then parseDigits radix r true (acc * radix + d)%Z
          else if seen then Some acc else None
      | None => if seen then Some acc else None
      end
  end.

Definition stripSign (s : string) : Z * string :=
  match s with
  | String "-"%char r => ((-1)%Z, r)
  | String "+"%char r => (1%Z, r)
  | _ => (1%Z, s)
  end.

Definition stripHexPrefix (s : string) : Z * string :=
  match s with
  | String "0"%char (String "x"%char r) => (16%Z, r)
  | String "0"%char (String "X"%char r) => (16%Z, r)
  | _ => (10%Z, s)
  end.

(** [parseInt(v)] for a query parameter that is absent or a string; [None]
    is [NaN].  An absent parameter is converted to the string
    ["undefined"], which has no digits.  The result is the integer the
    digits denote: it is the JavaScript number for results of magnitude up
    to 2^53, where a double holds every integer, and the statements about
    offsets stay below that bound. *)
Definition parseInt (v : option string) : option Z :=
  match v with
  | None => None
  | Some s =>
      let (sign, s1) := stripSign (trimStart s) in
      let (radix, s2) := stripHexPrefix s1 in
      option_map (Z.mul sign) (parseDigits radix s2 false 0%Z)
  end.

(** [n || 0] on the result of [parseInt]: [NaN] and [0] are falsy. *)
Definition orZero (n : option Z) : Z :=
  match n with
  | Some z => z
  | None => 0%Z
  end.

(** ** Casting a string to an ObjectId

    Mongoose casts the values of a filter or of an update to the type the
    schema gives the path.  A string is an ObjectId when it is 24
    hexadecimal digits, or when it is 12 characters of one byte each, which
    are then the 12 bytes of the ObjectId. *)

Definition hexValue (c : ascii) : option N :=
  match digitValue c with
  | Some d => if (d <? 16)%Z then Some (Z.to_N d) else None
  | None => None
  end.

Fixpoint hexNumber (s : string) (acc : N) : option N :=
  match s with
  | EmptyString => Some acc
  | String c r =>
      match hexValue c with
      | Some d => hexNumber r (acc * 16 + d)%N
      | None => None
      end
  end.

Fixpoint bytesNumber (s : string) (acc : N) : option N :=
  match s with
  | EmptyString => Some acc
  | String c r =>
      let b := N_of_ascii c in
      if (b <? 128)%N then bytesNumber r (acc * 256 + b)%N else None
  end.

Definition castObjectId (s : string) : option ObjectId :=
  if (String.length s =? 24)%nat then hexNumber s 0%N
  else if (String.length s =? 12)%nat then bytesNumber s 0%N
  else None.

(* ================================================================== *)
(** * Documents and the store                                          *)
(* ================================================================== *)

(** Modelled from the spec: the Tweet schema, which [server.js] requires
    from [./models/File].  The record lists the paths that [server.js]
    reads and writes, with the types it uses them at: [likes] and
    [retweets] hold user names, [comments] holds the [_id]s of comments,
    [postedBy] and [retweetedFrom] hold [_id]s and may be unset,
    [createdAt] is the creation timestamp the feed is sorted by. *)
Record Tweet := mkTweet {
  t_id : ObjectId;
  t_content : string;
  t_postedBy : option ObjectId;
  t_likes : list string;
  t_retweets : list string;
  t_tag : option string;
  t_likeTweetBtn : string;
  t_retweetBtn : string;
  t_image : option string;
  t_comments : list ObjectId;
  t_isEdited : bool;
  t_postedTweetTime : string;
  t_retweetedFrom : option ObjectId;
  t_isRetweeted : bool;
  t_createdAt : Z
}.

(** Modelled from the spec: the Comment schema of [./models/File]; a
    comment holds no reference to its tweet. *)
Record Comment := mkComment {
  c_id : ObjectId;
  c_content : string;
  c_postedBy : option ObjectId;
  c_postedCommentTime : string;
  c_likes : list string;
  c_likeCommentBtn : string;
  c_isEdited : bool
}.

(** Modelled from the spec: the User schema of [./models/File], cut down to
    the paths the handlers of tweets and comments use. *)
Record User := mkUser {
  u_id : ObjectId;
  u_username : string;
  u_tweets : list ObjectId
}.

(** The three collections, each in natural order, and the next ObjectId
    the driver hands out. *)
Record Store := mkStore {
  tweets : list Tweet;
  comments : list Comment;
  users : list User;
  nextId : ObjectId
}.

(** ** Assignments to a path of a document *)

Definition set_t_content (v : string) (d : Tweet) : Tweet :=
  mkTweet (t_id d) v (t_postedBy d) (t_likes d) (t_retweets d) (t_tag d)
    (t_likeTweetBtn d) (t_retweetBtn d) (t_image d) (t_comments d)
    (t_isEdited d) (t_postedTweetTime d) (t_retweetedFrom d)
    (t_isRetweeted d) (t_createdAt d).

Definition set_t_likes (v : list string) (d : Tweet) : Tweet :=
  mkTweet (t_id d) (t_content d) (t_postedBy d) v (t_retweets d) (t_tag d)
    (t_likeTweetBtn d) (t_retweetBtn d) (t_image d) (t_comments d)
    (t_isEdited d) (t_postedTweetTime d) (t_retweetedFrom d)
    (t_isRetweeted d) (t_createdAt d).

Definition set_t_retweets (v : list string) (d : Tweet) : Tweet :=
  mkTweet (t_id d) (t_content d) (t_postedBy d) (t_likes d) v (t_tag d)
    (t_likeTweetBtn d) (t_retweetBtn d) (t_image d) (t_comments d)
    (t_isEdited d) (t_postedTweetTime d) (t_retweetedFrom d)
    (t_isRetweeted d) (t_createdAt d).

Definition set_t_likeTweetBtn (v : string) (d : Tweet) : Tweet :=
  mkTweet (t_id d) (t_content d) (t_postedBy d) (t_likes d) (t_retweets d)
    (t_tag d) v (t_retweetBtn d) (t_image d) (t_comments d)
    (t_isEdited d) (t_postedTweetTime d) (t_retweetedFrom d)
    (t_isRetweeted d) (t_createdAt d).

Definition set_t_retweetBtn (v : string) (d : Tweet) : Tweet :=
  mkTweet (t_id d) (t_content d) (t_postedBy d) (t_likes d) (t_retweets d)
    (t_tag d) (t_likeTweetBtn d) v (t_image d) (t_comments d)
    (t_isEdited d) (t_postedTweetTime d) (t_retweetedFrom d)
    (t_isRetweeted d) (t_createdAt d).

Definition set_t_comments (v : list ObjectId) (d : Tweet) : Tweet :=
  mkTweet (t_id d) (t_content d) (t_postedBy d) (t_likes d) (t_retweets d)
    (t_tag d) (t_likeTweetBtn d) (t_retweetBtn d) (t_image d) v
    (t_isEdited d) (t_postedTweetTime d) (t_retweetedFrom d)
    (t_isRetweeted d) (t_createdAt d).

Definition set_t_isEdited (v : bool) (d : Tweet) : Tweet :=
  mkTweet (t_id d) (t_content d) (t_postedBy d) (t_likes d) (t_retweets d)
    (t_tag d) (t_likeTweetBtn d) (t_retweetBtn d) (t_image d) (t_comments d)
    v (t_postedTweetTime d) (t_retweetedFrom d)
    (t_isRetweeted d) (t_createdAt d).

Definition set_c_content (v : string) (d : Comment) : Comment :=
  mkComment (c_id d) v (c_postedBy d) (c_postedCommentTime d) (c_likes d)
    (c_likeCommentBtn d) (c_isEdited d).

Definition set_c_postedBy (v : option ObjectId) (d : Comment) : Comment :=
  mkComment (c_id d) (c_content d) v (c_postedCommentTime d) (c_likes d)
    (c_likeCommentBtn d) (c_isEdited d).

Definition set_c_likes (v : list string) (d : Comment) : Comment :=
  mkComment (c_id d) (c_content d) (c_postedBy d) (c_postedCommentTime d) v
    (c_likeCommentBtn d) (c_isEdited d).

Definition set_c_likeCommentBtn (v : string) (d : Comment) : Comment :=
  mkComment (c_id d) (c_content d) (c_postedBy d) (c_postedCommentTime d)
    (c_likes d) v (c_isEdited d).

Definition set_c_isEdited (v : bool) (d : Comment) : Comment :=
  mkComment (c_id d) (c_content d) (c_postedBy d) (c_postedCommentTime d)
    (c_likes d) (c_likeCommentBtn d) v.

Definition set_u_tweets (v : list ObjectId) (d : User) : User :=
  mkUser (u_id d) (u_username d) v.

Definition set_tweets (v : list Tweet) (s : Store) : Store :=
  mkStore v (comments s) (users s) (nextId s).

Definition set_comments (v : list Comment) (s : Store) : Store :=
  mkStore (tweets s) v (users s) (nextId s).

Definition set_users (v : list User) (s : Store) : Store :=
  mkStore (tweets s) (comments s) v (nextId s).

(** ** Operations on a collection *)

Section Collection.
Context {A : Type}.

(** [updateOne]: the first match is rewritten. *)
Fixpoint updateFirst (p : A -> bool) (f : A -> A) (l : list A) : list A :=
  match l with
  | [] => []
  | d :: r => if p d then f d :: r else d :: updateFirst p f r
  end.

(** [updateMany]: every match is rewritten. *)
Definition updateAll (p : A -> bool) (f : A -> A) (l : list A) : list A :=
  map (fun d => if p d then f d else d) l.

(** [deleteOne]: the first match is removed. *)
Fixpoint removeFirst (p : A -> bool) (l : list A) : list A :=
  match l with
  | [] => []
  | d :: r => if p d then r else d :: removeFirst p r
  end.
End Collection.

(** [$pull] of a value from an array path: every occurrence goes. *)
Definition pullString (x : string) (l : list string) : list string :=
  filter (fun y => negb (y =? x)) l.

Definition pullId (x : ObjectId) (l : list ObjectId) : list ObjectId :=
  filter (fun y => negb (y =? x)%N) l.

(** [tweet.retweetedFrom || tweet._id]: an ObjectId is always truthy. *)
Definition originalId (t : Tweet) : ObjectId :=
  match t_retweetedFrom t with
  | Some o => o
  | None => t_id t
  end.

(** The filter [{ $or: [{ _id: o }, { retweetedFrom: o }] }]. *)
Definition isOriginalOrCopyOf (o : ObjectId) (d : Tweet) : bool :=
  (t_id d =? o)%N ||
  match t_retweetedFrom d with
  | Some r => (r =? o)%N
  | None => false
  end.

(** The filter [{ retweetedFrom: o }]. *)
Definition isCopyOf (o : ObjectId) (d : Tweet) : bool :=
  match t_retweetedFrom d with
  | Some r => (r =? o)%N
  | None => false
  end.

(** The filter [{ retweetedFrom: o, postedBy: userId }]. *)
Definition copyPostedBy (o userId : ObjectId) (d : Tweet) : bool :=
  isCopyOf o d &&
  match t_postedBy d with
  | Some p => (p =? userId)%N
  | None => false
  end.

Definition hasId (o : ObjectId) (d : Tweet) : bool := (t_id d =? o)%N.

Definition postedAt (tweetId : string) (d : Tweet) : bool :=
  t_postedTweetTime d =? tweetId.

Definition commentPostedAt (commentId : string) (d : Comment) : bool :=
  c_postedCommentTime d =? commentId.

Definition commentHasId (o : ObjectId) (d : Comment) : bool := (c_id d =? o)%N.

Definition named (userName : string) (d : User) : bool :=
  u_username d =? userName.

Definition userHasId (o : ObjectId) (d : User) : bool := (u_id d =? o)%N.

(* ================================================================== *)
(** * Responses and the handler monad                                  *)
(* ================================================================== *)

(** The JSON bodies the handlers send. *)
Inductive Body :=
| Message (status message : string)
| Failure (status error : string)
| RetweetResult (retweetCount : Z) (retweetBtn : string)
| LikeResult (likeCount : nat) (btn : string)
| CommentResult (comment : option Comment) (commentCount : nat)
| TweetResult (message : string) (tweet : option Tweet)
| FeedResult (tweets : list Tweet) (activeUser : string)
| TopicResult (tweets : list Tweet) (activeUser : option User).

Record Response := mkResponse { code : nat; body : Body }.

(** A handler step either goes on with a value or ends the request:
    [Stop (Some r)] is [return res.status(..).json(..)], [Stop None] is a
    handler that returns without sending anything. *)
Inductive Outcome (A : Type) :=
| Continue (a : A)
| Stop (r : option Response).
Arguments Continue {A} a.
Arguments Stop {A} r.

Definition Handler (A : Type) : Type := Store -> Store * Outcome A.

Definition ret {A : Type} (a : A) : Handler A := fun s => (s, Continue a).

Definition bind {A B : Type} (h : Handler A) (k : A -> Handler B) : Handler B :=
  fun s =>
    match h s with
    | (s', Continue a) => k a s'
    | (s', Stop r) => (s', Stop r)
    end.

Declare Scope handler_scope.
Delimit Scope handler_scope with handler.
Notation "x <- h ;; k" := (bind h (fun x => k))
  (at level 100, h at next level, right associativity) : handler_scope.
Notation "h ;; k" := (bind h (fun _ => k))
  (at level 100, right associativity) : handler_scope.
Open Scope handler_scope.

Definition reply {A : Type} (status : nat) (b : Body) : Handler A :=
  fun s => (s, Stop (Some (mkResponse status b))).

(** The end of a handler body reached without a [return res...]. *)
Definition noReply {A : Type} : Handler A := fun s => (s, Stop None).

(** [if (!x) return res.status(..).json(..)]. *)
Definition orReply {A : Type} (x : option A) (status : nat) (b : Body) : Handler A :=
  match x with
  | Some a => ret a
  | None => reply status b
  end.

(** The [catch] clause the handlers share. *)
Definition internalError {A : Type} : Handler A :=
  reply 500 (Message "error" "Internal server error").

(** The store after the request and the response sent, if any. *)
Definition run (h : Handler unit) (s : Store) : Store * option Response :=
  match h s with
  | (s', Continue _) => (s', None)
  | (s', Stop r) => (s', r)
  end.

(** ** The Mongoose calls of the handlers *)

Definition Tweet_findOne (p : Tweet -> bool) : Handler (option Tweet) :=
  fun s => (s, Continue (find p (tweets s))).

Definition Tweet_findById (o : ObjectId) : Handler (option Tweet) :=
  Tweet_findOne (hasId o).

(** [Tweet.create]: the document gets a fresh [_id] and is appended. *)
Definition Tweet_create (doc : ObjectId -> Tweet) : Handler Tweet :=
  fun s =>
    let d := doc (nextId s) in
    (mkStore (tweets s ++ [d]) (comments s) (users s) (N.succ (nextId s)),
     Continue d).

(** [doc.save()] and [findByIdAndUpdate]: the stored document with that
    [_id] gets the assignment. *)
Definition Tweet_updateById (o : ObjectId) (f : Tweet -> Tweet) : Handler unit :=
  fun s => (set_tweets (updateFirst (hasId o) f (tweets s)) s, Continue tt).

Definition Tweet_updateMany (p : Tweet -> bool) (f : Tweet -> Tweet) : Handler unit :=
  fun s => (set_tweets (updateAll p f (tweets s)) s, Continue tt).

Definition Tweet_findOneAndDelete (p : Tweet -> bool) : Handler (option Tweet) :=
  fun s => (set_tweets (removeFirst p (tweets s)) s, Continue (find p (tweets s))).

Definition Comment_findOne (p : Comment -> bool) : Handler (option Comment) :=
  fun s => (s, Continue (find p (comments s))).

Definition Comment_create (doc : ObjectId -> Comment) : Handler Comment :=
  fun s =>
    let d := doc (nextId s) in
    (mkStore (tweets s) (comments s ++ [d]) (users s) (N.succ (nextId s)),
     Continue d).

Definition Comment_updateById (o : ObjectId) (f : Comment -> Comment) : Handler unit :=
  fun s => (set_comments (updateFirst (commentHasId o) f (comments s)) s, Continue tt).

Definition Comment_findOneAndDelete (p : Comment -> bool) : Handler (option Comment) :=
  fun s => (set_comments (removeFirst p (comments s)) s, Continue (find p (comments s))).

Definition User_findOne (p : User -> bool) : Handler (option User) :=
  fun s => (s, Continue (find p (users s))).

Definition User_updateById (o : ObjectId) (f : User -> User) : Handler unit :=
  fun s => (set_users (updateFirst (userHasId o) f (users s)) s, Continue tt).

(** ** Sorted, paginated queries *)

Fixpoint insertByCreatedAt (d : Tweet) (l : list Tweet) : list Tweet :=
  match l with
  | [] => [d]
  | e :: r =>
      if (t_createdAt e <=? t_createdAt d)%Z then d :: l
      else e :: insertByCreatedAt d r
  end.

(** [.sort({ createdAt: -1 })].  The store promises no order among
    documents of equal [createdAt]; the listing here keeps them in natural
    order, and the statements that depend on the place of a document in the
    listing are made of the arrangements the sort allows or assume distinct
    [createdAt]. *)
Definition sortNewestFirst (l : list Tweet) : list Tweet :=
  fold_right insertByCreatedAt [] l.

(** [Tweet.find(filter).sort({ createdAt: -1 }).skip(n).limit(k)]; MongoDB
    rejects a negative [skip], which is [None] here. *)
Definition findPage (p : Tweet -> bool) (n : Z) (k : nat) (l : list Tweet)
  : option (list Tweet) :=
  if (n <? 0)%Z then None
  else Some (firstn k (skipn (Z.to_nat n) (sortNewestFirst (filter p l)))).

Definition likeBtnFor (username : string) (likes : list string) : string :=
  if includes username likes then "deeppink" else "black".

Definition retweetBtnFor (username : string) (retweets : list string) : string :=
  if includes username retweets then "green" else "black".

(* ================================================================== *)
(** * The handlers                                                     *)
(* ================================================================== *)

(** A route behind [validateToken] is taken from the point where the token
    has verified: the handler gets [req.user.id] and [req.user.username]
    as arguments.  The clock readings a handler makes are arguments too.
    A handler is run with no other request in between, and here every
    store call it awaits goes through; the handlers that write to an
    original and then to its copies are given a second time further on,
    with store calls that reject. *)

(** The membership flip both like handlers perform on the [likes] array of
    the document they loaded: the new array and the button colour. *)
Definition toggleLike (userName : string) (likes : list string)
  : list string * string :=
  match indexOf userName likes with
  | None => (push userName likes, "deeppink")
  | Some userIndex => (splice1 userIndex likes, "black")
  end.

(** The test of [content] that opens the two edit handlers: a falsy value
    or a string that [trim] empties is refused.  A
    truthy value that is not a string has no [trim] method: the call
    throws and the [catch] clause answers. *)
Definition checkContent (content : JsValue) : Handler string :=
  if negb (truthy content) then
    reply 400 (Message "error" "Content cannot be empty")
  else
    match content with
    | JString s =>
        if trim s =? EmptyString then reply 400 (Message "error" "Content cannot be empty")
        else ret s
    | _ => internalError
    end.

(** [POST /feed/comment/:tweetId]; [username] is [req.user.username], [now]
    the formatted clock reading. *)
Definition composeComment (tweetId content username now : string) : Handler unit :=
  newComment <- Comment_create (fun id =>
                  mkComment id content None now [] "black" false) ;;
  found <- Tweet_findOne (postedAt tweetId) ;;
  tweet <- orReply found 404 (Message "error" "Tweet not found") ;;
  let originalTweetId := originalId tweet in
  foundOriginal <- Tweet_findById originalTweetId ;;
  originalTweet <- orReply foundOriginal 404
                     (Message "error" "Original tweet not found") ;;
  foundUser <- User_findOne (named username) ;;
  user <- orReply foundUser 404 (Message "error" "User not found") ;;
  Comment_updateById (c_id newComment) (set_c_postedBy (Some (u_id user))) ;;
  let newComments := unshift (c_id newComment) (t_comments originalTweet) in
  Tweet_updateById (t_id originalTweet) (set_t_comments newComments) ;;
  Tweet_updateMany (isOriginalOrCopyOf originalTweetId)
                   (set_t_comments newComments) ;;
  populatedComment <- Comment_findOne (commentHasId (c_id newComment)) ;;
  reply 200 (CommentResult populatedComment (List.length newComments)).

(** [POST /post/:userName/retweet/:tweetId]; [userId] is [req.user.id],
    [clock] the creation timestamp of a new document. *)
Definition retweet (userName tweetId : string) (userId : ObjectId)
    (now : string) (clock : Z) : Handler unit :=
  found <- Tweet_findOne (postedAt tweetId) ;;
  tweet <- orReply found 404 (Message "error" "Tweet not found") ;;
  let originalTweetId := originalId tweet in
  match indexOf userName (t_retweets tweet) with
  | None =>
      if t_isRetweeted tweet then
        reply 400 (Message "error" "Cannot retweet a retweeted tweet")
      else
        (newTweet <- Tweet_create (fun id =>
            mkTweet id (t_content tweet) (t_postedBy tweet) (t_likes tweet)
              (t_retweets tweet ++ [userName]) (t_tag tweet)
              (t_likeTweetBtn tweet) "green" (t_image tweet)
              (t_comments tweet) (t_isEdited tweet) now
              (Some originalTweetId) true clock) ;;
         foundUser <- User_findOne (named userName) ;;
         match foundUser with
         | Some user =>
             User_updateById (u_id user)
               (set_u_tweets (unshift (t_id newTweet) (u_tweets user)))
         | None => ret tt
         end ;;
         Tweet_updateById originalTweetId
           (fun d => set_t_retweets (push userName (t_retweets d)) d) ;;
         reply 200 (RetweetResult
                      (Z.of_nat (List.length (t_retweets tweet)) + 1) "green"))
  | Some _ =>
      retweetedTweet <- Tweet_findOneAndDelete
                          (copyPostedBy originalTweetId userId) ;;
      match retweetedTweet with
      | Some deleted =>
          Tweet_updateById originalTweetId
            (fun d => set_t_retweets (pullString userName (t_retweets d)) d) ;;
          foundUser <- User_findOne (named userName) ;;
          match foundUser with
          | Some user =>
              User_updateById (u_id user)
                (set_u_tweets
                   (filter (fun id => negb (id =? t_id deleted)%N)
                           (u_tweets user)))
          | None => ret tt
          end ;;
          reply 200 (RetweetResult
                       (Z.of_nat (List.length (t_retweets tweet)) - 1) "black")
      | None => noReply
      end
  end.

(** [POST /post/:userName/like/:tweetId]. *)
Definition likeTweet (userName tweetId : string) : Handler unit :=
  found <- Tweet_findOne (postedAt tweetId) ;;
  tweet <- orReply found 404 (Message "error" "Tweet not found") ;;
  let (likes, likeTweetBtn) := toggleLike userName (t_likes tweet) in
  Tweet_updateById (t_id tweet)
    (fun d => set_t_likeTweetBtn likeTweetBtn (set_t_likes likes d)) ;;
  let tweetIdToUpdate := originalId tweet in
  Tweet_updateMany (isOriginalOrCopyOf tweetIdToUpdate) (set_t_likes likes) ;;
  reply 200 (LikeResult (List.length likes) likeTweetBtn).

(** [POST /comment/:userName/like/:commentId]. *)
Definition likeComment (userName commentId : string) : Handler unit :=
  found <- Comment_findOne (commentPostedAt commentId) ;;
  comment <- orReply found 404 (Message "error" "Comment not found") ;;
  let (likes, likeCommentBtn) := toggleLike userName (c_likes comment) in
  Comment_updateById (c_id comment)
    (fun d => set_c_likeCommentBtn likeCommentBtn (set_c_likes likes d)) ;;
  reply 200 (LikeResult (List.length likes) likeCommentBtn).

(** [POST /comment/delete/:commentId].  The filter and the [$pull] on
    [Tweet.comments] are given the route parameter, which is the comment's
    [postedCommentTime]; the path holds ObjectIds, so the parameter is cast,
    and a failed cast is thrown to the [catch] clause. *)
Definition deleteComment (commentId : string) : Handler unit :=
  deletedComment <- Comment_findOneAndDelete (commentPostedAt commentId) ;;
  _ <- orReply deletedComment 404 (Message "error" "Comment not found") ;;
  match castObjectId commentId with
  | Some o =>
      Tweet_updateMany (fun d => existsb (N.eqb o) (t_comments d))
        (fun d => set_t_comments (pullId o (t_comments d)) d) ;;
      reply 200 (Message "ok" "Comment deleted successfully")
  | None => internalError
  end.

(** [POST /editTweet/:tweetId]; [userId] is [req.user.id]. *)
Definition editTweet (tweetId : string) (content : JsValue) (userId : ObjectId)
  : Handler unit :=
  content <- checkContent content ;;
  found <- Tweet_findOne (postedAt tweetId) ;;
  tweet <- orReply found 404 (Message "error" "Tweet not found") ;;
  let originalTweetId := originalId tweet in
  foundOriginal <- Tweet_findById originalTweetId ;;
  originalTweet <- orReply foundOriginal 404
                     (Message "error" "Original tweet not found") ;;
  match t_postedBy originalTweet with
  | None => internalError
  | Some author =>
      if negb (author =? userId)%N then
        reply 403 (Message "error" "Unauthorized to edit this tweet")
      else
        (Tweet_updateById (t_id originalTweet)
           (fun d => set_t_isEdited true (set_t_content content d)) ;;
         Tweet_updateMany (isCopyOf originalTweetId)
           (fun d => set_t_isEdited true (set_t_content content d)) ;;
         updatedTweet <- Tweet_findById originalTweetId ;;
         reply 200 (TweetResult "Tweet updated successfully" updatedTweet))
  end.

(** [POST /comment/edit/:commentId]. *)
Definition editComment (commentId : string) (content : JsValue) : Handler unit :=
  content <- checkContent content ;;
  found <- Comment_findOne (commentPostedAt commentId) ;;
  comment <- orReply found 404 (Message "error" "Comment not found") ;;
  Comment_updateById (c_id comment)
    (fun d => set_c_isEdited true (set_c_content content d)) ;;
  reply 200 (Message "ok" "Comment updated successfully").

(** The colours [tweets.forEach] puts on a tweet for the active user. *)
Definition withButtons (username : string) (d : Tweet) : Tweet :=
  set_t_retweetBtn (retweetBtnFor username (t_retweets d))
    (set_t_likeTweetBtn (likeBtnFor username (t_likes d)) d).

(** [GET /feed]; [t] is [req.query.t], [username] is [req.user.username].
    The answer lists the tweets with their references as they are stored:
    the author and the comments that [populate] puts in their place for
    display, leaving out the comments that are stored no more, and the
    colours of the comment buttons are not part of the answer here. *)
Definition feed (t : option string) (username : string) : Handler unit :=
  let tweetsToSkip := orZero (parseInt t) in
  fun s =>
    match findPage (fun d => negb (t_isRetweeted d)) tweetsToSkip 20 (tweets s) with
    | Some page => reply 200 (FeedResult (map (withButtons username) page) username) s
    | None => internalError s
    end.

Section Topic.

(** What Mongoose makes of a string given to [.skip()]: the number it
    casts the string to, or [None] when the cast fails and [.skip()]
    throws. *)
Variable castSkip : string -> option Z.

Definition hasTag (tag : string) (d : Tweet) : bool :=
  match t_tag d with
  | Some g => g =? tag
  | None => false
  end.

(** The [doc.save()] and [docComment.save()] calls of the two loops. *)
Definition saveLikeButtons (username : string) (docs : list Tweet) : Handler unit :=
  fun s =>
    (mkStore
       (fold_left (fun l d =>
          updateFirst (hasId (t_id d))
            (set_t_likeTweetBtn (likeBtnFor username (t_likes d))) l)
          docs (tweets s))
       (fold_left (fun l o =>
          updateFirst (commentHasId o)
            (fun c => set_c_likeCommentBtn (likeBtnFor username (c_likes c)) c) l)
          (flat_map t_comments docs) (comments s))
       (users s) (nextId s),
     Continue tt).

(** [GET /topic/:tag]; [decoded] is the user name of a token that
    verifies.  A string that is no number makes [.skip()] throw inside the
    [try], and the [catch] clause answers as it does for a token that does
    not verify.  A query the store rejects, as for a negative number,
    reaches the [exec] callback as [err], and nothing is sent.  The
    [save()] calls of the loops are not awaited; they are taken to have
    landed when the request is over. *)
Definition topic (decoded : option string) (tag : string) (t : option string)
  : Handler unit :=
  match decoded with
  | None => reply 200 (Failure "error" "Session ended :(")
  | Some username =>
      user <- User_findOne (named username) ;;
      let tweetsToSkip :=
        match t with
        | None | Some EmptyString => Some 0%Z
        | Some q => castSkip q
        end in
      docs <- (fun s =>
                 match tweetsToSkip with
                 | Some n =>
                     match findPage (fun d => negb (t_isRetweeted d) && hasTag tag d)
                             n 20 (tweets s) with
                     | Some page => ret page s
                     | None => noReply s
                     end
                 | None => reply 200 (Failure "error" "Session ended :(") s
                 end) ;;
      saveLikeButtons username docs ;;
      reply 200 (TopicResult (map (withButtons username) docs) user)
  end.

End Topic.

(** ** Tests used in the statements *)

(** Distinct keys, as a test. *)
Fixpoint distinct (l : list ObjectId) : bool :=
  match l with
  | [] => true
  | x :: r => negb (existsb (N.eqb x) r) && distinct r
  end.

Fixpoint distinctNames (l : list string) : bool :=
  match l with
  | [] => true
  | x :: r => negb (includes x r) && distinctNames r
  end.

(** Content made of white space only; the empty string is the case of no
    character at all. *)
Fixpoint allWhiteSpace (s : string) : bool :=
  match s with
  | EmptyString => true
  | String c r => isWhiteSpace c && allWhiteSpace r
  end.

(** A [content] that is absent, empty or white space only. *)
Definition isBlank (content : JsValue) : bool :=
  match content with
  | JUndefined => true
  | JString s => allWhiteSpace s
  | _ => false
  end.

(** Newest first: no document is followed by a more recent one. *)
Definition newestFirst (l : list Tweet) : Prop :=
  StronglySorted (fun a b => (t_createdAt b <= t_createdAt a)%Z) l.

(** The page of a listing: [n] documents skipped, at most 20 returned, out
    of the matches sorted newest first, with the buttons of the active
    user. *)
Definition pageOf (p : Tweet -> bool) (n : nat) (username : string)
    (l : list Tweet) : list Tweet :=
  map (withButtons username) (firstn 20 (skipn n (sortNewestFirst (filter p l)))).

(** No post comes into being between [s] and [s']: no ObjectId is handed
    out and every stored tweet has the [_id] of a tweet stored before. *)
Definition noNewPost (s s' : Store) : Prop :=
  nextId s' = nextId s /\ incl (map t_id (tweets s')) (map t_id (tweets s)).

(** The reading of the rule against chained retweets that rejects every
    retweet request aimed at a copy, whoever sends it. *)
Definition rejectsRetweetOfCopy (s : Store) (userName tweetId : string)
    (userId : ObjectId) (now : string) (clock : Z) : Prop :=
  forall P,
    find (postedAt tweetId) (tweets s) = Some P ->
    t_isRetweeted P = true ->
    exists s',
      run (retweet userName tweetId userId now clock) s
      = (s', Some (mkResponse 400
                     (Message "error" "Cannot retweet a retweeted tweet")))
      /\ noNewPost s s'.

(** ** Stores used as examples

    Two users and one tweet of alice's, posted at ["t0"]. *)
Definition aliceTweet : Tweet :=
  mkTweet 10%N "hello" (Some 1%N) [] [] (Some "rocq") "black" "black" None []
          false "t0" None false 100%Z.

Definition store0 : Store :=
  mkStore [aliceTweet] [] [mkUser 1%N "alice" [10%N]; mkUser 2%N "bob" []] 11%N.

(** bob has retweeted alice's tweet; his copy is posted at ["t1"]. *)
Definition storeBobRetweeted : Store :=
  fst (run (retweet "bob" "t0" 2%N "t1" 200%Z) store0).

(** alice has retweeted her own tweet; her copy is posted at ["t1"]. *)
Definition storeAliceRetweeted : Store :=
  fst (run (retweet "alice" "t0" 1%N "t1" 200%Z) store0).

(** bob has commented on alice's tweet; the comment's public identifier is
    the formatted time it was posted at. *)
Definition storeBobCommented : Store :=
  fst (run (composeComment "t0" "nice" "bob" "May 1st 2024, 1:05:09 pm") store0).

(** ** The mutations that are replicated to the copies *)

(** A request that changes a field the copies mirror: an edit of the
    content, a like toggle, or a new comment. *)
Inductive Mutation :=
| ContentEdit (content : JsValue) (userId : ObjectId)
| LikeToggle (userName : string)
| CommentAttach (content username now : string).

(** The handler that serves the mutation aimed at the tweet [tweetId]. *)
Definition mutate (m : Mutation) (tweetId : string) : Handler unit :=
  match m with
  | ContentEdit content userId => editTweet tweetId content userId
  | LikeToggle userName => likeTweet userName tweetId
  | CommentAttach content username now =>
      composeComment tweetId content username now
  end.

(** The fields the mutation patches are the same on [O] and on [C]. *)
Definition samePatchedFields (m : Mutation) (O C : Tweet) : Prop :=
  match m with
  | ContentEdit _ _ => t_content C = t_content O /\ t_isEdited C = t_isEdited O
  | LikeToggle _ => t_likes C = t_likes O
  | CommentAttach _ _ _ => t_comments C = t_comments O
  end.

(** The reading of canonical resolution for likes: a like toggle aimed at
    a copy flips the membership of the user in the likes of the original
    the copy points at. *)
Definition likeOnCopyFlipsOriginal (s : Store) (userName tweetId : string) : Prop :=
  forall C o O,
    find (postedAt tweetId) (tweets s) = Some C ->
    t_retweetedFrom C = Some o ->
    find (hasId o) (tweets s) = Some O ->
    exists O',
      find (hasId o) (tweets (fst (run (likeTweet userName tweetId) s))) = Some O'
      /\ t_likes O' = fst (toggleLike userName (t_likes O)).

(** carol's like of alice's tweet has been saved on the original and has
    not reached bob's copy: the store between the two writes of the like
    handler. *)
Definition storeStaleCopy : Store :=
  fst (Tweet_updateById 10%N
         (fun d => set_t_likeTweetBtn "deeppink" (set_t_likes ["carol"] d))
         storeBobRetweeted).

(** The request of the mutation passes the checks of its handler: the
    content of an edit is a string that is not blank and its sender is the
    author of the original; the user of a comment is stored.  A like
    toggle is subject to no check. *)
Definition accepted (m : Mutation) (s : Store) (original : Tweet) : Prop :=
  match m with
  | ContentEdit content userId =>
      (exists str, content = JString str /\ allWhiteSpace str = false)
      /\ t_postedBy original = Some userId
  | LikeToggle _ => True
  | CommentAttach _ username _ =>
      exists user, find (named username) (users s) = Some user
  end.

(** ** Offsets and pages, in the words of the specification *)

(** The character of a decimal digit. *)
Definition digitChar (d : N) : ascii := ascii_of_N (48 + d).

(** The decimal digits of [n], most significant first, when [fuel] is at
    least their number. *)
Fixpoint digitsOf (fuel : nat) (n : N) : list N :=
  match fuel with
  | O => []
  | S f =>
      if (n <? 10)%N then [n]
      else digitsOf f (n / 10)%N ++ [(n mod 10)%N]
  end.

Fixpoint numeral (ds : list N) : string :=
  match ds with
  | [] => EmptyString
  | d :: r => String (digitChar d) (numeral r)
  end.

(** The offset [n] as a caller writes it in the query string: its decimal
    numeral, for a number of up to 16 digits. *)
Definition decimal (n : N) : string := numeral (digitsOf 16 n).

(** The number a list of decimal digits denotes. *)
Definition numeralValue (ds : list N) : Z :=
  fold_left (fun acc d => (acc * 10 + Z.of_N d)%Z) ds 0%Z.

(** A page of a listing: the [matches] are arranged newest first, the
    first [offset] of them are skipped, and the [limit] that follow, or as
    many as are left, are the page. *)
Definition isPageOf (limit : nat) (matches : list Tweet) (offset : nat)
    (page : list Tweet) : Prop :=
  exists skipped rest,
    Permutation (skipped ++ page ++ rest) matches
    /\ newestFirst (skipped ++ page ++ rest)
    /\ List.length skipped = Nat.min offset (List.length matches)
    /\ List.length page = Nat.min limit (List.length matches - offset).

(** Distinct creation times, as a test. *)
Fixpoint distinctTimes (l : list Z) : bool :=
  match l with
  | [] => true
  | x :: r => negb (existsb (Z.eqb x) r) && distinctTimes r
  end.

(** alice's tweet, a later one of bob's under the same tag, one of alice's
    in between under another tag, and bob's copy of the first, stored in
    this order. *)
Definition bobTweet : Tweet :=
  mkTweet 11%N "hi" (Some 2%N) [] [] (Some "rocq") "black" "black" None []
          false "t3" None false 300%Z.

Definition aliceSecond : Tweet :=
  mkTweet 12%N "again" (Some 1%N) [] [] (Some "news") "black" "black" None []
          false "t2" None false 200%Z.

Definition bobCopy : Tweet :=
  mkTweet 13%N "hello" (Some 1%N) [] ["bob"] (Some "rocq") "black" "green" None []
          false "t4" (Some 10%N) true 400%Z.

Definition storeOfFour : Store :=
  mkStore [set_t_retweets ["bob"] aliceTweet; bobTweet; aliceSecond; bobCopy] []
          [mkUser 1%N "alice" [12%N; 10%N]; mkUser 2%N "bob" [13%N; 11%N]] 14%N.

(** Twenty-five tweets of alice's, created one after the other. *)
Definition tweetNumber (i : nat) : Tweet :=
  mkTweet (N.of_nat (100 + i)) "tick" (Some 1%N) [] [] None "black" "black" None []
          false "t" None false (Z.of_nat i).

Definition storeOfMany : Store :=
  mkStore (map tweetNumber (seq 0 25)) [] [mkUser 1%N "alice" []] 200%N.

(* ================================================================== *)
(** * The other routes on tweets and comments                          *)
(* ================================================================== *)

Definition set_t_postedBy (v : option ObjectId) (d : Tweet) : Tweet :=
  mkTweet (t_id d) (t_content d) v (t_likes d) (t_retweets d) (t_tag d)
    (t_likeTweetBtn d) (t_retweetBtn d) (t_image d) (t_comments d)
    (t_isEdited d) (t_postedTweetTime d) (t_retweetedFrom d)
    (t_isRetweeted d) (t_createdAt d).

(** A handler whose status-200 answer carries a document continues with
    it: [Continue a] at the end of such a handler stands for
    [res.status(200).json({ status: "ok", ... })] around [a]. *)
Definition answer {A : Type} (h : Handler A) (s : Store)
  : Store * (A + option Response) :=
  match h s with
  | (s', Continue a) => (s', inl a)
  | (s', Stop r) => (s', inr r)
  end.

(** [info.image || null]: an empty string is falsy. *)
Definition orNull (image : option string) : option string :=
  match image with
  | Some EmptyString => None
  | other => other
  end.

(** [POST /feed]; [username] is [req.user.username].
    Modelled from the spec: the paths [Tweet.create] is not passed take the
    defaults of the schema in [./models/File]: the arrays are empty,
    [isEdited] and [isRetweeted] are false, [retweetedFrom] is unset;
    [likeTweetBtn] and [retweetBtn] are the defaults the schema gives the
    two button paths. *)
Definition composeTweet (content : string) (tag image : option string)
    (username now : string) (clock : Z) (likeTweetBtn retweetBtn : string)
  : Handler Tweet :=
  newTweet <- Tweet_create (fun id =>
                mkTweet id content None [] [] tag likeTweetBtn retweetBtn
                        (orNull image) [] false now None false clock) ;;
  foundUser <- User_findOne (named username) ;;
  user <- orReply foundUser 404 (Message "error" "User not found") ;;
  Tweet_updateById (t_id newTweet) (set_t_postedBy (Some (u_id user))) ;;
  User_updateById (u_id user)
    (set_u_tweets (unshift (t_id newTweet) (u_tweets user))) ;;
  ret (set_t_postedBy (Some (u_id user)) newTweet).

(** [POST /deleteTweet/:tweetId]; [userId] is [req.user.id].  A tweet
    without [postedBy] makes [tweet.postedBy.toString()] throw. *)
Definition deleteTweet (tweetId : string) (userId : ObjectId) : Handler unit :=
  found <- Tweet_findOne (postedAt tweetId) ;;
  tweet <- orReply found 404 (Message "error" "Tweet not found") ;;
  match t_postedBy tweet with
  | None => internalError
  | Some author =>
      if negb (author =? userId)%N then
        reply 403 (Message "error" "Unauthorized to delete this tweet")
      else
        (_ <- Tweet_findOneAndDelete (hasId (t_id tweet)) ;;
         foundUser <- User_findOne (userHasId userId) ;;
         match foundUser with
         | Some user =>
             User_updateById (u_id user)
               (set_u_tweets (filter (fun id => negb (id =? t_id tweet)%N)
                                     (u_tweets user)))
         | None => ret tt
         end ;;
         reply 200 (Message "ok" "Tweet deleted successfully"))
  end.

(** [populate("comments")]: each reference is replaced by the comment it
    names, and a reference that names no stored comment is dropped. *)
Definition populate (refs : list ObjectId) (l : list Comment) : list Comment :=
  flat_map (fun o =>
              match find (commentHasId o) l with
              | Some c => [c]
              | None => []
              end) refs.

(** [GET /feed/comments/:tweetId]: the comments of the original of the
    tweet.  The authors that the nested [populate] substitutes for display
    are left as references. *)
Definition tweetComments (tweetId : string) : Handler (list Comment) :=
  found <- Tweet_findOne (postedAt tweetId) ;;
  tweet <- orReply found 404 (Message "error" "Tweet not found") ;;
  let originalTweetId := originalId tweet in
  foundOriginal <- Tweet_findById originalTweetId ;;
  originalTweet <- orReply foundOriginal 404
                     (Message "error" "Original tweet not found") ;;
  fun s => ret (populate (t_comments originalTweet) (comments s)) s.

(* ================================================================== *)
(** * Store calls that reject                                          *)
(* ================================================================== *)

(** The handlers above take every store call to succeed.  The three
    handlers that write to an original and then to its copies are given
    here once more, with the store calls they [await] inside [try] counted
    from 0 in the order of the text: [rejects k] tells whether call [k]
    rejects.  A call that rejects has written nothing, and control passes
    to the [catch] clause, which answers with status 500. *)
Definition Faults := nat -> bool.

Definition noFaults : Faults := fun _ => false.

Definition await {A : Type} (rejected : bool) (call : Handler A) : Handler A :=
  if rejected then internalError else call.

(** None of the calls 0 to [n - 1] rejects. *)
Definition noneRejects (n : nat) (rejects : Faults) : bool :=
  forallb (fun k => negb (rejects k)) (seq 0 n).

(** [POST /post/:userName/like/:tweetId]: [findOne] is call 0, [save]
    call 1 and [updateMany] call 2. *)
Definition likeTweetWith (rejects : Faults) (userName tweetId : string)
  : Handler unit :=
  found <- await (rejects 0) (Tweet_findOne (postedAt tweetId)) ;;
  tweet <- orReply found 404 (Message "error" "Tweet not found") ;;
  let (likes, likeTweetBtn) := toggleLike userName (t_likes tweet) in
  await (rejects 1)
    (Tweet_updateById (t_id tweet)
       (fun d => set_t_likeTweetBtn likeTweetBtn (set_t_likes likes d))) ;;
  let tweetIdToUpdate := originalId tweet in
  await (rejects 2)
    (Tweet_updateMany (isOriginalOrCopyOf tweetIdToUpdate) (set_t_likes likes)) ;;
  reply 200 (LikeResult (List.length likes) likeTweetBtn).

(** [POST /editTweet/:tweetId]: [findOne] is call 0, the first [findById]
    call 1, [save] call 2, [updateMany] call 3 and the last [findById]
    call 4. *)
Definition editTweetWith (rejects : Faults) (tweetId : string)
    (content : JsValue) (userId : ObjectId) : Handler unit :=
  content <- checkContent content ;;
  found <- await (rejects 0) (Tweet_findOne (postedAt tweetId)) ;;
  tweet <- orReply found 404 (Message "error" "Tweet not found") ;;
  let originalTweetId := originalId tweet in
  foundOriginal <- await (rejects 1) (Tweet_findById originalTweetId) ;;
  originalTweet <- orReply foundOriginal 404
                     (Message "error" "Original tweet not found") ;;
  match t_postedBy originalTweet with
  | None => internalError
  | Some author =>
      if negb (author =? userId)%N then
        reply 403 (Message "error" "Unauthorized to edit this tweet")
      else
        (await (rejects 2)
           (Tweet_updateById (t_id originalTweet)
              (fun d => set_t_isEdited true (set_t_content content d))) ;;
         await (rejects 3)
           (Tweet_updateMany (isCopyOf originalTweetId)
              (fun d => set_t_isEdited true (set_t_content content d))) ;;
         updatedTweet <- await (rejects 4) (Tweet_findById originalTweetId) ;;
         reply 200 (TweetResult "Tweet updated successfully" updatedTweet))
  end.

(** [POST /feed/comment/:tweetId]: [Comment.create] is call 0,
    [Tweet.findOne] call 1, [Tweet.findById] call 2, [User.findOne] call 3,
    [newComment.save] call 4, [originalTweet.save] call 5, [updateMany]
    call 6 and [Comment.findById] call 7. *)
Definition composeCommentWith (rejects : Faults)
    (tweetId content username now : string) : Handler unit :=
  newComment <- await (rejects 0)
                  (Comment_create (fun id =>
                     mkComment id content None now [] "black" false)) ;;
  found <- await (rejects 1) (Tweet_findOne (postedAt tweetId)) ;;
  tweet <- orReply found 404 (Message "error" "Tweet not found") ;;
  let originalTweetId := originalId tweet in
  foundOriginal <- await (rejects 2) (Tweet_findById originalTweetId) ;;
  originalTweet <- orReply foundOriginal 404
                     (Message "error" "Original tweet not found") ;;
  foundUser <- await (rejects 3) (User_findOne (named username)) ;;
  user <- orReply foundUser 404 (Message "error" "User not found") ;;
  await (rejects 4)
    (Comment_updateById (c_id newComment) (set_c_postedBy (Some (u_id user)))) ;;
  let newComments := unshift (c_id newComment) (t_comments originalTweet) in
  await (rejects 5)
    (Tweet_updateById (t_id originalTweet) (set_t_comments newComments)) ;;
  await (rejects 6)
    (Tweet_updateMany (isOriginalOrCopyOf originalTweetId)
                      (set_t_comments newComments)) ;;
  populatedComment <- await (rejects 7)
                        (Comment_findOne (commentHasId (c_id newComment))) ;;
  reply 200 (CommentResult populatedComment (List.length newComments)).

(** ** Requests *)

(** A request to one of the routes on tweets and comments, with what the
    route reads of it and, for the three routes that propagate, the store
    calls that reject. *)
Inductive Request :=
| ReqComposeTweet (content : string) (tag image : option string)
    (username now : string) (clock : Z) (likeTweetBtn retweetBtn : string)
| ReqComposeComment (rejects : Faults) (tweetId content username now : string)
| ReqRetweet (userName tweetId : string) (userId : ObjectId) (now : string)
    (clock : Z)
| ReqLikeTweet (rejects : Faults) (userName tweetId : string)
| ReqLikeComment (userName commentId : string)
| ReqDeleteTweet (tweetId : string) (userId : ObjectId)
| ReqDeleteComment (commentId : string)
| ReqEditTweet (rejects : Faults) (tweetId : string) (content : JsValue)
    (userId : ObjectId)
| ReqEditComment (commentId : string) (content : JsValue)
| ReqFeed (t : option string) (username : string)
| ReqTopic (castSkip : string -> option Z) (decoded : option string)
    (tag : string) (t : option string)
| ReqTweetComments (tweetId : string).

(** The store a request leaves behind. *)
Definition storeAfter (r : Request) (s : Store) : Store :=
  match r with
  | ReqComposeTweet content tag image username now clock likeBtn retweetBtn =>
      fst (composeTweet content tag image username now clock likeBtn retweetBtn s)
  | ReqComposeComment rejects tweetId content username now =>
      fst (composeCommentWith rejects tweetId content username now s)
  | ReqRetweet userName tweetId userId now clock =>
      fst (retweet userName tweetId userId now clock s)
  | ReqLikeTweet rejects userName tweetId =>
      fst (likeTweetWith rejects userName tweetId s)
  | ReqLikeComment userName commentId => fst (likeComment userName commentId s)
  | ReqDeleteTweet tweetId userId => fst (deleteTweet tweetId userId s)
  | ReqDeleteComment commentId => fst (deleteComment commentId s)
  | ReqEditTweet rejects tweetId content userId =>
      fst (editTweetWith rejects tweetId content userId s)
  | ReqEditComment commentId content => fst (editComment commentId content s)
  | ReqFeed t username => fst (feed t username s)
  | ReqTopic castSkip decoded tag t => fst (topic castSkip decoded tag t s)
  | ReqTweetComments tweetId => fst (tweetComments tweetId s)
  end.

(** No store call of the request rejects. *)
Definition faultFree (r : Request) : bool :=
  match r with
  | ReqComposeComment rejects _ _ _ _ => noneRejects 8 rejects
  | ReqLikeTweet rejects _ _ => noneRejects 3 rejects
  | ReqEditTweet rejects _ _ _ => noneRejects 5 rejects
  | _ => true
  end.

(** The store after the requests of a list, served one after the other. *)
Definition storeAfterAll (rs : list Request) (s : Store) : Store :=
  fold_left (fun acc r => storeAfter r acc) rs s.

(** ** The replication invariant *)

(** The fields a copy mirrors. *)
Definition mirrored (d : Tweet) : string * bool * list string * list ObjectId :=
  (t_content d, t_isEdited d, t_likes d, t_comments d).

(** The tweets [l] of a store whose next ObjectId is [next] are replicated
    when the [_id]s are distinct and were handed out, the references of
    the copies are to [_id]s that were handed out, no copy points at a
    copy, and every copy agrees with the tweet it points at on the
    mirrored fields. *)
Definition Repl (l : list Tweet) (next : ObjectId) : Prop :=
  NoDup (map t_id l)
  /\ (forall d, In d l -> (t_id d < next)%N)
  /\ (forall d o, In d l -> t_retweetedFrom d = Some o -> (o < next)%N)
  /\ (forall C O, In C l -> In O l ->
        t_retweetedFrom C = Some (t_id O) -> t_retweetedFrom O = None)
  /\ (forall C O, In C l -> In O l ->
        t_retweetedFrom C = Some (t_id O) -> mirrored C = mirrored O).

Definition replicated (s : Store) : Prop := Repl (tweets s) (nextId s).

(** No [likes] array, of a tweet or of a comment, holds a name twice. *)
Definition likesAreSets (s : Store) : Prop :=
  (forall d, In d (tweets s) -> NoDup (t_likes d))
  /\ (forall c, In c (comments s) -> NoDup (c_likes c)).

(** What the invariant looks at in a tweet. *)
Definition core (d : Tweet)
  : ObjectId * option ObjectId * (string * bool * list string * list ObjectId) :=
  (t_id d, t_retweetedFrom d, mirrored d).

(** ** More example stores *)

(** alice and bob have signed up and nothing has been posted yet. *)
Definition storeSignedUp : Store :=
  mkStore [] [] [mkUser 1%N "alice" []; mkUser 2%N "bob" []] 10%N.

(** alice posts, bob retweets, carol likes through bob's copy, bob
    comments through his copy and alice edits her tweet. *)
Definition busyDay : list Request :=
  [ReqComposeTweet "hello" (Some "rocq") None "alice" "t0" 100%Z "black" "black";
   ReqRetweet "bob" "t0" 2%N "t1" 200%Z;
   ReqLikeTweet noFaults "carol" "t1";
   ReqComposeComment noFaults "t1" "nice" "bob" "c0";
   ReqEditTweet noFaults "t0" (JString "hello world") 1%N].



(* ================================================================== *)
(** * Facts about the collection operations                            *)
(* ================================================================== *)

Section CollectionFacts.
Context {A : Type}.
Implicit Types (p q : A -> bool) (f g : A -> A) (l : list A).

Lemma removeFirst_no_match p l :
  (forall d, In d l -> p d = false) -> removeFirst p l = l.
Proof.
  induction l as [|d r IH]; intros H; simpl.
  - reflexivity.
  - rewrite (H d (or_introl eq_refl)). f_equal.
    apply IH. intros e He. apply H. now right.
Qed.

Lemma find_no_match p l :
  (forall d, In d l -> p d = false) -> find p l = None.
Proof.
  induction l as [|d r IH]; intros H; simpl.
  - reflexivity.
  - rewrite (H d (or_introl eq_refl)). apply IH.
    intros e He. apply H. now right.
Qed.

Lemma In_removeFirst p l d : In d (removeFirst p l) -> In d l.
Proof.
  induction l as [|e r IH]; simpl; [tauto|].
  destruct (p e); simpl; intuition.
Qed.

(** The document [updateFirst] rewrites is the one [find] returns. *)
Lemma find_updateFirst_same p f l d :
  find p l = Some d -> p (f d) = true ->
  find p (updateFirst p f l) = Some (f d).
Proof.
  induction l as [|e r IH]; simpl; [discriminate|].
  destruct (p e) eqn:E; intros H Hf.
  - injection H as ->. simpl. now rewrite Hf.
  - simpl. rewrite E. now apply IH.
Qed.

Lemma find_updateFirst_miss p f l :
  find p l = None -> updateFirst p f l = l.
Proof.
  induction l as [|e r IH]; simpl; [reflexivity|].
  destruct (p e); [discriminate|]. intros H. now rewrite IH.
Qed.

Lemma find_updateAll p q g l :
  (forall d, p (g d) = p d) ->
  find p (updateAll q g l)
  = option_map (fun d => if q d then g d else d) (find p l).
Proof.
  intros Hp. induction l as [|e r IH]; simpl; [reflexivity|].
  assert (E : p (if q e then g e else e) = p e)
    by (destruct (q e); [apply Hp | reflexivity]).
  rewrite E. destruct (p e); [reflexivity | exact IH].
Qed.

Lemma In_updateAll q g l c :
  In c (updateAll q g l) ->
  exists c0, In c0 l /\ c = (if q c0 then g c0 else c0).
Proof.
  unfold updateAll. rewrite in_map_iff.
  intros (c0 & E & H). exists c0. split; [assumption | now symmetry].
Qed.

Lemma In_updateFirst p f l c :
  In c (updateFirst p f l) -> In c l \/ exists c0, In c0 l /\ c = f c0.
Proof.
  induction l as [|e r IH]; simpl; [tauto|].
  destruct (p e); simpl.
  - intros [<-|H]; [right; exists e; tauto | left; tauto].
  - intros [<-|H]; [left; tauto|].
    destruct (IH H) as [H1 | (c0 & H1 & H2)]; [left; tauto|].
    right. exists c0. tauto.
Qed.

Lemma map_updateFirst {B : Type} (k : A -> B) p f l :
  (forall d, k (f d) = k d) -> map k (updateFirst p f l) = map k l.
Proof.
  intros H. induction l as [|e r IH]; simpl; [reflexivity|].
  destruct (p e); simpl; [now rewrite H | now rewrite IH].
Qed.

Lemma map_updateAll {B : Type} (k : A -> B) q g l :
  (forall d, k (g d) = k d) -> map k (updateAll q g l) = map k l.
Proof.
  intros H. unfold updateAll. rewrite map_map. apply map_ext.
  intros d. destruct (q d); [apply H | reflexivity].
Qed.

Lemma incl_map_removeFirst {B : Type} (k : A -> B) p l :
  incl (map k (removeFirst p l)) (map k l).
Proof.
  intros b. rewrite !in_map_iff. intros (d & E & H).
  exists d. split; [assumption | now apply In_removeFirst in H].
Qed.

(** With distinct keys, rewriting the document that has the key of the
    one [find] returned rewrites that very document. *)
Lemma find_updateFirst_key (k : A -> N) p f l d :
  NoDup (map k l) ->
  (forall x, p (f x) = p x) ->
  find p l = Some d ->
  find p (updateFirst (fun x => (k x =? k d)%N) f l) = Some (f d).
Proof.
  intros Hnd Hp. induction l as [|e r IH]; simpl; [discriminate|].
  inversion Hnd as [|? ? Hnotin Hnd']; subst.
  destruct (p e) eqn:E; intros H.
  - injection H as ->. rewrite N.eqb_refl. simpl. now rewrite Hp, E.
  - assert (Hin : In d r) by (apply find_some in H; tauto).
    destruct (N.eqb_spec (k e) (k d)) as [Heq|Hne].
    + exfalso. apply Hnotin. rewrite Heq. now apply in_map.
    + simpl. rewrite E. now apply IH.
Qed.
End CollectionFacts.

Lemma store_eta (s : Store) :
  mkStore (tweets s) (comments s) (users s) (nextId s) = s.
Proof. now destruct s. Qed.

Lemma distinct_NoDup l : distinct l = true -> NoDup l.
Proof.
  induction l as [|x r IH]; simpl; intros H; constructor.
  - apply andb_prop in H as [H _]. intros Hin.
    apply negb_true_iff in H.
    assert (existsb (N.eqb x) r = true)
      by (apply existsb_exists; exists x; split; [assumption | apply N.eqb_refl]).
    congruence.
  - apply IH. now apply andb_prop in H as [_ H].
Qed.

Lemma includes_In x l : includes x l = true <-> In x l.
Proof.
  unfold includes. rewrite existsb_exists. split.
  - intros (y & Hy & E). apply String.eqb_eq in E. now subst.
  - intros H. exists x. split; [assumption | apply String.eqb_refl].
Qed.

Lemma distinctNames_NoDup l : distinctNames l = true -> NoDup l.
Proof.
  induction l as [|x r IH]; simpl; intros H; constructor.
  - apply andb_prop in H as [H _]. apply negb_true_iff in H.
    intros Hin. apply includes_In in Hin. congruence.
  - apply IH. now apply andb_prop in H as [_ H].
Qed.

(* ================================================================== *)
(** * Edits with blank content                                         *)
(* ================================================================== *)

Lemma trim_allWhiteSpace s : allWhiteSpace s = true -> trim s = EmptyString.
Proof.
  unfold trim. induction s as [|c r IH]; simpl; [reflexivity|].
  intros H. apply andb_prop in H as [Hc Hr]. rewrite Hc. now apply IH.
Qed.

Lemma checkContent_blank content s :
  isBlank content = true ->
  checkContent content s
  = (s, Stop (Some (mkResponse 400 (Message "error" "Content cannot be empty")))).
Proof.
  destruct content as [| |b|z|str|]; simpl; try discriminate.
  - reflexivity.
  - intros H. unfold checkContent. simpl.
    destruct (str =? EmptyString) eqn:E; simpl; [reflexivity|].
    now rewrite (trim_allWhiteSpace _ H).
Qed.

Lemma trimEnd_empty s : trimEnd s = EmptyString -> allWhiteSpace s = true.
Proof.
  induction s as [|c r IH]; simpl; [reflexivity|].
  destruct (trimEnd r) as [|c' r']; [|discriminate].
  destruct (isWhiteSpace c); [|discriminate].
  intros _. now apply IH.
Qed.

Lemma trim_empty s : trim s = EmptyString -> allWhiteSpace s = true.
Proof.
  unfold trim. induction s as [|c r IH]; [reflexivity|].
  cbn [trimStart allWhiteSpace]. destruct (isWhiteSpace c) eqn:E.
  - exact IH.
  - intros H. apply trimEnd_empty in H. cbn [allWhiteSpace] in H.
    now rewrite E in H.
Qed.

(** Content with a character that is not white space passes the check. *)
Lemma checkContent_passes str s :
  allWhiteSpace str = false -> checkContent (JString str) s = (s, Continue str).
Proof.
  intros H. unfold checkContent. simpl.
  destruct (String.eqb_spec str EmptyString) as [->|_]; [discriminate H|]. simpl.
  destruct (String.eqb_spec (trim str) EmptyString) as [E|_]; [|reflexivity].
  apply trim_empty in E. congruence.
Qed.

(** C7.  An edit of a tweet or of a comment whose content is absent, empty
    or white space only is answered with status 400 and the message
    "Content cannot be empty", and the store is left as it was: the check
    comes before any access to the store. *)
Theorem edit_blank_content_rejected :
  forall (s : Store) (tweetId commentId : string) (content : JsValue)
         (userId : ObjectId),
    isBlank content = true ->
    run (editTweet tweetId content userId) s
    = (s, Some (mkResponse 400 (Message "error" "Content cannot be empty")))
    /\ run (editComment commentId content) s
       = (s, Some (mkResponse 400 (Message "error" "Content cannot be empty"))).
Proof.
  intros s tweetId commentId content userId H.
  unfold run, editTweet, editComment, bind.
  now rewrite (checkContent_blank content s H).
Qed.

(* ================================================================== *)
(** * The feed listings                                                *)
(* ================================================================== *)

Lemma In_insertByCreatedAt d l x :
  In x (insertByCreatedAt d l) <-> x = d \/ In x l.
Proof.
  induction l as [|e r IH]; simpl.
  - intuition.
  - destruct (t_createdAt e <=? t_createdAt d)%Z; simpl; [intuition|].
    rewrite IH. intuition.
Qed.

Lemma In_sortNewestFirst l x : In x (sortNewestFirst l) <-> In x l.
Proof.
  induction l as [|e r IH]; simpl; [tauto|].
  rewrite In_insertByCreatedAt, IH. intuition.
Qed.

Lemma insertByCreatedAt_sorted d l :
  newestFirst l -> newestFirst (insertByCreatedAt d l).
Proof.
  unfold newestFirst. induction l as [|e r IH]; intros H; simpl.
  - constructor; constructor.
  - destruct (Z.leb_spec (t_createdAt e) (t_createdAt d)) as [Hle|Hlt].
    + constructor; [assumption|].
      inversion H as [|? ? _ Hall]; subst. constructor; [assumption|].
      eapply Forall_impl; [|exact Hall]. simpl. intros x Hx. lia.
    + inversion H as [|? ? Hs Hall]; subst. constructor; [now apply IH|].
      rewrite Forall_forall in *. intros x Hx.
      apply In_insertByCreatedAt in Hx as [->|Hx]; [lia | now apply Hall].
Qed.

Lemma sortNewestFirst_sorted l : newestFirst (sortNewestFirst l).
Proof.
  induction l as [|e r IH]; simpl.
  - constructor.
  - now apply insertByCreatedAt_sorted.
Qed.

Lemma In_firstn {A : Type} n (l : list A) x : In x (firstn n l) -> In x l.
Proof.
  revert l. induction n as [|n IH]; intros [|e r]; simpl; try tauto.
  intros [->|H]; [now left | right; now apply IH].
Qed.

Lemma In_skipn {A : Type} n (l : list A) x : In x (skipn n l) -> In x l.
Proof.
  revert l. induction n as [|n IH]; intros [|e r]; simpl; try tauto.
  intros H. right. now apply IH.
Qed.

Lemma newestFirst_skipn n l : newestFirst l -> newestFirst (skipn n l).
Proof.
  unfold newestFirst. revert l. induction n as [|n IH]; intros l H; simpl.
  - assumption.
  - destruct l as [|e r]; [constructor|].
    apply IH. now inversion H.
Qed.

Lemma newestFirst_firstn n l : newestFirst l -> newestFirst (firstn n l).
Proof.
  unfold newestFirst. revert l. induction n as [|n IH]; intros l H; simpl.
  - constructor.
  - destruct l as [|e r]; [constructor|].
    inversion H as [|? ? Hs Hall]; subst. constructor; [now apply IH|].
    rewrite Forall_forall in *. intros x Hx. apply Hall.
    now apply In_firstn in Hx.
Qed.

Lemma newestFirst_withButtons username l :
  newestFirst l -> newestFirst (map (withButtons username) l).
Proof.
  unfold newestFirst. induction 1 as [|e r Hs IH Hall]; simpl; constructor.
  - assumption.
  - rewrite Forall_forall in *. intros x Hx.
    apply in_map_iff in Hx as (y & <- & Hy). simpl. now apply Hall.
Qed.

(** What every page satisfies, whatever the filter and the offset. *)
Lemma pageOf_spec p n username l :
  newestFirst (pageOf p n username l)
  /\ List.length (pageOf p n username l) <= 20
  /\ (forall d, In d (pageOf p n username l) ->
        exists d0, In d0 l /\ p d0 = true /\ d = withButtons username d0).
Proof.
  unfold pageOf. repeat split.
  - apply newestFirst_withButtons, newestFirst_firstn, newestFirst_skipn,
      sortNewestFirst_sorted.
  - rewrite length_map. apply firstn_le_length.
  - intros d Hd. apply in_map_iff in Hd as (d0 & <- & Hd0).
    exists d0. apply In_firstn, In_skipn, In_sortNewestFirst, filter_In in Hd0.
    tauto.
Qed.

Lemma insertByCreatedAt_perm d l : Permutation (insertByCreatedAt d l) (d :: l).
Proof.
  induction l as [|e r IH]; simpl; [reflexivity|].
  destruct (t_createdAt e <=? t_createdAt d)%Z; [reflexivity|].
  rewrite IH. apply perm_swap.
Qed.

Lemma sortNewestFirst_perm l : Permutation (sortNewestFirst l) l.
Proof.
  induction l as [|e r IH]; simpl; [reflexivity|].
  rewrite insertByCreatedAt_perm. now constructor.
Qed.

Lemma findPage_pageOf p n username l page :
  findPage p n 20 l = Some page ->
  (0 <= n)%Z /\ map (withButtons username) page = pageOf p (Z.to_nat n) username l.
Proof.
  unfold findPage, pageOf. destruct (Z.ltb_spec n 0); [discriminate|].
  intros [= <-]. split; [assumption | reflexivity].
Qed.

Lemma pageOf_originals n username l :
  Forall (fun d => t_isRetweeted d = false)
         (pageOf (fun d => negb (t_isRetweeted d)) n username l).
Proof.
  apply Forall_forall. intros d Hd.
  apply pageOf_spec in Hd as (d0 & _ & Hp & ->). simpl.
  now apply negb_true_iff in Hp.
Qed.

Lemma feed_run t username s :
  run (feed t username) s
  = (s, Some (if (orZero (parseInt t) <? 0)%Z
              then mkResponse 500 (Message "error" "Internal server error")
              else mkResponse 200
                     (FeedResult (pageOf (fun d => negb (t_isRetweeted d))
                                    (Z.to_nat (orZero (parseInt t)))
                                    username (tweets s))
                                 username))).
Proof.
  unfold run, feed, findPage, pageOf.
  now destruct (orZero (parseInt t) <? 0)%Z.
Qed.

Lemma topic_run_page castSkip username tag t s s' docs user :
  run (topic castSkip (Some username) tag t) s
  = (s', Some (mkResponse 200 (TopicResult docs user))) ->
  exists n,
    docs = pageOf (fun d => negb (t_isRetweeted d) && hasTag tag d) n
                  username (tweets s).
Proof.
  unfold run, topic, bind, User_findOne, saveLikeButtons, reply, ret, noReply.
  simpl.
  destruct (match t with
            | None | Some EmptyString => Some 0%Z
            | Some q => castSkip q
            end) as [n|]; [|discriminate].
  destruct (findPage _ n 20 (tweets s)) as [page|] eqn:E; [|discriminate].
  intros [= _ <- _]. exists (Z.to_nat n).
  now apply findPage_pageOf with (username := username) in E as [_ E].
Qed.

(** ** Offsets written as decimal numerals *)

Lemma digit_cases (d : N) :
  (d < 10)%N ->
  d = 0%N \/ d = 1%N \/ d = 2%N \/ d = 3%N \/ d = 4%N \/ d = 5%N \/ d = 6%N
  \/ d = 7%N \/ d = 8%N \/ d = 9%N.
Proof. lia. Qed.

Ltac each_digit H :=
  destruct (digit_cases _ H)
    as [->|[->|[->|[->|[->|[->|[->|[->|[->| ->]]]]]]]]].

Lemma digitValue_digitChar d :
  (d < 10)%N -> digitValue (digitChar d) = Some (Z.of_N d).
Proof. intros H. each_digit H; reflexivity. Qed.

Lemma parseDigits_numeral ds :
  Forall (fun d => (d < 10)%N) ds ->
  forall acc,
    parseDigits 10 (numeral ds) true acc
    = Some (fold_left (fun a d => (a * 10 + Z.of_N d)%Z) ds acc).
Proof.
  induction 1 as [|d r Hd Hr IH]; intros acc; simpl; [reflexivity|].
  rewrite (digitValue_digitChar d Hd).
  destruct (Z.ltb_spec (Z.of_N d) 10) as [_|Hge]; [apply IH | lia].
Qed.

(** A numeral has no white space in front, no sign and no [0x]: [parseInt]
    reads all of it in base 10. *)
Lemma parseInt_reads_numeral d r :
  Forall (fun d => (d < 10)%N) (d :: r) ->
  parseInt (Some (numeral (d :: r)))
  = option_map (Z.mul 1) (parseDigits 10 (numeral (d :: r)) false 0%Z)
  /\ parseInt (Some (String "-"%char (numeral (d :: r))))
     = option_map (Z.mul (-1)) (parseDigits 10 (numeral (d :: r)) false 0%Z).
Proof.
  intros H. inversion H as [|? ? Hd Hr]; subst.
  each_digit Hd; try (split; reflexivity).
  destruct r as [|d2 r2]; [split; reflexivity|].
  inversion Hr as [|? ? Hd2 _]; subst.
  each_digit Hd2; split; reflexivity.
Qed.

Lemma parseInt_numeral ds :
  ds <> [] -> Forall (fun d => (d < 10)%N) ds ->
  parseInt (Some (numeral ds)) = Some (numeralValue ds)
  /\ parseInt (Some (String "-"%char (numeral ds))) = Some (- numeralValue ds)%Z.
Proof.
  destruct ds as [|d r]; [congruence|]. intros _ H.
  destruct (parseInt_reads_numeral d r H) as [-> ->].
  inversion H as [|? ? Hd Hr]; subst.
  assert (E : parseDigits 10 (numeral (d :: r)) false 0%Z
              = Some (numeralValue (d :: r))).
  { simpl. rewrite (digitValue_digitChar d Hd).
    destruct (Z.ltb_spec (Z.of_N d) 10) as [_|Hge]; [|lia].
    now apply parseDigits_numeral. }
  rewrite E. cbn [option_map]. split; f_equal; lia.
Qed.

Lemma digitsOf_digits fuel n : Forall (fun d => (d < 10)%N) (digitsOf fuel n).
Proof.
  revert n. induction fuel as [|f IH]; intros n; simpl; [constructor|].
  destruct (N.ltb_spec n 10) as [Hlt|_].
  - now repeat constructor.
  - apply Forall_app. split; [apply IH|].
    repeat constructor. now apply N.mod_lt.
Qed.

Lemma digitsOf_nonempty f n : digitsOf (S f) n <> [].
Proof.
  simpl. destruct (n <? 10)%N; [discriminate|].
  now destruct (digitsOf f (n / 10)).
Qed.

Lemma digitsOf_value fuel n :
  (n < 10 ^ N.of_nat fuel)%N -> numeralValue (digitsOf fuel n) = Z.of_N n.
Proof.
  unfold numeralValue. revert n.
  induction fuel as [|f IH]; intros n Hn.
  - simpl in *. lia.
  - cbn [digitsOf]. destruct (N.ltb_spec n 10) as [Hlt|Hge].
    + simpl. lia.
    + rewrite fold_left_app. simpl.
      rewrite Nat2N.inj_succ, N.pow_succ_r' in Hn.
      rewrite IH by (apply N.Div0.div_lt_upper_bound; lia).
      pose proof (N.div_mod' n 10). lia.
Qed.

(** [parseInt] reads the decimal numeral of an offset as the offset, and
    the numeral with a minus sign in front as its opposite. *)
Lemma parseInt_decimal n :
  (n < 2 ^ 53)%N ->
  parseInt (Some (decimal n)) = Some (Z.of_N n)
  /\ parseInt (Some (String "-"%char (decimal n))) = Some (- Z.of_N n)%Z.
Proof.
  intros Hn. unfold decimal.
  rewrite <- (digitsOf_value 16 n).
  - apply parseInt_numeral; [apply digitsOf_nonempty | apply digitsOf_digits].
  - eapply N.lt_le_trans; [exact Hn|]. now vm_compute.
Qed.

Lemma decimal_not_empty n : exists c r, decimal n = String c r.
Proof.
  unfold decimal. pose proof (digitsOf_nonempty 15 n) as H.
  destruct (digitsOf 16 n) as [|d r]; [congruence|].
  now exists (digitChar d), (numeral r).
Qed.

(** ** Pages *)

Lemma isPageOf_slice limit matches offset :
  isPageOf limit matches offset
    (firstn limit (skipn offset (sortNewestFirst matches))).
Proof.
  set (L := sortNewestFirst matches).
  assert (Hlen : List.length L = List.length matches)
    by apply Permutation_length, sortNewestFirst_perm.
  exists (firstn offset L), (skipn limit (skipn offset L)).
  rewrite !firstn_skipn. repeat split.
  - apply sortNewestFirst_perm.
  - apply sortNewestFirst_sorted.
  - now rewrite length_firstn, Hlen.
  - now rewrite length_firstn, length_skipn, Hlen.
Qed.

(** The feed at the offset a decimal numeral denotes. *)
Lemma feed_run_decimal n username s :
  (n < 2 ^ 53)%N ->
  run (feed (Some (decimal n)) username) s
  = (s, Some (mkResponse 200
                (FeedResult
                   (map (withButtons username)
                      (firstn 20
                         (skipn (N.to_nat n)
                            (sortNewestFirst
                               (filter (fun d => negb (t_isRetweeted d))
                                       (tweets s))))))
                   username))).
Proof.
  intros Hn. rewrite feed_run.
  destruct (parseInt_decimal n Hn) as [-> _]. simpl orZero.
  destruct (Z.ltb_spec (Z.of_N n) 0) as [|_]; [lia|].
  unfold pageOf. now rewrite <- Z_N_nat, N2Z.id.
Qed.

Lemma Forall_slice {A : Type} (P : A -> Prop) limit offset (l : list A) :
  Forall P l -> Forall P (firstn limit (skipn offset l)).
Proof.
  rewrite !Forall_forall. intros H x Hx. apply H.
  now apply In_firstn, In_skipn in Hx.
Qed.

Lemma Forall_sortNewestFirst_filter (P : Tweet -> Prop) p l :
  (forall d, p d = true -> P d) -> Forall P (sortNewestFirst (filter p l)).
Proof.
  intros H. apply Forall_forall. intros d Hd.
  apply In_sortNewestFirst, filter_In in Hd as [_ Hd]. now apply H.
Qed.

(** C8.  The feed query answers with documents that are not retweet copies,
    sorted newest first by [createdAt], after skipping the offset the
    caller wrote in the query string, and at most 20 of them: for an
    offset [n] below 2^53 written as its decimal numeral, the answer has
    status 200 and shows, with the buttons of the caller, a page of the
    stored originals that starts after [n] of them in a newest-first
    arrangement and holds 20 documents or as many as are left.  Without an
    offset the page starts at the newest document.  A negative offset is
    refused by the store and the request is answered with status 500.
    The topic listing answers in the same way with the originals of the
    tag, provided Mongoose casts the numeral to the number it denotes. *)
Theorem feed_page_newest_originals :
  forall (castSkip : string -> option Z) (n : N) (username tag : string)
         (s : Store),
    (n < 2 ^ 53)%N ->
    castSkip (decimal n) = Some (Z.of_N n) ->
    let originals := filter (fun d => negb (t_isRetweeted d)) (tweets s) in
    let tagged :=
      filter (fun d => negb (t_isRetweeted d) && hasTag tag d) (tweets s) in
    (exists docs,
        run (feed (Some (decimal n)) username) s
        = (s, Some (mkResponse 200
                      (FeedResult (map (withButtons username) docs) username)))
        /\ isPageOf 20 originals (N.to_nat n) docs
        /\ Forall (fun d => t_isRetweeted d = false) docs
        /\ newestFirst docs
        /\ List.length docs <= 20)
    /\ (exists docs,
          run (feed None username) s
          = (s, Some (mkResponse 200
                        (FeedResult (map (withButtons username) docs) username)))
          /\ isPageOf 20 originals 0 docs)
    /\ ((0 < n)%N ->
        run (feed (Some (String "-"%char (decimal n))) username) s
        = (s, Some (mkResponse 500 (Message "error" "Internal server error"))))
    /\ (exists s' docs,
          run (topic castSkip (Some username) tag (Some (decimal n))) s
          = (s', Some (mkResponse 200
                         (TopicResult (map (withButtons username) docs)
                                      (find (named username) (users s)))))
          /\ isPageOf 20 tagged (N.to_nat n) docs
          /\ Forall (fun d => t_isRetweeted d = false /\ t_tag d = Some tag) docs
          /\ newestFirst docs
          /\ List.length docs <= 20).
Proof.
  intros castSkip n username tag s Hn Hcast originals tagged.
  split; [|split; [|split]].
  - eexists. split; [now apply feed_run_decimal|].
    split; [apply isPageOf_slice|]. split; [|split].
    + apply Forall_slice, Forall_sortNewestFirst_filter.
      intros d Hd. now apply negb_true_iff in Hd.
    + apply newestFirst_firstn, newestFirst_skipn, sortNewestFirst_sorted.
    + apply firstn_le_length.
  - eexists. split; [rewrite feed_run; reflexivity|].
    apply (isPageOf_slice 20 originals 0).
  - intros Hpos. rewrite feed_run.
    destruct (parseInt_decimal n Hn) as [_ ->]. simpl orZero.
    destruct (Z.ltb_spec (- Z.of_N n) 0) as [_|]; [reflexivity | lia].
  - destruct (decimal_not_empty n) as (c & r & Hd).
    rewrite Hd in Hcast |- *.
    eexists _, _. split.
    + unfold run, topic, bind, User_findOne, saveLikeButtons, reply, ret.
      simpl. rewrite Hcast. unfold findPage.
      destruct (Z.ltb_spec (Z.of_N n) 0) as [|_]; [lia|].
      rewrite <- Z_N_nat, N2Z.id. reflexivity.
    + split; [apply isPageOf_slice|]. split; [|split].
      * apply Forall_slice, Forall_sortNewestFirst_filter.
        intros d Hp. apply andb_prop in Hp as [Hr Ht].
        apply negb_true_iff in Hr. split; [assumption|].
        unfold hasTag in Ht. destruct (t_tag d) as [g|]; [|discriminate].
        apply String.eqb_eq in Ht. now subst.
      * apply newestFirst_firstn, newestFirst_skipn, sortNewestFirst_sorted.
      * apply firstn_le_length.
Qed.

(* ================================================================== *)
(** * Retweet and un-retweet                                           *)
(* ================================================================== *)

Lemma indexOf_None x l : indexOf x l = None <-> ~ In x l.
Proof.
  induction l as [|y r IH]; simpl; [tauto|].
  destruct (String.eqb_spec y x) as [->|Hne].
  - split; [discriminate | tauto].
  - destruct (indexOf x r) as [i|]; simpl.
    + split; [discriminate|]. intros H. exfalso.
      assert (Hr : ~ In x r) by tauto. now apply IH in Hr.
    + split; [|reflexivity]. intros _ [H|H]; [congruence|]. now apply IH.
Qed.

Lemma indexOf_Some x l : In x l -> exists i, indexOf x l = Some i.
Proof.
  intros H. destruct (indexOf x l) as [i|] eqn:E; [now exists i|].
  now apply indexOf_None in E.
Qed.

Lemma indexOf_push x l :
  ~ In x l -> indexOf x (push x l) = Some (List.length l).
Proof.
  unfold push. induction l as [|y r IH]; simpl; intros H.
  - now rewrite String.eqb_refl.
  - destruct (String.eqb_spec y x) as [->|Hne]; [tauto|].
    rewrite IH by tauto. reflexivity.
Qed.

Lemma updateFirst_app_hit {A : Type} (p : A -> bool) f l l' d :
  find p l = Some d -> updateFirst p f (l ++ l') = updateFirst p f l ++ l'.
Proof.
  induction l as [|e r IH]; simpl; [discriminate|].
  destruct (p e); [reflexivity|]. intros H. now rewrite IH.
Qed.

(** The three ways through the handler once the target is found. *)

Lemma retweet_run_rejected s userName tweetId userId now clock P :
  find (postedAt tweetId) (tweets s) = Some P ->
  indexOf userName (t_retweets P) = None ->
  t_isRetweeted P = true ->
  run (retweet userName tweetId userId now clock) s
  = (s, Some (mkResponse 400 (Message "error" "Cannot retweet a retweeted tweet"))).
Proof.
  intros Hf Hi Hr. unfold run, retweet, bind, Tweet_findOne. rewrite Hf. simpl.
  now rewrite Hi, Hr.
Qed.

Lemma retweet_run_unretweet s userName tweetId userId now clock tweet i :
  find (postedAt tweetId) (tweets s) = Some tweet ->
  indexOf userName (t_retweets tweet) = Some i ->
  run (retweet userName tweetId userId now clock) s
  = match find (copyPostedBy (originalId tweet) userId) (tweets s) with
    | None =>
        (set_tweets (removeFirst (copyPostedBy (originalId tweet) userId)
                                 (tweets s)) s, None)
    | Some deleted =>
        (mkStore
           (updateFirst (hasId (originalId tweet))
              (fun d => set_t_retweets (pullString userName (t_retweets d)) d)
              (removeFirst (copyPostedBy (originalId tweet) userId) (tweets s)))
           (comments s)
           match find (named userName) (users s) with
           | Some user =>
               updateFirst (userHasId (u_id user))
                 (set_u_tweets (filter (fun id => negb (id =? t_id deleted)%N)
                                       (u_tweets user)))
                 (users s)
           | None => users s
           end
           (nextId s),
         Some (mkResponse 200
                 (RetweetResult (Z.of_nat (List.length (t_retweets tweet)) - 1)
                                "black")))
    end.
Proof.
  intros Hf Hi. unfold run, retweet, bind, Tweet_findOne. rewrite Hf. simpl.
  rewrite Hi. unfold Tweet_findOneAndDelete.
  destruct (find (copyPostedBy (originalId tweet) userId) (tweets s)) as [deleted|];
    [|reflexivity].
  unfold Tweet_updateById, User_findOne. simpl.
  destruct (find (named userName) (users s)) as [user|]; reflexivity.
Qed.

Lemma retweet_run_create s userName tweetId userId now clock tweet :
  find (postedAt tweetId) (tweets s) = Some tweet ->
  indexOf userName (t_retweets tweet) = None ->
  t_isRetweeted tweet = false ->
  let copy :=
    mkTweet (nextId s) (t_content tweet) (t_postedBy tweet) (t_likes tweet)
      (t_retweets tweet ++ [userName]) (t_tag tweet) (t_likeTweetBtn tweet)
      "green" (t_image tweet) (t_comments tweet) (t_isEdited tweet) now
      (Some (originalId tweet)) true clock in
  run (retweet userName tweetId userId now clock) s
  = (mkStore
       (updateFirst (hasId (originalId tweet))
          (fun d => set_t_retweets (push userName (t_retweets d)) d)
          (tweets s ++ [copy]))
       (comments s)
       match find (named userName) (users s) with
       | Some user =>
           updateFirst (userHasId (u_id user))
             (set_u_tweets (unshift (nextId s) (u_tweets user))) (users s)
       | None => users s
       end
       (N.succ (nextId s)),
     Some (mkResponse 200
             (RetweetResult (Z.of_nat (List.length (t_retweets tweet)) + 1)
                            "green"))).
Proof.
  intros Hf Hi Hr copy. unfold run, retweet, bind, Tweet_findOne. rewrite Hf.
  simpl. rewrite Hi, Hr. unfold Tweet_create, User_findOne. simpl.
  destruct (find (named userName) (users s)) as [user|]; reflexivity.
Qed.

Lemma set_tweets_same s : set_tweets (tweets s) s = s.
Proof. apply store_eta. Qed.

Lemma copyPostedBy_false o userId d :
  ~ (t_retweetedFrom d = Some o /\ t_postedBy d = Some userId) ->
  copyPostedBy o userId d = false.
Proof.
  unfold copyPostedBy, isCopyOf. intros H.
  destruct (t_retweetedFrom d) as [r|]; [|reflexivity].
  destruct (N.eqb_spec r o) as [->|]; [|reflexivity].
  destruct (t_postedBy d) as [p|]; [|reflexivity].
  destruct (N.eqb_spec p userId) as [->|]; [|reflexivity].
  exfalso. now apply H.
Qed.

Lemma noNewPost_refl s : noNewPost s s.
Proof. split; [reflexivity | apply incl_refl]. Qed.

(** C1, as the handler has it.  A retweet request aimed at a stored copy
    [P] never creates a post.  When the user name is not in [P]'s
    [retweets] it is answered with status 400, "Cannot retweet a retweeted
    tweet", and the store is left as it was.  When the user name is in
    [P]'s [retweets] the handler takes the un-retweet branch instead: the
    answer is status 200 with the lowered count, or no answer at all, and
    never the rejection. *)
Theorem retweet_of_copy_creates_no_post :
  forall (s : Store) (userName tweetId : string) (userId : ObjectId)
         (now : string) (clock : Z) (P : Tweet),
    find (postedAt tweetId) (tweets s) = Some P ->
    t_isRetweeted P = true ->
    exists s' r,
      run (retweet userName tweetId userId now clock) s = (s', r)
      /\ noNewPost s s'
      /\ (~ In userName (t_retweets P) ->
          s' = s
          /\ r = Some (mkResponse 400
                         (Message "error" "Cannot retweet a retweeted tweet")))
      /\ (In userName (t_retweets P) ->
          r = None
          \/ r = Some (mkResponse 200
                         (RetweetResult
                            (Z.of_nat (List.length (t_retweets P)) - 1) "black"))).
Proof.
  intros s userName tweetId userId now clock P Hf Hr.
  destruct (indexOf userName (t_retweets P)) as [i|] eqn:Hi.
  - assert (Hin : In userName (t_retweets P)).
    { destruct (in_dec string_dec userName (t_retweets P)) as [H|H]; [assumption|].
      apply indexOf_None in H. congruence. }
    rewrite (retweet_run_unretweet _ _ _ userId now clock _ _ Hf Hi).
    destruct (find (copyPostedBy (originalId P) userId) (tweets s)) as [deleted|].
    + eexists _, _. split; [reflexivity|]. split; [|split].
      * split; [reflexivity|]. simpl.
        rewrite map_updateFirst by reflexivity. apply incl_map_removeFirst.
      * tauto.
      * intros _. now right.
    + eexists _, _. split; [reflexivity|]. split; [|split].
      * split; [reflexivity|]. simpl. apply incl_map_removeFirst.
      * tauto.
      * intros _. now left.
  - rewrite (retweet_run_rejected _ _ _ userId now clock _ Hf Hi Hr).
    exists s, (Some (mkResponse 400
                       (Message "error" "Cannot retweet a retweeted tweet"))).
    split; [reflexivity|]. split; [apply noNewPost_refl|]. split.
    + intros _. split; reflexivity.
    + intros Hin. apply indexOf_None in Hi. contradiction.
Qed.

(** C1, as stated, fails: alice, who retweeted her own tweet, aims the
    request at her copy; she is in the copy's [retweets], the un-retweet
    branch runs, the copy is deleted and the answer is status 200. *)
Lemma retweet_of_copy_by_retweeter_not_rejected :
  ~ rejectsRetweetOfCopy storeAliceRetweeted "alice" "t1" 1%N "t2" 300%Z.
Proof.
  unfold rejectsRetweetOfCopy. intros H.
  destruct (H _ eq_refl eq_refl) as (s' & Hrun & _).
  vm_compute in Hrun. discriminate Hrun.
Qed.

(** C10.  An un-retweet request by a user who is in the target's [retweets]
    while no stored tweet is both a copy of the resolved original and
    posted by the requesting user changes nothing in the store, and no
    response is sent. *)
Theorem unretweet_without_own_copy_changes_nothing :
  forall (s : Store) (userName tweetId : string) (userId : ObjectId)
         (now : string) (clock : Z) (tweet : Tweet),
    find (postedAt tweetId) (tweets s) = Some tweet ->
    In userName (t_retweets tweet) ->
    (forall d, In d (tweets s) ->
       ~ (t_retweetedFrom d = Some (originalId tweet)
          /\ t_postedBy d = Some userId)) ->
    run (retweet userName tweetId userId now clock) s = (s, None).
Proof.
  intros s userName tweetId userId now clock tweet Hf Hin Hnone.
  destruct (indexOf_Some _ _ Hin) as [i Hi].
  rewrite (retweet_run_unretweet _ _ _ userId now clock _ _ Hf Hi).
  assert (Hall : forall d, In d (tweets s) ->
                   copyPostedBy (originalId tweet) userId d = false)
    by (intros d Hd; apply copyPostedBy_false; now apply Hnone).
  rewrite (find_no_match _ _ Hall), (removeFirst_no_match _ _ Hall).
  now rewrite set_tweets_same.
Qed.

Lemma unretweet_without_own_copy_witness :
  run (retweet "bob" "t0" 2%N "t2" 300%Z) storeBobRetweeted
  = (storeBobRetweeted, None).
Proof.
  apply (unretweet_without_own_copy_changes_nothing storeBobRetweeted
           "bob" "t0" 2%N "t2" 300%Z
           (set_t_retweets ["bob"] aliceTweet)).
  - reflexivity.
  - simpl. now left.
  - intros d [<-|[<-|[]]] [H1 H2]; discriminate.
Defined.

(** C9.  A successful retweet of an original [O] by [userName] appends one
    copy to the collection.  The copy's [postedBy] is [O]'s, so it is the
    requesting user's only when that user is the author of [O]; the
    copy carries [O]'s [retweets] with [userName] added, points at [O] and
    is flagged as a retweet; its [_id] is put in front of the user's own
    list of tweets. *)
Theorem retweet_copy_keeps_author :
  forall (s : Store) (userName tweetId : string) (userId : ObjectId)
         (now : string) (clock : Z) (O : Tweet),
    find (postedAt tweetId) (tweets s) = Some O ->
    t_isRetweeted O = false ->
    t_retweetedFrom O = None ->
    ~ In userName (t_retweets O) ->
    exists s' copy,
      run (retweet userName tweetId userId now clock) s
      = (s', Some (mkResponse 200
                     (RetweetResult (Z.of_nat (List.length (t_retweets O)) + 1)
                                    "green")))
      /\ tweets s'
         = updateFirst (hasId (t_id O))
             (fun d => set_t_retweets (push userName (t_retweets d)) d)
             (tweets s) ++ [copy]
      /\ t_id copy = nextId s
      /\ t_postedBy copy = t_postedBy O
      /\ (t_postedBy O <> Some userId -> t_postedBy copy <> Some userId)
      /\ t_retweets copy = t_retweets O ++ [userName]
      /\ t_retweetedFrom copy = Some (t_id O)
      /\ t_isRetweeted copy = true
      /\ (forall user, find (named userName) (users s) = Some user ->
            users s' = updateFirst (userHasId (u_id user))
                         (set_u_tweets (t_id copy :: u_tweets user)) (users s)).
Proof.
  intros s userName tweetId userId now clock O Hf Hr Hfrom Hnot.
  apply indexOf_None in Hnot.
  pose proof (retweet_run_create s userName tweetId userId now clock O Hf Hnot Hr)
    as Hrun.
  cbv zeta in Hrun.
  assert (Ho : originalId O = t_id O) by (unfold originalId; now rewrite Hfrom).
  rewrite Ho in Hrun.
  assert (Hid : exists d, find (hasId (t_id O)) (tweets s) = Some d).
  { destruct (find (hasId (t_id O)) (tweets s)) as [d|] eqn:E; [now exists d|].
    apply find_some in Hf as [Hin _].
    pose proof (find_none _ _ E _ Hin) as Hcontra.
    unfold hasId in Hcontra. now rewrite N.eqb_refl in Hcontra. }
  destruct Hid as [d Hd].
  rewrite (updateFirst_app_hit _ _ _ _ _ Hd) in Hrun.
  eexists _, _. split; [exact Hrun|]. simpl.
  repeat split; try reflexivity.
  - tauto.
  - intros user Hu. now rewrite Hu.
Qed.

Lemma retweet_copy_keeps_author_witness :
  exists s' copy,
    run (retweet "bob" "t0" 2%N "t1" 200%Z) store0
    = (s', Some (mkResponse 200 (RetweetResult 1 "green")))
    /\ In copy (tweets s')
    /\ t_postedBy copy = Some 1%N
    /\ t_retweets copy = ["bob"].
Proof.
  destruct (retweet_copy_keeps_author store0 "bob" "t0" 2%N "t1" 200%Z aliceTweet)
    as (s' & copy & Hrun & Htw & _ & Hby & _ & Hrt & _).
  - reflexivity.
  - reflexivity.
  - reflexivity.
  - simpl. tauto.
  - exists s', copy. split; [exact Hrun|]. split; [|split].
    + rewrite Htw. apply in_or_app. right. now left.
    + exact Hby.
    + exact Hrt.
Defined.

Lemma retweet_of_copy_creates_no_post_witness :
  run (retweet "alice" "t1" 1%N "t2" 300%Z) storeBobRetweeted
  = (storeBobRetweeted,
     Some (mkResponse 400 (Message "error" "Cannot retweet a retweeted tweet"))).
Proof.
  destruct (retweet_of_copy_creates_no_post storeBobRetweeted "alice" "t1" 1%N
              "t2" 300%Z
              (mkTweet 11%N "hello" (Some 1%N) [] ["bob"] (Some "rocq") "black"
                       "green" None [] false "t1" (Some 10%N) true 200%Z)
              eq_refl eq_refl)
    as (s' & r & Hrun & _ & Hnot & _).
  destruct Hnot as [-> ->].
  - simpl. intros [H|[]]. discriminate H.
  - exact Hrun.
Defined.

Lemma find_app_found {A : Type} (p : A -> bool) l l' d :
  find p l = Some d -> find p (l ++ l') = Some d.
Proof.
  induction l as [|e r IH]; simpl; [discriminate|].
  destruct (p e); [trivial | exact IH].
Qed.

(** The un-retweet branch looks for a copy posted by the requesting user,
    while the retweet branch posts the copy under the author of the
    original.  So when any user but the author sends the request twice,
    the second request undoes nothing of the first: the store stays as the
    retweet left it, the user stays in the original's [retweets], and no
    response is sent. *)
Lemma retweet_twice_by_non_author_undoes_nothing
    s userName tweetId userId now clock now' clock' O :
  NoDup (map t_id (tweets s)) ->
  find (postedAt tweetId) (tweets s) = Some O ->
  t_isRetweeted O = false ->
  t_retweetedFrom O = None ->
  ~ In userName (t_retweets O) ->
  t_postedBy O <> Some userId ->
  (forall d, In d (tweets s) -> copyPostedBy (t_id O) userId d = false) ->
  let s1 := fst (run (retweet userName tweetId userId now clock) s) in
  run (retweet userName tweetId userId now' clock') s1 = (s1, None)
  /\ find (postedAt tweetId) (tweets s1)
     = Some (set_t_retweets (t_retweets O ++ [userName]) O)
  /\ List.length (tweets s1) = S (List.length (tweets s)).
Proof.
  intros Hnd Hf Hr Hfrom Hnot Hauthor Hnone s1.
  pose proof (proj2 (indexOf_None _ _) Hnot) as Hi.
  pose proof (retweet_run_create s userName tweetId userId now clock O Hf Hi Hr)
    as Hrun.
  cbv zeta in Hrun.
  assert (Ho : originalId O = t_id O) by (unfold originalId; now rewrite Hfrom).
  rewrite Ho in Hrun.
  set (pushUser := fun d => set_t_retweets (push userName (t_retweets d)) d) in *.
  assert (Hfirst : find (postedAt tweetId)
                     (updateFirst (hasId (t_id O)) pushUser (tweets s))
                   = Some (pushUser O))
    by (apply (find_updateFirst_key t_id (postedAt tweetId) pushUser _ O Hnd);
        [reflexivity | assumption]).
  assert (Hid : find (hasId (t_id O)) (tweets s) <> None).
  { intros E. apply find_some in Hf as [Hin _].
    pose proof (find_none _ _ E _ Hin) as Hcontra.
    unfold hasId in Hcontra. now rewrite N.eqb_refl in Hcontra. }
  destruct (find (hasId (t_id O)) (tweets s)) as [d0|] eqn:Hd0; [|congruence].
  rewrite (updateFirst_app_hit _ _ _ _ _ Hd0) in Hrun.
  assert (Htw : tweets s1
                = updateFirst (hasId (t_id O)) pushUser (tweets s)
                  ++ [mkTweet (nextId s) (t_content O) (t_postedBy O) (t_likes O)
                        (t_retweets O ++ [userName]) (t_tag O) (t_likeTweetBtn O)
                        "green" (t_image O) (t_comments O) (t_isEdited O) now
                        (Some (t_id O)) true clock])
    by (unfold s1; now rewrite Hrun).
  assert (Hf1 : find (postedAt tweetId) (tweets s1) = Some (pushUser O))
    by (rewrite Htw; now apply find_app_found).
  assert (Hi1 : indexOf userName (t_retweets (pushUser O))
                = Some (List.length (t_retweets O)))
    by (simpl; now apply indexOf_push).
  assert (Hall : forall d, In d (tweets s1) ->
                   copyPostedBy (originalId (pushUser O)) userId d = false).
  { assert (Ho1 : originalId (pushUser O) = t_id O) by exact Ho.
    rewrite Ho1, Htw. intros d Hd. apply in_app_or in Hd as [Hd|[<-|[]]].
    - apply In_updateFirst in Hd as [Hd|(d1 & Hd & ->)];
        [now apply Hnone | exact (Hnone d1 Hd)].
    - unfold copyPostedBy. simpl.
      destruct (t_postedBy O) as [p|]; [|apply andb_false_r].
      destruct (N.eqb_spec p userId) as [->|]; [congruence | apply andb_false_r]. }
  split; [|split].
  - rewrite (retweet_run_unretweet _ _ _ userId now' clock' _ _ Hf1 Hi1).
    rewrite (find_no_match _ _ Hall), (removeFirst_no_match _ _ Hall).
    now rewrite set_tweets_same.
  - exact Hf1.
  - rewrite Htw, length_app. simpl.
    rewrite <- (length_map t_id (updateFirst _ _ _)), map_updateFirst by reflexivity.
    rewrite length_map. lia.
Qed.

(** C2 on the code.  bob, who is not the author, retweets alice's tweet and
    sends the same request again to take the retweet back.  The copy that
    the first request created is posted by alice, so the second request
    finds no copy posted by bob: nothing is undone and nothing is answered.
    bob stays in the original's [retweets] and his list keeps the copy. *)
Theorem retweet_then_unretweet_by_other_user :
  let first := run (retweet "bob" "t0" 2%N "t1" 200%Z) store0 in
  let second := run (retweet "bob" "t0" 2%N "t2" 300%Z) (fst first) in
  option_map t_retweets (find (hasId 10%N) (tweets store0)) = Some []
  /\ option_map u_tweets (find (named "bob") (users store0)) = Some []
  /\ snd first = Some (mkResponse 200 (RetweetResult 1 "green"))
  /\ snd second = None
  /\ option_map t_retweets (find (hasId 10%N) (tweets (fst second)))
     = Some ["bob"]
  /\ option_map u_tweets (find (named "bob") (users (fst second)))
     = Some [11%N].
Proof. vm_compute. repeat split. Qed.

(* ================================================================== *)
(** * Deleting a comment                                               *)
(* ================================================================== *)

(** When the route parameter is not the text of an ObjectId, the comment
    goes and the tweets are not touched. *)
Lemma deleteComment_run_cast_fails s commentId c :
  find (commentPostedAt commentId) (comments s) = Some c ->
  castObjectId commentId = None ->
  run (deleteComment commentId) s
  = (set_comments (removeFirst (commentPostedAt commentId) (comments s)) s,
     Some (mkResponse 500 (Message "error" "Internal server error"))).
Proof.
  intros Hf Hc.
  unfold run, deleteComment, bind, Comment_findOneAndDelete. rewrite Hf. simpl.
  now rewrite Hc.
Qed.

(** C6 on the code.  bob's comment on alice's tweet is deleted by its
    public identifier.  The record goes, but the [$pull] is given the
    identifier where the comment's [_id] is meant: the tweet keeps the
    reference to the deleted comment, and the request is answered with
    status 500. *)
Theorem deleteComment_leaves_reference :
  let before := storeBobCommented in
  let after := run (deleteComment "May 1st 2024, 1:05:09 pm") before in
  map c_id (comments before) = [11%N]
  /\ option_map t_comments (find (hasId 10%N) (tweets before)) = Some [11%N]
  /\ comments (fst after) = []
  /\ option_map t_comments (find (hasId 10%N) (tweets (fst after))) = Some [11%N]
  /\ snd after = Some (mkResponse 500 (Message "error" "Internal server error")).
Proof. vm_compute. repeat split. Qed.

(* ================================================================== *)
(** * The like toggle                                                  *)
(* ================================================================== *)

Lemma indexOf_split x l i :
  indexOf x l = Some i ->
  exists l1 l2, l = l1 ++ x :: l2 /\ List.length l1 = i /\ ~ In x l1.
Proof.
  revert i. induction l as [|y r IH]; simpl; intros i; [discriminate|].
  destruct (String.eqb_spec y x) as [->|Hne].
  - intros [= <-]. exists [], r. simpl. tauto.
  - destruct (indexOf x r) as [j|]; simpl; [|discriminate].
    intros [= <-]. destruct (IH j eq_refl) as (l1 & l2 & -> & Hlen & Hnot).
    exists (y :: l1), l2. simpl. repeat split; [now rewrite Hlen|].
    intros [H|H]; [congruence | contradiction].
Qed.

Lemma splice1_middle {A : Type} (l1 l2 : list A) x :
  splice1 (List.length l1) (l1 ++ x :: l2) = l1 ++ l2.
Proof.
  unfold splice1. induction l1 as [|y r IH]; simpl; [reflexivity|].
  f_equal. exact IH.
Qed.

(** A user who had not liked: the second toggle gives the very array back. *)
Lemma toggleLike_twice_absent userName likes :
  ~ In userName likes ->
  toggleLike userName (fst (toggleLike userName likes)) = (likes, "black").
Proof.
  intros H. unfold toggleLike at 2.
  rewrite (proj2 (indexOf_None _ _) H). simpl.
  unfold toggleLike. rewrite (indexOf_push _ _ H).
  unfold push. rewrite (splice1_middle likes [] userName).
  now rewrite app_nil_r.
Qed.

(** A user who had liked once: the second toggle puts the name back, at
    the end of the array. *)
Lemma toggleLike_twice_present userName likes :
  NoDup likes -> In userName likes ->
  exists l1 l2,
    likes = l1 ++ userName :: l2
    /\ toggleLike userName (fst (toggleLike userName likes))
       = (l1 ++ l2 ++ [userName], "deeppink").
Proof.
  intros Hnd Hin. destruct (indexOf_Some _ _ Hin) as [i Hi].
  destruct (indexOf_split _ _ _ Hi) as (l1 & l2 & -> & Hlen & Hnot1).
  exists l1, l2. split; [reflexivity|].
  unfold toggleLike at 2. rewrite Hi. simpl. rewrite <- Hlen, splice1_middle.
  assert (Hnot : ~ In userName (l1 ++ l2)) by now apply NoDup_remove_2.
  unfold toggleLike. rewrite (proj2 (indexOf_None _ _) Hnot).
  unfold push. now rewrite <- app_assoc.
Qed.

Lemma toggleLike_twice userName likes :
  NoDup likes ->
  Permutation (fst (toggleLike userName (fst (toggleLike userName likes)))) likes
  /\ snd (toggleLike userName (fst (toggleLike userName likes)))
     = likeBtnFor userName likes.
Proof.
  intros Hnd. unfold likeBtnFor.
  destruct (in_dec string_dec userName likes) as [Hin|Hnot].
  - destruct (toggleLike_twice_present _ _ Hnd Hin) as (l1 & l2 & -> & ->).
    simpl. split.
    + apply Permutation_app_head. symmetry. apply Permutation_cons_append.
    + now rewrite (proj2 (includes_In _ _) Hin).
  - rewrite (toggleLike_twice_absent _ _ Hnot). simpl. split; [reflexivity|].
    destruct (includes userName likes) eqn:E; [|reflexivity].
    apply includes_In in E. contradiction.
Qed.

(** The handlers keep a [likes] array free of repetitions: it starts empty
    and the toggle adds a name only when it is not there. *)
Lemma toggleLike_NoDup userName likes :
  NoDup likes -> NoDup (fst (toggleLike userName likes)).
Proof.
  intros Hnd. unfold toggleLike.
  destruct (indexOf userName likes) as [i|] eqn:Hi; simpl.
  - destruct (indexOf_split _ _ _ Hi) as (l1 & l2 & -> & <- & _).
    rewrite splice1_middle. now apply NoDup_remove_1 in Hnd.
  - apply indexOf_None in Hi. unfold push.
    apply (Permutation_NoDup (Permutation_cons_append likes userName)).
    now constructor.
Qed.

Lemma likeComment_run s userName commentId c :
  find (commentPostedAt commentId) (comments s) = Some c ->
  run (likeComment userName commentId) s
  = (set_comments
       (updateFirst (commentHasId (c_id c))
          (fun d => set_c_likeCommentBtn (snd (toggleLike userName (c_likes c)))
                      (set_c_likes (fst (toggleLike userName (c_likes c))) d))
          (comments s)) s,
     Some (mkResponse 200
             (LikeResult (List.length (fst (toggleLike userName (c_likes c))))
                         (snd (toggleLike userName (c_likes c)))))).
Proof.
  intros Hf. unfold run, likeComment, bind, Comment_findOne. rewrite Hf. simpl.
  now destruct (toggleLike userName (c_likes c)).
Qed.

Lemma likeTweet_run s userName tweetId t :
  find (postedAt tweetId) (tweets s) = Some t ->
  run (likeTweet userName tweetId) s
  = (set_tweets
       (updateAll (isOriginalOrCopyOf (originalId t))
          (set_t_likes (fst (toggleLike userName (t_likes t))))
          (updateFirst (hasId (t_id t))
             (fun d => set_t_likeTweetBtn (snd (toggleLike userName (t_likes t)))
                         (set_t_likes (fst (toggleLike userName (t_likes t))) d))
             (tweets s))) s,
     Some (mkResponse 200
             (LikeResult (List.length (fst (toggleLike userName (t_likes t))))
                         (snd (toggleLike userName (t_likes t)))))).
Proof.
  intros Hf. unfold run, likeTweet, bind, Tweet_findOne. rewrite Hf. simpl.
  now destruct (toggleLike userName (t_likes t)).
Qed.

Lemma isOriginalOrCopyOf_self t : isOriginalOrCopyOf (originalId t) t = true.
Proof.
  unfold isOriginalOrCopyOf, originalId.
  destruct (t_retweetedFrom t) as [o|].
  - rewrite N.eqb_refl. apply orb_true_r.
  - now rewrite N.eqb_refl.
Qed.

(** The tweet a like request loaded, as it is found after the request. *)
Lemma likeTweet_found_after s userName tweetId t :
  NoDup (map t_id (tweets s)) ->
  find (postedAt tweetId) (tweets s) = Some t ->
  exists s1 t1,
    run (likeTweet userName tweetId) s
    = (s1, Some (mkResponse 200
                   (LikeResult (List.length (fst (toggleLike userName (t_likes t))))
                               (snd (toggleLike userName (t_likes t))))))
    /\ NoDup (map t_id (tweets s1))
    /\ find (postedAt tweetId) (tweets s1) = Some t1
    /\ t_likes t1 = fst (toggleLike userName (t_likes t)).
Proof.
  intros Hnd Hf. rewrite (likeTweet_run _ _ _ _ Hf).
  eexists _, _. split; [reflexivity|]. simpl. split; [|split].
  - rewrite map_updateAll, map_updateFirst by reflexivity. exact Hnd.
  - rewrite find_updateAll by reflexivity.
    unfold hasId.
    rewrite (find_updateFirst_key t_id (postedAt tweetId) _ _ t Hnd)
      by (reflexivity || assumption).
    simpl. reflexivity.
  - pose proof (isOriginalOrCopyOf_self t) as H.
    unfold isOriginalOrCopyOf, originalId in *. simpl.
    destruct (t_retweetedFrom t); rewrite H; reflexivity.
Qed.

Lemma likeComment_found_after s userName commentId c :
  NoDup (map c_id (comments s)) ->
  find (commentPostedAt commentId) (comments s) = Some c ->
  exists s1 c1,
    run (likeComment userName commentId) s
    = (s1, Some (mkResponse 200
                   (LikeResult (List.length (fst (toggleLike userName (c_likes c))))
                               (snd (toggleLike userName (c_likes c))))))
    /\ NoDup (map c_id (comments s1))
    /\ find (commentPostedAt commentId) (comments s1) = Some c1
    /\ c_likes c1 = fst (toggleLike userName (c_likes c)).
Proof.
  intros Hnd Hf. rewrite (likeComment_run _ _ _ _ Hf).
  eexists _, _. split; [reflexivity|]. simpl. split; [|split].
  - rewrite map_updateFirst by reflexivity. exact Hnd.
  - unfold commentHasId.
    apply (find_updateFirst_key c_id (commentPostedAt commentId) _ _ c Hnd);
      [reflexivity | assumption].
  - reflexivity.
Qed.

(** C5.  Two like requests in a row by the same user on the same tweet, or
    on the same comment, bring the likes back to the set they were and the
    second response reports the count there was before the first: the
    stored array is a rearrangement of the array before (the very array
    when the user had not liked), and the button colour is the one that
    showed before.  The [likes] array holds each name once, as the set it
    stands for, and the [_id]s of a collection are distinct. *)
Theorem like_twice_restores :
  forall (userName : string),
    (forall (s : Store) (tweetId : string) (t : Tweet),
        distinct (map t_id (tweets s)) = true ->
        find (postedAt tweetId) (tweets s) = Some t ->
        distinctNames (t_likes t) = true ->
        exists s1 r1 s2 t2,
          run (likeTweet userName tweetId) s = (s1, r1)
          /\ run (likeTweet userName tweetId) s1
             = (s2, Some (mkResponse 200
                            (LikeResult (List.length (t_likes t))
                                        (likeBtnFor userName (t_likes t)))))
          /\ find (postedAt tweetId) (tweets s2) = Some t2
          /\ Permutation (t_likes t2) (t_likes t)
          /\ (~ In userName (t_likes t) -> t_likes t2 = t_likes t))
    /\ (forall (s : Store) (commentId : string) (c : Comment),
        distinct (map c_id (comments s)) = true ->
        find (commentPostedAt commentId) (comments s) = Some c ->
        distinctNames (c_likes c) = true ->
        exists s1 r1 s2 c2,
          run (likeComment userName commentId) s = (s1, r1)
          /\ run (likeComment userName commentId) s1
             = (s2, Some (mkResponse 200
                            (LikeResult (List.length (c_likes c))
                                        (likeBtnFor userName (c_likes c)))))
          /\ find (commentPostedAt commentId) (comments s2) = Some c2
          /\ Permutation (c_likes c2) (c_likes c)
          /\ (~ In userName (c_likes c) -> c_likes c2 = c_likes c)).
Proof.
  intros userName. split.
  - intros s tweetId t Hids Hf Hlikes.
    apply distinct_NoDup in Hids. apply distinctNames_NoDup in Hlikes.
    destruct (likeTweet_found_after s userName tweetId t Hids Hf)
      as (s1 & t1 & Hrun1 & Hids1 & Hf1 & Hl1).
    destruct (likeTweet_found_after s1 userName tweetId t1 Hids1 Hf1)
      as (s2 & t2 & Hrun2 & _ & Hf2 & Hl2).
    rewrite Hl1 in Hrun2, Hl2.
    destruct (toggleLike_twice userName (t_likes t) Hlikes) as [Hperm Hbtn].
    rewrite Hbtn, (Permutation_length Hperm) in Hrun2.
    eexists s1, _, s2, t2. repeat split; try eassumption.
    + now rewrite Hl2.
    + intros Hnot. now rewrite Hl2, (toggleLike_twice_absent _ _ Hnot).
  - intros s commentId c Hids Hf Hlikes.
    apply distinct_NoDup in Hids. apply distinctNames_NoDup in Hlikes.
    destruct (likeComment_found_after s userName commentId c Hids Hf)
      as (s1 & c1 & Hrun1 & Hids1 & Hf1 & Hl1).
    destruct (likeComment_found_after s1 userName commentId c1 Hids1 Hf1)
      as (s2 & c2 & Hrun2 & _ & Hf2 & Hl2).
    rewrite Hl1 in Hrun2, Hl2.
    destruct (toggleLike_twice userName (c_likes c) Hlikes) as [Hperm Hbtn].
    rewrite Hbtn, (Permutation_length Hperm) in Hrun2.
    eexists s1, _, s2, c2. repeat split; try eassumption.
    + now rewrite Hl2.
    + intros Hnot. now rewrite Hl2, (toggleLike_twice_absent _ _ Hnot).
Qed.

(* ================================================================== *)
(** * Mutations and their propagation to the copies                    *)
(* ================================================================== *)

Lemma find_updateFirst_any {A : Type} (p q : A -> bool) f l d :
  (forall x, p (f x) = p x) ->
  find p l = Some d ->
  find p (updateFirst q f l) = Some d \/ find p (updateFirst q f l) = Some (f d).
Proof.
  intros Hp. induction l as [|e r IH]; simpl; [discriminate|].
  destruct (q e); simpl.
  - rewrite Hp. destruct (p e); [intros [= ->]; now right | now left].
  - destruct (p e); [now left | exact IH].
Qed.

Lemma In_updateAll_hit {A : Type} (q : A -> bool) g l d :
  (forall x, q (g x) = q x) ->
  In d (updateAll q g l) -> q d = true -> exists d0, In d0 l /\ d = g d0.
Proof.
  intros Hq Hin Hd. apply In_updateAll in Hin as (d0 & Hin & ->).
  destruct (q d0) eqn:E; [now exists d0 | congruence].
Qed.

Lemma hasId_found o l d : find (hasId o) l = Some d -> t_id d = o.
Proof.
  intros H. apply find_some in H as [_ H]. now apply N.eqb_eq in H.
Qed.

(** What a successful edit has done. *)
Lemma editTweet_ok s s' tweetId content userId b :
  run (editTweet tweetId content userId) s = (s', Some (mkResponse 200 b)) ->
  exists str tweet original,
    content = JString str
    /\ find (postedAt tweetId) (tweets s) = Some tweet
    /\ find (hasId (originalId tweet)) (tweets s) = Some original
    /\ s' = set_tweets
              (updateAll (isCopyOf (originalId tweet))
                 (fun d => set_t_isEdited true (set_t_content str d))
                 (updateFirst (hasId (originalId tweet))
                    (fun d => set_t_isEdited true (set_t_content str d))
                    (tweets s))) s.
Proof.
  unfold run, editTweet, bind, checkContent, Tweet_findById, Tweet_findOne.
  destruct content as [| |[|]|z|str|]; simpl; try discriminate.
  - destruct (z =? 0)%Z; simpl; discriminate.
  - destruct (str =? EmptyString); simpl; [discriminate|].
    destruct (trim str =? EmptyString); simpl; [discriminate|].
    destruct (find (postedAt tweetId) (tweets s)) as [tweet|] eqn:Hf; simpl;
      [|discriminate].
    destruct (find (hasId (originalId tweet)) (tweets s)) as [original|] eqn:Ho;
      simpl; [|discriminate].
    destruct (t_postedBy original) as [author|]; simpl; [|discriminate].
    destruct (author =? userId)%N; simpl; [|discriminate].
    intros [= <- _]. exists str, tweet, original.
    rewrite (hasId_found _ _ _ Ho). repeat split; assumption.
Qed.

(** What a successful comment has done to the tweets. *)
Lemma composeComment_ok s s' tweetId content username now b :
  run (composeComment tweetId content username now) s
  = (s', Some (mkResponse 200 b)) ->
  exists tweet original,
    find (postedAt tweetId) (tweets s) = Some tweet
    /\ find (hasId (originalId tweet)) (tweets s) = Some original
    /\ tweets s'
       = updateAll (isOriginalOrCopyOf (originalId tweet))
           (set_t_comments (nextId s :: t_comments original))
           (updateFirst (hasId (originalId tweet))
              (set_t_comments (nextId s :: t_comments original))
              (tweets s)).
Proof.
  unfold run, composeComment, bind, Comment_create, Tweet_findById,
    Tweet_findOne, User_findOne. simpl.
  destruct (find (postedAt tweetId) (tweets s)) as [tweet|] eqn:Hf; simpl;
    [|discriminate].
  destruct (find (hasId (originalId tweet)) (tweets s)) as [original|] eqn:Ho;
    simpl; [|discriminate].
  destruct (find (named username) (users s)) as [user|]; simpl; [|discriminate].
  intros [= <- _]. exists tweet, original. simpl.
  rewrite (hasId_found _ _ _ Ho). repeat split; assumption.
Qed.

Lemma isOriginalOrCopyOf_id o d : t_id d = o -> isOriginalOrCopyOf o d = true.
Proof.
  intros <-. unfold isOriginalOrCopyOf. now rewrite N.eqb_refl.
Qed.

Lemma isCopyOf_from o d : t_retweetedFrom d = Some o -> isCopyOf o d = true.
Proof.
  intros H. unfold isCopyOf. rewrite H. apply N.eqb_refl.
Qed.

Lemma isOriginalOrCopyOf_from o d :
  t_retweetedFrom d = Some o -> isOriginalOrCopyOf o d = true.
Proof.
  intros H. unfold isOriginalOrCopyOf. rewrite H, N.eqb_refl. apply orb_true_r.
Qed.

(** The comment handler on a stored tweet with a stored original and a
    stored user. *)
Lemma composeComment_run_ok s tweetId content username now tweet original user :
  find (postedAt tweetId) (tweets s) = Some tweet ->
  find (hasId (originalId tweet)) (tweets s) = Some original ->
  find (named username) (users s) = Some user ->
  composeComment tweetId content username now s
  = let newComment := mkComment (nextId s) content None now [] "black" false in
    let newComments := nextId s :: t_comments original in
    let stored :=
      updateFirst (commentHasId (nextId s)) (set_c_postedBy (Some (u_id user)))
        (comments s ++ [newComment]) in
    (mkStore
       (updateAll (isOriginalOrCopyOf (originalId tweet))
          (set_t_comments newComments)
          (updateFirst (hasId (originalId tweet))
             (set_t_comments newComments) (tweets s)))
       stored (users s) (N.succ (nextId s)),
     Stop (Some (mkResponse 200
                   (CommentResult (find (commentHasId (nextId s)) stored)
                                  (S (List.length (t_comments original))))))).
Proof.
  intros Hf Ho Hu.
  unfold composeComment, bind, Comment_create, Tweet_findById, Tweet_findOne,
    User_findOne. simpl.
  rewrite Hf. simpl. rewrite Ho. simpl. rewrite Hu. simpl.
  now rewrite (hasId_found _ _ _ Ho).
Qed.

(** Once a mutation has been answered with status 200, the original [O]
    the target resolves to and every stored copy [C] of it agree on the
    patched fields. *)
Lemma propagated_fields_agree :
  forall (m : Mutation) (tweetId : string) (s s' : Store) (b : Body)
         (target O C : Tweet),
    find (postedAt tweetId) (tweets s) = Some target ->
    run (mutate m tweetId) s = (s', Some (mkResponse 200 b)) ->
    find (hasId (originalId target)) (tweets s') = Some O ->
    In C (tweets s') ->
    t_retweetedFrom C = Some (originalId target) ->
    samePatchedFields m O C
    /\ match m with
       | ContentEdit content _ =>
           content = JString (t_content O) /\ t_isEdited O = true
       | LikeToggle userName =>
           t_likes O = fst (toggleLike userName (t_likes target))
       | CommentAttach _ _ _ => hd_error (t_comments O) = Some (nextId s)
       end.
Proof.
  intros m tweetId s s' b target O C Hf Hrun HO HC Hfrom.
  destruct m as [content userId | userName | content username now]; simpl in *.
  - apply editTweet_ok in Hrun as (str & tweet & original & -> & Hf' & Ho & ->).
    rewrite Hf in Hf'. injection Hf' as <-. simpl in *.
    apply In_updateAll_hit in HC as (c0 & _ & ->);
      [|reflexivity | now apply isCopyOf_from].
    rewrite find_updateAll in HO by reflexivity.
    rewrite (find_updateFirst_same _ _ _ _ Ho) in HO
      by (simpl; apply (find_some _ _ Ho)).
    simpl in HO. injection HO as <-.
    destruct (isCopyOf (originalId target) _); simpl; auto.
  - rewrite (likeTweet_run _ _ _ _ Hf) in Hrun. injection Hrun as <- _.
    simpl in *.
    apply In_updateAll_hit in HC as (c0 & _ & ->);
      [|reflexivity | now apply isOriginalOrCopyOf_from].
    apply find_some in HO as [HO Hid].
    apply In_updateAll_hit in HO as (o0 & _ & ->);
      [|reflexivity | apply isOriginalOrCopyOf_id; now apply N.eqb_eq in Hid].
    simpl. auto.
  - apply composeComment_ok in Hrun as (tweet & original & Hf' & Ho & Htw).
    rewrite Hf in Hf'. injection Hf' as <-. rewrite Htw in HO, HC.
    apply In_updateAll_hit in HC as (c0 & _ & ->);
      [|reflexivity | now apply isOriginalOrCopyOf_from].
    apply find_some in HO as [HO Hid].
    apply In_updateAll_hit in HO as (o0 & _ & ->);
      [|reflexivity | apply isOriginalOrCopyOf_id; now apply N.eqb_eq in Hid].
    simpl. auto.
Qed.

(** C4.  A content edit, a like toggle or a comment attach aimed at a
    stored tweet whose original [original] is stored, and that passes the
    checks of its handler, is answered with status 200; the tweets stored
    after it are the tweets stored before, with the same [_id]s and the
    same references to originals, so every copy is still there; the
    original [O] then carries the patch (the new content and the edited
    mark, or the toggled likes, or the comments with the new comment in
    front), and every stored copy [C] of it agrees with [O] on the patched
    fields: content and [isEdited], or [likes], or [comments] as the same
    sequence, newest first.  This holds for any number of copies, none
    included. *)
Theorem propagation_converges :
  forall (m : Mutation) (tweetId : string) (s : Store) (target original : Tweet),
    find (postedAt tweetId) (tweets s) = Some target ->
    find (hasId (originalId target)) (tweets s) = Some original ->
    accepted m s original ->
    exists s' b O,
      run (mutate m tweetId) s = (s', Some (mkResponse 200 b))
      /\ map t_id (tweets s') = map t_id (tweets s)
      /\ map t_retweetedFrom (tweets s') = map t_retweetedFrom (tweets s)
      /\ find (hasId (originalId target)) (tweets s') = Some O
      /\ match m with
         | ContentEdit content _ =>
             content = JString (t_content O) /\ t_isEdited O = true
         | LikeToggle userName =>
             t_likes O = fst (toggleLike userName (t_likes target))
         | CommentAttach _ _ _ =>
             t_comments O = nextId s :: t_comments original
         end
      /\ forall C, In C (tweets s') ->
                   t_retweetedFrom C = Some (originalId target) ->
                   samePatchedFields m O C.
Proof.
  intros m tweetId s target original Hf Ho Hacc.
  pose proof (hasId_found _ _ _ Ho) as Hid.
  assert (Hsel : isOriginalOrCopyOf (originalId target) original = true)
    by now apply isOriginalOrCopyOf_id.
  assert (Hrun : exists s' b O,
             run (mutate m tweetId) s = (s', Some (mkResponse 200 b))
             /\ map t_id (tweets s') = map t_id (tweets s)
             /\ map t_retweetedFrom (tweets s') = map t_retweetedFrom (tweets s)
             /\ find (hasId (originalId target)) (tweets s') = Some O
             /\ match m with
                | ContentEdit content _ =>
                    content = JString (t_content O) /\ t_isEdited O = true
                | LikeToggle userName =>
                    t_likes O = fst (toggleLike userName (t_likes target))
                | CommentAttach _ _ _ =>
                    t_comments O = nextId s :: t_comments original
                end).
  { destruct m as [content userId | userName | content username now];
      simpl in Hacc |- *.
    - destruct Hacc as [(str & -> & Hstr) Hby].
      eexists _, _, _. split; [|split; [|split; [|split]]].
      + unfold run, editTweet, bind, Tweet_findById, Tweet_findOne.
        rewrite (checkContent_passes _ _ Hstr), Hf. simpl. rewrite Ho. simpl.
        rewrite Hby, N.eqb_refl. simpl. reflexivity.
      + simpl. now rewrite map_updateAll, map_updateFirst.
      + simpl. now rewrite map_updateAll, map_updateFirst.
      + simpl. rewrite find_updateAll by reflexivity. rewrite Hid.
        rewrite (find_updateFirst_same _ _ _ _ Ho)
          by (unfold hasId; simpl; now apply N.eqb_eq).
        reflexivity.
      + destruct (isCopyOf (originalId target) _); split; reflexivity.
    - rewrite (likeTweet_run _ _ _ _ Hf).
      destruct (find_updateFirst_any (hasId (originalId target))
                  (hasId (t_id target))
                  (fun d => set_t_likeTweetBtn
                              (snd (toggleLike userName (t_likes target)))
                              (set_t_likes
                                 (fst (toggleLike userName (t_likes target))) d))
                  (tweets s) original (fun x => eq_refl) Ho) as [E|E];
        (eexists _, _, _; split; [reflexivity|]; simpl;
         split; [now rewrite map_updateAll, map_updateFirst|];
         split; [now rewrite map_updateAll, map_updateFirst|];
         rewrite find_updateAll by reflexivity; rewrite E; simpl;
         split; [reflexivity|]).
      + now rewrite Hsel.
      + rewrite isOriginalOrCopyOf_id by (simpl; exact Hid). reflexivity.
    - destruct Hacc as (user & Hu).
      unfold run. rewrite composeComment_run_ok with (1 := Hf) (2 := Ho) (3 := Hu).
      eexists _, _, _. split; [reflexivity|]. simpl.
      split; [now rewrite map_updateAll, map_updateFirst|].
      split; [now rewrite map_updateAll, map_updateFirst|].
      rewrite find_updateAll by reflexivity.
      rewrite (find_updateFirst_same _ _ _ _ Ho)
        by (unfold hasId; simpl; now apply N.eqb_eq).
      simpl. split; [reflexivity|].
      rewrite isOriginalOrCopyOf_id by (simpl; exact Hid). reflexivity. }
  destruct Hrun as (s' & b & O & Hr & Hids & Hfrom & HO & Hpatch).
  exists s', b, O. repeat (split; [assumption|]).
  intros C HC HCfrom.
  now apply (propagated_fields_agree m tweetId s s' b target O C).
Qed.

(** C3, as the handlers have it.  When the target of a mutation is a copy
    [C] of a stored original [O] and the request is answered with status
    200: a content edit sets the content of [O] and marks it edited; a
    comment attach puts the new comment in front of the comments of [O];
    a like toggle flips the user in the [likes] of the copy [C] it loaded
    and writes the outcome over the [likes] of [O], which is the flip of
    [O]'s own likes whenever the copy's likes were [O]'s. *)
Theorem mutation_on_copy_reaches_original :
  forall (m : Mutation) (tweetId : string) (s s' : Store) (b : Body)
         (C O : Tweet) (o : ObjectId),
    find (postedAt tweetId) (tweets s) = Some C ->
    t_retweetedFrom C = Some o ->
    find (hasId o) (tweets s) = Some O ->
    run (mutate m tweetId) s = (s', Some (mkResponse 200 b)) ->
    exists O',
      find (hasId o) (tweets s') = Some O'
      /\ match m with
         | ContentEdit content _ =>
             content = JString (t_content O') /\ t_isEdited O' = true
         | LikeToggle userName =>
             t_likes O' = fst (toggleLike userName (t_likes C))
             /\ (t_likes C = t_likes O ->
                 t_likes O' = fst (toggleLike userName (t_likes O)))
         | CommentAttach _ _ _ => t_comments O' = nextId s :: t_comments O
         end.
Proof.
  intros m tweetId s s' b C O o Hf Hfrom HO Hrun.
  assert (Ho : originalId C = o) by (unfold originalId; now rewrite Hfrom).
  pose proof (hasId_found _ _ _ HO) as Hid.
  destruct m as [content userId | userName | content username now]; simpl in *.
  - apply editTweet_ok in Hrun as (str & tweet & original & -> & Hf' & Ho' & ->).
    rewrite Hf in Hf'. injection Hf' as <-. rewrite Ho in *.
    rewrite HO in Ho'. injection Ho' as <-. simpl.
    rewrite find_updateAll by reflexivity.
    rewrite (find_updateFirst_same _ _ _ _ HO) by (simpl; apply (find_some _ _ HO)).
    simpl. eexists. split; [reflexivity|].
    destruct (isCopyOf o _); simpl; auto.
  - rewrite (likeTweet_run _ _ _ _ Hf) in Hrun. injection Hrun as <- _.
    rewrite Ho. simpl. rewrite find_updateAll by reflexivity.
    destruct (find_updateFirst_any (hasId o) (hasId (t_id C))
                (fun d => set_t_likeTweetBtn (snd (toggleLike userName (t_likes C)))
                            (set_t_likes (fst (toggleLike userName (t_likes C))) d))
                (tweets s) O (fun x => eq_refl) HO) as [E|E];
      rewrite E; simpl;
      rewrite isOriginalOrCopyOf_id by (simpl; exact Hid);
      (eexists; split; [reflexivity|]); simpl;
      (split; [reflexivity | now intros <-]).
  - apply composeComment_ok in Hrun as (tweet & original & Hf' & Ho' & ->).
    rewrite Hf in Hf'. injection Hf' as <-. rewrite Ho in *.
    rewrite HO in Ho'. injection Ho' as <-.
    rewrite find_updateAll by reflexivity.
    rewrite (find_updateFirst_same _ _ _ _ HO) by (simpl; apply (find_some _ _ HO)).
    simpl. rewrite isOriginalOrCopyOf_id by (simpl; exact Hid).
    eexists. split; reflexivity.
Qed.

(** On a store reached by the handlers alone: carol likes alice's tweet
    through bob's copy.  The copy's own record is saved with the new button
    colour, which the original never gets; the likes reach the original
    through the bulk update. *)
Example like_on_copy_saves_copy_record :
  let s' := fst (run (likeTweet "carol" "t1") storeBobRetweeted) in
  map (fun d => (t_id d, t_likes d, t_likeTweetBtn d)) (tweets s')
  = [(10%N, ["carol"], "black"); (11%N, ["carol"], "deeppink")].
Proof. reflexivity. Qed.

(** C3, as stated, fails for likes.  carol's like is on alice's original
    and not on bob's copy.  carol toggles her like through the copy: the
    handler reads the copy's empty [likes], adds carol and writes the array
    over the original's, where a flip of the original's own likes would
    have taken carol out. *)
Lemma like_on_stale_copy_reads_copy :
  ~ likeOnCopyFlipsOriginal storeStaleCopy "carol" "t1".
Proof.
  unfold likeOnCopyFlipsOriginal. intros H.
  destruct (H _ 10%N _ eq_refl eq_refl eq_refl) as (O' & Hfind & Hlikes).
  vm_compute in Hfind. injection Hfind as <-.
  vm_compute in Hlikes. discriminate Hlikes.
Qed.

(* ================================================================== *)
(** * The statements at work on the example stores                     *)
(* ================================================================== *)

Lemma edit_blank_content_rejected_witness :
  run (editTweet "t0" (JString "   ") 1%N) store0
  = (store0, Some (mkResponse 400 (Message "error" "Content cannot be empty")))
  /\ run (editComment "c0" (JString "   ")) store0
     = (store0, Some (mkResponse 400 (Message "error" "Content cannot be empty"))).
Proof.
  apply (edit_blank_content_rejected store0 "t0" "c0" (JString "   ") 1%N).
  reflexivity.
Defined.

(** The scenarios of the specification on the store in which bob holds a
    copy of alice's tweet: alice edits her tweet, carol likes it through
    the copy, and bob comments on it through the copy. *)
Lemma propagation_converges_witness :
  (exists s' b O,
      run (editTweet "t0" (JString "hello world") 1%N) storeBobRetweeted
      = (s', Some (mkResponse 200 b))
      /\ find (hasId 10%N) (tweets s') = Some O
      /\ (JString "hello world" = JString (t_content O) /\ t_isEdited O = true)
      /\ forall C, In C (tweets s') -> t_retweetedFrom C = Some 10%N ->
                   t_content C = t_content O /\ t_isEdited C = t_isEdited O)
  /\ (exists s' b O,
        run (likeTweet "carol" "t1") storeBobRetweeted
        = (s', Some (mkResponse 200 b))
        /\ find (hasId 10%N) (tweets s') = Some O
        /\ t_likes O = ["carol"]
        /\ forall C, In C (tweets s') -> t_retweetedFrom C = Some 10%N ->
                     t_likes C = t_likes O)
  /\ (exists s' b O,
        run (composeComment "t1" "nice" "bob" "c0") storeBobRetweeted
        = (s', Some (mkResponse 200 b))
        /\ find (hasId 10%N) (tweets s') = Some O
        /\ t_comments O = [12%N]
        /\ forall C, In C (tweets s') -> t_retweetedFrom C = Some 10%N ->
                     t_comments C = t_comments O).
Proof.
  split; [|split].
  - destruct (propagation_converges (ContentEdit (JString "hello world") 1%N)
                "t0" storeBobRetweeted
                (nth 0 (tweets storeBobRetweeted) aliceTweet)
                (nth 0 (tweets storeBobRetweeted) aliceTweet))
      as (s' & b & O & Hr & _ & _ & HO & Hp & HC).
    + reflexivity.
    + reflexivity.
    + split; [exists "hello world"; split; reflexivity | reflexivity].
    + exists s', b, O. split; [exact Hr|]. split; [exact HO|].
      split; [exact Hp | exact HC].
  - destruct (propagation_converges (LikeToggle "carol") "t1" storeBobRetweeted
                (nth 1 (tweets storeBobRetweeted) aliceTweet)
                (nth 0 (tweets storeBobRetweeted) aliceTweet))
      as (s' & b & O & Hr & _ & _ & HO & Hp & HC).
    + reflexivity.
    + reflexivity.
    + exact I.
    + exists s', b, O. split; [exact Hr|]. split; [exact HO|].
      split; [exact Hp | exact HC].
  - destruct (propagation_converges (CommentAttach "nice" "bob" "c0") "t1"
                storeBobRetweeted
                (nth 1 (tweets storeBobRetweeted) aliceTweet)
                (nth 0 (tweets storeBobRetweeted) aliceTweet))
      as (s' & b & O & Hr & _ & _ & HO & Hp & HC).
    + reflexivity.
    + reflexivity.
    + exists (mkUser 2%N "bob" [11%N]). reflexivity.
    + exists s', b, O. split; [exact Hr|]. split; [exact HO|].
      split; [exact Hp | exact HC].
Defined.

(** carol likes alice's tweet through bob's copy. *)
Lemma mutation_on_copy_reaches_original_witness :
  exists O',
    find (hasId 10%N)
         (tweets (fst (run (likeTweet "carol" "t1") storeBobRetweeted)))
    = Some O'
    /\ t_likes O' = ["carol"].
Proof.
  destruct (mutation_on_copy_reaches_original (LikeToggle "carol") "t1"
              storeBobRetweeted
              (fst (run (likeTweet "carol" "t1") storeBobRetweeted))
              (LikeResult 1 "deeppink")
              (nth 1 (tweets storeBobRetweeted) aliceTweet)
              (nth 0 (tweets storeBobRetweeted) aliceTweet)
              10%N eq_refl eq_refl eq_refl eq_refl)
    as (O' & Hfind & Hlikes & _).
  exists O'. split; [exact Hfind | exact Hlikes].
Defined.

Lemma like_twice_restores_witness :
  (exists s1 r1 s2 t2,
      run (likeTweet "carol" "t1") storeBobRetweeted = (s1, r1)
      /\ run (likeTweet "carol" "t1") s1
         = (s2, Some (mkResponse 200 (LikeResult 0 "black")))
      /\ find (postedAt "t1") (tweets s2) = Some t2
      /\ Permutation (t_likes t2) []
      /\ (~ In "carol" [] -> t_likes t2 = []))
  /\ (exists s1 r1 s2 c2,
      run (likeComment "carol" "May 1st 2024, 1:05:09 pm") storeBobCommented
      = (s1, r1)
      /\ run (likeComment "carol" "May 1st 2024, 1:05:09 pm") s1
         = (s2, Some (mkResponse 200 (LikeResult 0 "black")))
      /\ find (commentPostedAt "May 1st 2024, 1:05:09 pm") (comments s2) = Some c2
      /\ Permutation (c_likes c2) []
      /\ (~ In "carol" [] -> c_likes c2 = [])).
Proof.
  destruct (like_twice_restores "carol") as [Htweet Hcomment]. split.
  - apply (Htweet storeBobRetweeted "t1"
             (nth 1 (tweets storeBobRetweeted) aliceTweet));
      reflexivity.
  - apply (Hcomment storeBobCommented "May 1st 2024, 1:05:09 pm"
             (nth 0 (comments storeBobCommented)
                  (mkComment 0%N "none" None "never" [] "black" false)));
      reflexivity.
Defined.

(** bob asks for the feed and for the topic ["rocq"] from the second entry
    on, in a store that holds three originals out of the order of their
    creation and a copy. *)
Lemma feed_page_newest_originals_witness :
  (exists docs,
      run (feed (Some "1") "bob") storeOfFour
      = (storeOfFour,
         Some (mkResponse 200 (FeedResult (map (withButtons "bob") docs) "bob")))
      /\ isPageOf 20 [set_t_retweets ["bob"] aliceTweet; bobTweet; aliceSecond]
                  1 docs)
  /\ (exists s' docs,
        run (topic (fun q => parseInt (Some q)) (Some "bob") "rocq" (Some "1"))
            storeOfFour
        = (s', Some (mkResponse 200
                       (TopicResult (map (withButtons "bob") docs)
                                    (Some (mkUser 2%N "bob" [13%N; 11%N])))))
        /\ isPageOf 20 [set_t_retweets ["bob"] aliceTweet; bobTweet] 1 docs).
Proof.
  destruct (feed_page_newest_originals (fun q => parseInt (Some q)) 1%N
              "bob" "rocq" storeOfFour)
    as ((docs & Hfeed & Hpage & _) & _ & _ & (s' & docs' & Htopic & Hpage' & _)).
  - reflexivity.
  - reflexivity.
  - split.
    + exists docs. split; [exact Hfeed | exact Hpage].
    + exists s', docs'. split; [exact Htopic | exact Hpage'].
Defined.

(** The pages of that witness, computed: the newest original is skipped. *)
Example feed_from_the_second_entry :
  run (feed (Some "1") "bob") storeOfFour
  = (storeOfFour,
     Some (mkResponse 200
             (FeedResult
                (map (withButtons "bob")
                     [aliceSecond; set_t_retweets ["bob"] aliceTweet])
                "bob")))
  /\ snd (run (topic (fun q => parseInt (Some q)) (Some "bob") "rocq" (Some "1"))
              storeOfFour)
     = Some (mkResponse 200
               (TopicResult
                  (map (withButtons "bob") [set_t_retweets ["bob"] aliceTweet])
                  (Some (mkUser 2%N "bob" [13%N; 11%N])))).
Proof. split; reflexivity. Qed.

(* ================================================================== *)
(** * The replication invariant under the collection operations        *)
(* ================================================================== *)

Lemma NoDup_map_eq {A B : Type} (f : A -> B) l a b :
  NoDup (map f l) -> In a l -> In b l -> f a = f b -> a = b.
Proof.
  induction l as [|e r IH]; simpl; [tauto|].
  intros Hnd Ha Hb E. inversion Hnd as [|? ? Hnot Hnd']; subst.
  destruct Ha as [<-|Ha], Hb as [<-|Hb].
  - reflexivity.
  - exfalso. apply Hnot. rewrite E. now apply in_map.
  - exfalso. apply Hnot. rewrite <- E. now apply in_map.
  - now apply IH.
Qed.

Lemma updateFirst_as_map {A : Type} (k : A -> N) o f (l : list A) :
  NoDup (map k l) ->
  updateFirst (fun x => (k x =? o)%N) f l
  = map (fun d => if (k d =? o)%N then f d else d) l.
Proof.
  induction l as [|e r IH]; simpl; [reflexivity|].
  intros Hnd. inversion Hnd as [|? ? Hnot Hnd']; subst.
  destruct (N.eqb_spec (k e) o) as [<-|Hne].
  - f_equal. rewrite <- (map_id r) at 1. apply map_ext_in.
    intros d Hd. destruct (N.eqb_spec (k d) (k e)) as [E|]; [|reflexivity].
    exfalso. apply Hnot. rewrite <- E. now apply in_map.
  - f_equal. now apply IH.
Qed.

Lemma NoDup_map_removeFirst {A B : Type} (k : A -> B) p (l : list A) :
  NoDup (map k l) -> NoDup (map k (removeFirst p l)).
Proof.
  induction l as [|e r IH]; simpl; [trivial|].
  intros Hnd. inversion Hnd as [|? ? Hnot Hnd']; subst.
  destruct (p e); [assumption|]. simpl. constructor; [|now apply IH].
  intros Hin. apply Hnot. now apply (incl_map_removeFirst k p r).
Qed.

Lemma core_id d d' : core d = core d' -> t_id d = t_id d'.
Proof. unfold core. congruence. Qed.

Lemma core_from d d' : core d = core d' -> t_retweetedFrom d = t_retweetedFrom d'.
Proof. unfold core. congruence. Qed.

Lemma core_mirrored d d' : core d = core d' -> mirrored d = mirrored d'.
Proof. unfold core. congruence. Qed.

(** The invariant goes over to tweets that each have the core of a tweet
    there was, under a counter that has not gone back. *)
Lemma Repl_cores l next l' next' :
  (forall d', In d' l' -> exists d, In d l /\ core d = core d') ->
  NoDup (map t_id l') ->
  (next <= next')%N ->
  Repl l next -> Repl l' next'.
Proof.
  intros Hsim Hnd Hle (_ & Hids & Hrefs & Hchain & Hmirror).
  split; [assumption|]. split; [|split; [|split]].
  - intros d' Hd'. destruct (Hsim d' Hd') as (d & Hd & E).
    rewrite <- (core_id _ _ E). specialize (Hids d Hd). lia.
  - intros d' o Hd' Hfrom. destruct (Hsim d' Hd') as (d & Hd & E).
    rewrite <- (core_from _ _ E) in Hfrom. specialize (Hrefs d o Hd Hfrom). lia.
  - intros C' O' HC' HO' Hfrom.
    destruct (Hsim C' HC') as (C & HC & EC), (Hsim O' HO') as (O & HO & EO).
    rewrite <- (core_from _ _ EO). apply (Hchain C O HC HO).
    now rewrite (core_from _ _ EC), (core_id _ _ EO).
  - intros C' O' HC' HO' Hfrom.
    destruct (Hsim C' HC') as (C & HC & EC), (Hsim O' HO') as (O & HO & EO).
    rewrite <- (core_mirrored _ _ EC), <- (core_mirrored _ _ EO).
    apply (Hmirror C O HC HO).
    now rewrite (core_from _ _ EC), (core_id _ _ EO).
Qed.

Lemma Repl_ext l next l' next' :
  map core l' = map core l -> (next <= next')%N ->
  Repl l next -> Repl l' next'.
Proof.
  intros Hmap Hle H.
  assert (Hids : map t_id l' = map t_id l).
  { assert (E : forall x, map t_id x = map (fun c => fst (fst c)) (map core x))
      by (intros x; rewrite map_map; reflexivity).
    now rewrite (E l'), (E l), Hmap. }
  apply (Repl_cores l next); try assumption.
  - intros d' Hd'. apply (in_map core) in Hd'. rewrite Hmap in Hd'.
    apply in_map_iff in Hd' as (d & E & Hd). now exists d.
  - rewrite Hids. apply H.
Qed.

Lemma Repl_removeFirst p l next :
  Repl l next -> Repl (removeFirst p l) next.
Proof.
  intros H. apply (Repl_cores l next); try assumption.
  - intros d Hd. exists d. split; [now apply In_removeFirst in Hd | reflexivity].
  - apply NoDup_map_removeFirst, H.
  - lia.
Qed.

(** The tweet a reference resolves to is no copy and carries the mirrored
    fields of the tweet the reference was taken from. *)
Lemma Repl_original l next t d :
  Repl l next -> In t l -> In d l -> t_id d = originalId t ->
  t_retweetedFrom d = None /\ mirrored t = mirrored d.
Proof.
  intros (Hnd & _ & _ & Hchain & Hmirror) Ht Hd E. unfold originalId in E.
  destruct (t_retweetedFrom t) as [o|] eqn:Hfrom.
  - subst o. split; [now apply (Hchain t d) | now apply (Hmirror t d)].
  - assert (d = t) by (now apply (NoDup_map_eq t_id l)). subst d.
    split; [assumption | reflexivity].
Qed.

(** A patch [P] of the mirrored fields laid on the tweets [sel] selects
    keeps the invariant when [sel] takes a copy and the tweet it points at
    together. *)
Lemma Repl_patch (sel : Tweet -> bool) P G l next :
  (forall d, In d l -> t_id (G d) = t_id d) ->
  (forall d, In d l -> t_retweetedFrom (G d) = t_retweetedFrom d) ->
  (forall d, In d l ->
     mirrored (G d) = if sel d then P (mirrored d) else mirrored d) ->
  (forall C O, In C l -> In O l -> t_retweetedFrom C = Some (t_id O) ->
     sel C = sel O) ->
  Repl l next -> Repl (map G l) next.
Proof.
  intros Gid Gfrom Gmir Hsel (Hnd & Hids & Hrefs & Hchain & Hmirror).
  split; [|split; [|split; [|split]]].
  - rewrite map_map. rewrite (map_ext_in _ t_id l Gid). exact Hnd.
  - intros d' Hd'. apply in_map_iff in Hd' as (d & <- & Hd).
    rewrite Gid by assumption. now apply Hids.
  - intros d' o Hd' Hfrom. apply in_map_iff in Hd' as (d & <- & Hd).
    rewrite Gfrom in Hfrom by assumption. now apply (Hrefs d).
  - intros C' O' HC' HO' Hfrom.
    apply in_map_iff in HC' as (C & <- & HC).
    apply in_map_iff in HO' as (O & <- & HO).
    rewrite Gfrom, Gid in * by assumption. now apply (Hchain C O).
  - intros C' O' HC' HO' Hfrom.
    apply in_map_iff in HC' as (C & <- & HC).
    apply in_map_iff in HO' as (O & <- & HO).
    rewrite Gfrom, Gid in Hfrom by assumption.
    rewrite !Gmir by assumption.
    rewrite (Hsel C O HC HO Hfrom), (Hmirror C O HC HO Hfrom). reflexivity.
Qed.

(** The tweets in the group of the original [o] of a stored tweet: a copy
    is in the group exactly when the tweet it points at is. *)
Lemma Repl_group_sel l next t :
  Repl l next -> In t l ->
  forall C O, In C l -> In O l -> t_retweetedFrom C = Some (t_id O) ->
    isOriginalOrCopyOf (originalId t) C = isOriginalOrCopyOf (originalId t) O.
Proof.
  intros H Ht C O HC HO Hfrom.
  pose proof H as (_ & _ & _ & Hchain & _).
  unfold isOriginalOrCopyOf. rewrite Hfrom, (Hchain C O HC HO Hfrom).
  destruct (N.eqb_spec (t_id C) (originalId t)) as [E|_].
  - destruct (Repl_original l next t C H Ht HC E) as [Hnone _]. congruence.
  - simpl. now rewrite orb_false_r.
Qed.

(** A tweet with a fresh [_id] that is an original, or that points at the
    original of a stored tweet [t] and carries the mirrored fields of [t],
    may join. *)
Lemma Repl_append l next n :
  t_id n = next ->
  t_retweetedFrom n = None
  \/ (exists t, In t l /\ t_retweetedFrom n = Some (originalId t)
                /\ mirrored n = mirrored t) ->
  Repl l next -> Repl (l ++ [n]) (N.succ next).
Proof.
  intros Hid Hn H. pose proof H as (Hnd & Hids & Hrefs & Hchain & Hmirror).
  assert (Hfresh : forall o, (o < next)%N -> o <> t_id n) by (intros o Ho; lia).
  assert (Horig : forall t, In t l -> (originalId t < next)%N).
  { intros t Ht. unfold originalId.
    destruct (t_retweetedFrom t) as [o|] eqn:E; [now apply (Hrefs t) | now apply Hids]. }
  assert (Hnew : forall o, t_retweetedFrom n = Some o -> (o < next)%N).
  { intros o Ho. destruct Hn as [Hn|(t & Ht & Hn & _)]; [congruence|].
    rewrite Hn in Ho. injection Ho as <-. now apply Horig. }
  split; [|split; [|split; [|split]]].
  - rewrite map_app. simpl.
    apply (Permutation_NoDup (Permutation_cons_append (map t_id l) (t_id n))).
    constructor; [|assumption].
    intros Hin. apply in_map_iff in Hin as (d & E & Hd).
    specialize (Hids d Hd). lia.
  - intros d Hd. apply in_app_or in Hd as [Hd|[<-|[]]];
      [specialize (Hids d Hd)|]; lia.
  - intros d o Hd Hfrom. apply in_app_or in Hd as [Hd|[<-|[]]].
    + specialize (Hrefs d o Hd Hfrom). lia.
    + specialize (Hnew o Hfrom). lia.
  - intros C O HC HO Hfrom.
    apply in_app_or in HC as [HC|[<-|[]]]; apply in_app_or in HO as [HO|[<-|[]]].
    + now apply (Hchain C O).
    + exfalso. apply (Hfresh (t_id n)); [now apply (Hrefs C)|reflexivity].
    + destruct Hn as [Hn|(t & Ht & Hn & _)]; [congruence|].
      rewrite Hn in Hfrom. injection Hfrom as E.
      now apply (Repl_original l next t O).
    + exfalso. apply (Hfresh (t_id n)); [now apply Hnew|reflexivity].
  - intros C O HC HO Hfrom.
    apply in_app_or in HC as [HC|[<-|[]]]; apply in_app_or in HO as [HO|[<-|[]]].
    + now apply (Hmirror C O).
    + exfalso. apply (Hfresh (t_id n)); [now apply (Hrefs C)|reflexivity].
    + destruct Hn as [Hn|(t & Ht & Hn & Hm)]; [congruence|].
      rewrite Hn in Hfrom. injection Hfrom as E. rewrite Hm.
      now apply (Repl_original l next t O).
    + reflexivity.
Qed.

(* ================================================================== *)
(** * The store each handler leaves behind                             *)
(* ================================================================== *)

Lemma fst_run (h : Handler unit) s : fst (run h s) = fst (h s).
Proof. unfold run. now destruct (h s) as [s' [a|r]]. Qed.

Lemma likeTweet_store userName tweetId s :
  fst (likeTweet userName tweetId s)
  = match find (postedAt tweetId) (tweets s) with
    | None => s
    | Some t =>
        set_tweets
          (updateAll (isOriginalOrCopyOf (originalId t))
             (set_t_likes (fst (toggleLike userName (t_likes t))))
             (updateFirst (hasId (t_id t))
                (fun d => set_t_likeTweetBtn (snd (toggleLike userName (t_likes t)))
                            (set_t_likes (fst (toggleLike userName (t_likes t))) d))
                (tweets s))) s
    end.
Proof.
  destruct (find (postedAt tweetId) (tweets s)) as [t|] eqn:Hf.
  - now rewrite <- fst_run, (likeTweet_run _ _ _ _ Hf).
  - unfold likeTweet, bind, Tweet_findOne. now rewrite Hf.
Qed.

Lemma likeComment_store userName commentId s :
  fst (likeComment userName commentId s)
  = match find (commentPostedAt commentId) (comments s) with
    | None => s
    | Some c =>
        set_comments
          (updateFirst (commentHasId (c_id c))
             (fun d => set_c_likeCommentBtn (snd (toggleLike userName (c_likes c)))
                         (set_c_likes (fst (toggleLike userName (c_likes c))) d))
             (comments s)) s
    end.
Proof.
  destruct (find (commentPostedAt commentId) (comments s)) as [c|] eqn:Hf.
  - now rewrite <- fst_run, (likeComment_run _ _ _ _ Hf).
  - unfold likeComment, bind, Comment_findOne. now rewrite Hf.
Qed.

(** The comment is stored before the tweet is looked up: it stays when the
    request ends in a 404. *)
Lemma composeComment_store tweetId content username now s :
  let newComment := mkComment (nextId s) content None now [] "black" false in
  let orphan := mkStore (tweets s) (comments s ++ [newComment]) (users s)
                        (N.succ (nextId s)) in
  composeComment tweetId content username now s
  = match find (postedAt tweetId) (tweets s) with
    | None => (orphan, Stop (Some (mkResponse 404 (Message "error" "Tweet not found"))))
    | Some tweet =>
        match find (hasId (originalId tweet)) (tweets s) with
        | None => (orphan, Stop (Some (mkResponse 404
                                         (Message "error" "Original tweet not found"))))
        | Some original =>
            match find (named username) (users s) with
            | None => (orphan, Stop (Some (mkResponse 404
                                             (Message "error" "User not found"))))
            | Some user =>
                let newComments := nextId s :: t_comments original in
                let stored :=
                  updateFirst (commentHasId (nextId s))
                    (set_c_postedBy (Some (u_id user)))
                    (comments s ++ [newComment]) in
                (mkStore
                   (updateAll (isOriginalOrCopyOf (originalId tweet))
                      (set_t_comments newComments)
                      (updateFirst (hasId (originalId tweet))
                         (set_t_comments newComments) (tweets s)))
                   stored (users s) (N.succ (nextId s)),
                 Stop (Some (mkResponse 200
                               (CommentResult (find (commentHasId (nextId s)) stored)
                                              (S (List.length (t_comments original)))))))
            end
        end
    end.
Proof.
  intros newComment orphan.
  unfold composeComment, bind, Comment_create, Tweet_findById, Tweet_findOne,
    User_findOne. simpl.
  destruct (find (postedAt tweetId) (tweets s)) as [tweet|]; simpl;
    [|reflexivity].
  destruct (find (hasId (originalId tweet)) (tweets s)) as [original|] eqn:Ho;
    simpl; [|reflexivity].
  destruct (find (named username) (users s)) as [user|]; simpl; [|reflexivity].
  now rewrite (hasId_found _ _ _ Ho).
Qed.

Lemma deleteComment_store commentId s :
  fst (deleteComment commentId s)
  = match find (commentPostedAt commentId) (comments s), castObjectId commentId with
    | Some _, Some o =>
        mkStore
          (updateAll (fun d => existsb (N.eqb o) (t_comments d))
             (fun d => set_t_comments (pullId o (t_comments d)) d) (tweets s))
          (removeFirst (commentPostedAt commentId) (comments s))
          (users s) (nextId s)
    | _, _ => set_comments (removeFirst (commentPostedAt commentId) (comments s)) s
    end.
Proof.
  unfold deleteComment, bind, Comment_findOneAndDelete.
  destruct (find (commentPostedAt commentId) (comments s)) as [c|]; simpl;
    [|reflexivity].
  destruct (castObjectId commentId) as [o|]; reflexivity.
Qed.

(** An edit of a tweet rewrites the store only on the way to its 200. *)
Lemma editTweet_store tweetId content userId s :
  (fst (editTweet tweetId content userId s) = s
   /\ forall r, snd (run (editTweet tweetId content userId) s) = Some r ->
                code r <> 200)
  \/ exists str tweet original,
       content = JString str
       /\ find (postedAt tweetId) (tweets s) = Some tweet
       /\ find (hasId (originalId tweet)) (tweets s) = Some original
       /\ t_postedBy original = Some userId
       /\ fst (editTweet tweetId content userId s)
          = set_tweets
              (updateAll (isCopyOf (originalId tweet))
                 (fun d => set_t_isEdited true (set_t_content str d))
                 (updateFirst (hasId (originalId tweet))
                    (fun d => set_t_isEdited true (set_t_content str d))
                    (tweets s))) s
       /\ exists b, snd (run (editTweet tweetId content userId) s)
                    = Some (mkResponse 200 b).
Proof.
  unfold run, editTweet, bind, checkContent, Tweet_findById, Tweet_findOne.
  destruct content as [| |[|]|z|str|]; simpl;
    try (left; split; [reflexivity | intros r [= <-]; discriminate]).
  - destruct (z =? 0)%Z; simpl;
      left; (split; [reflexivity | intros r [= <-]; discriminate]).
  - destruct (str =? EmptyString); simpl;
      [left; split; [reflexivity | intros r [= <-]; discriminate]|].
    destruct (trim str =? EmptyString); simpl;
      [left; split; [reflexivity | intros r [= <-]; discriminate]|].
    destruct (find (postedAt tweetId) (tweets s)) as [tweet|] eqn:Hf; simpl;
      [|left; split; [reflexivity | intros r [= <-]; discriminate]].
    destruct (find (hasId (originalId tweet)) (tweets s)) as [original|] eqn:Ho;
      simpl; [|left; split; [reflexivity | intros r [= <-]; discriminate]].
    destruct (t_postedBy original) as [author|] eqn:Hby; simpl;
      [|left; split; [reflexivity | intros r [= <-]; discriminate]].
    destruct (N.eqb_spec author userId) as [->|Hne]; simpl;
      [|left; split; [reflexivity | intros r [= <-]; discriminate]].
    right. exists str, tweet, original.
    rewrite (hasId_found _ _ _ Ho). repeat split; try assumption.
    eexists. reflexivity.
Qed.

Lemma editComment_store commentId content s :
  fst (editComment commentId content s) = s
  \/ exists str c,
       content = JString str
       /\ find (commentPostedAt commentId) (comments s) = Some c
       /\ fst (editComment commentId content s)
          = set_comments
              (updateFirst (commentHasId (c_id c))
                 (fun d => set_c_isEdited true (set_c_content str d))
                 (comments s)) s.
Proof.
  unfold editComment, bind, checkContent, Comment_findOne.
  destruct content as [| |[|]|z|str|]; simpl; try (now left).
  - destruct (z =? 0)%Z; simpl; now left.
  - destruct (str =? EmptyString); simpl; [now left|].
    destruct (trim str =? EmptyString); simpl; [now left|].
    destruct (find (commentPostedAt commentId) (comments s)) as [c|] eqn:Hf; simpl;
      [|now left].
    right. exists str, c. repeat split.
Qed.

Lemma retweet_store userName tweetId userId now clock s :
  fst (retweet userName tweetId userId now clock s) = s
  \/ (exists tweet,
        find (postedAt tweetId) (tweets s) = Some tweet
        /\ fst (retweet userName tweetId userId now clock s)
           = mkStore
               (updateFirst (hasId (originalId tweet))
                  (fun d => set_t_retweets (push userName (t_retweets d)) d)
                  (tweets s ++
                   [mkTweet (nextId s) (t_content tweet) (t_postedBy tweet)
                      (t_likes tweet) (t_retweets tweet ++ [userName])
                      (t_tag tweet) (t_likeTweetBtn tweet) "green"
                      (t_image tweet) (t_comments tweet) (t_isEdited tweet) now
                      (Some (originalId tweet)) true clock]))
               (comments s)
               match find (named userName) (users s) with
               | Some user =>
                   updateFirst (userHasId (u_id user))
                     (set_u_tweets (unshift (nextId s) (u_tweets user))) (users s)
               | None => users s
               end
               (N.succ (nextId s)))
  \/ (exists tweet users',
        find (postedAt tweetId) (tweets s) = Some tweet
        /\ fst (retweet userName tweetId userId now clock s)
           = mkStore
               (updateFirst (hasId (originalId tweet))
                  (fun d => set_t_retweets (pullString userName (t_retweets d)) d)
                  (removeFirst (copyPostedBy (originalId tweet) userId) (tweets s)))
               (comments s) users' (nextId s)).
Proof.
  destruct (find (postedAt tweetId) (tweets s)) as [tweet|] eqn:Hf.
  - destruct (indexOf userName (t_retweets tweet)) as [i|] eqn:Hi.
    + rewrite <- fst_run,
        (retweet_run_unretweet _ _ _ userId now clock _ _ Hf Hi).
      destruct (find (copyPostedBy (originalId tweet) userId) (tweets s))
        as [deleted|] eqn:Hd.
      * right. right. eexists tweet, _. split; reflexivity.
      * left. simpl.
        rewrite (removeFirst_no_match _ _ (find_none _ _ Hd)).
        apply set_tweets_same.
    + destruct (t_isRetweeted tweet) eqn:Hr.
      * left. now rewrite <- fst_run,
          (retweet_run_rejected _ _ _ userId now clock _ Hf Hi Hr).
      * right. left. exists tweet. split; [reflexivity|].
        now rewrite <- fst_run,
          (retweet_run_create _ _ _ userId now clock _ Hf Hi Hr).
  - left. unfold retweet, bind, Tweet_findOne. now rewrite Hf.
Qed.

Lemma feed_store t username s : fst (feed t username s) = s.
Proof. now rewrite <- fst_run, feed_run. Qed.

Lemma topic_store castSkip decoded tag t s :
  fst (topic castSkip decoded tag t s) = s
  \/ exists username docs,
       fst (topic castSkip decoded tag t s)
       = mkStore
           (fold_left (fun l d =>
              updateFirst (hasId (t_id d))
                (set_t_likeTweetBtn (likeBtnFor username (t_likes d))) l)
              docs (tweets s))
           (fold_left (fun l o =>
              updateFirst (commentHasId o)
                (fun c => set_c_likeCommentBtn (likeBtnFor username (c_likes c)) c) l)
              (flat_map t_comments docs) (comments s))
           (users s) (nextId s).
Proof.
  unfold topic. destruct decoded as [username|]; [|now left].
  unfold bind, User_findOne, saveLikeButtons, reply, ret, noReply. simpl.
  destruct (match t with
            | None | Some EmptyString => Some 0%Z
            | Some q => castSkip q
            end) as [n|]; [|now left].
  destruct (findPage _ n 20 (tweets s)) as [page|]; [|now left].
  right. exists username, page. reflexivity.
Qed.

Lemma composeTweet_store content tag image username now clock likeBtn retweetBtn s :
  let newTweet := mkTweet (nextId s) content None [] [] tag likeBtn retweetBtn
                          (orNull image) [] false now None false clock in
  answer (composeTweet content tag image username now clock likeBtn retweetBtn) s
  = match find (named username) (users s) with
    | None =>
        (mkStore (tweets s ++ [newTweet]) (comments s) (users s)
                 (N.succ (nextId s)),
         inr (Some (mkResponse 404 (Message "error" "User not found"))))
    | Some user =>
        (mkStore
           (updateFirst (hasId (nextId s)) (set_t_postedBy (Some (u_id user)))
                        (tweets s ++ [newTweet]))
           (comments s)
           (updateFirst (userHasId (u_id user))
              (set_u_tweets (nextId s :: u_tweets user)) (users s))
           (N.succ (nextId s)),
         inl (set_t_postedBy (Some (u_id user)) newTweet))
    end.
Proof.
  intros newTweet.
  unfold answer, composeTweet, bind, Tweet_create, User_findOne. simpl.
  destruct (find (named username) (users s)) as [user|]; reflexivity.
Qed.

Lemma fst_answer {A : Type} (h : Handler A) s : fst (answer h s) = fst (h s).
Proof. unfold answer. now destruct (h s) as [s' [a|r]]. Qed.

Lemma deleteTweet_store tweetId userId s :
  run (deleteTweet tweetId userId) s
  = match find (postedAt tweetId) (tweets s) with
    | None => (s, Some (mkResponse 404 (Message "error" "Tweet not found")))
    | Some tweet =>
        match t_postedBy tweet with
        | None => (s, Some (mkResponse 500 (Message "error" "Internal server error")))
        | Some author =>
            if (author =? userId)%N then
              (mkStore
                 (removeFirst (hasId (t_id tweet)) (tweets s))
                 (comments s)
                 match find (userHasId userId) (users s) with
                 | Some user =>
                     updateFirst (userHasId (u_id user))
                       (set_u_tweets
                          (filter (fun id => negb (id =? t_id tweet)%N)
                                  (u_tweets user))) (users s)
                 | None => users s
                 end
                 (nextId s),
               Some (mkResponse 200 (Message "ok" "Tweet deleted successfully")))
            else
              (s, Some (mkResponse 403
                          (Message "error" "Unauthorized to delete this tweet")))
        end
    end.
Proof.
  unfold run, deleteTweet, bind, Tweet_findOne.
  destruct (find (postedAt tweetId) (tweets s)) as [tweet|]; simpl; [|reflexivity].
  destruct (t_postedBy tweet) as [author|]; simpl; [|reflexivity].
  destruct (author =? userId)%N; simpl; [|reflexivity].
  unfold User_findOne. simpl.
  destruct (find (userHasId userId) (users s)) as [user|]; reflexivity.
Qed.

Lemma tweetComments_store tweetId s : fst (tweetComments tweetId s) = s.
Proof.
  unfold tweetComments, bind, Tweet_findById, Tweet_findOne.
  destruct (find (postedAt tweetId) (tweets s)) as [tweet|]; simpl; [|reflexivity].
  destruct (find (hasId (originalId tweet)) (tweets s)); reflexivity.
Qed.

(* ================================================================== *)
(** * Requests with store calls that reject                            *)
(* ================================================================== *)

Lemma noneRejects_spec n rejects :
  noneRejects n rejects = true -> forall k, (k < n)%nat -> rejects k = false.
Proof.
  unfold noneRejects. rewrite forallb_forall. intros H k Hk.
  apply negb_true_iff, H, in_seq. lia.
Qed.

(** When no call rejects, the handlers with faults are the handlers. *)
Lemma likeTweetWith_faultFree rejects userName tweetId s :
  noneRejects 3 rejects = true ->
  likeTweetWith rejects userName tweetId s = likeTweet userName tweetId s.
Proof.
  intros H. pose proof (noneRejects_spec _ _ H) as Hk.
  unfold likeTweetWith, likeTweet. now rewrite !Hk by lia.
Qed.

Lemma editTweetWith_faultFree rejects tweetId content userId s :
  noneRejects 5 rejects = true ->
  editTweetWith rejects tweetId content userId s
  = editTweet tweetId content userId s.
Proof.
  intros H. pose proof (noneRejects_spec _ _ H) as Hk.
  unfold editTweetWith, editTweet. now rewrite !Hk by lia.
Qed.

Lemma composeCommentWith_faultFree rejects tweetId content username now s :
  noneRejects 8 rejects = true ->
  composeCommentWith rejects tweetId content username now s
  = composeComment tweetId content username now s.
Proof.
  intros H. pose proof (noneRejects_spec _ _ H) as Hk.
  unfold composeCommentWith, composeComment. now rewrite !Hk by lia.
Qed.

(** The stores a like request can leave: the store as it was, the store
    after the [save] alone, or the store after both writes. *)
Lemma likeTweetWith_store rejects userName tweetId s :
  fst (likeTweetWith rejects userName tweetId s) = s
  \/ fst (likeTweetWith rejects userName tweetId s)
     = fst (likeTweet userName tweetId s)
  \/ exists t,
       find (postedAt tweetId) (tweets s) = Some t
       /\ fst (likeTweetWith rejects userName tweetId s)
          = set_tweets
              (updateFirst (hasId (t_id t))
                 (fun d => set_t_likeTweetBtn (snd (toggleLike userName (t_likes t)))
                             (set_t_likes (fst (toggleLike userName (t_likes t))) d))
                 (tweets s)) s.
Proof.
  unfold likeTweetWith, likeTweet, bind, await, Tweet_findOne.
  destruct (rejects 0); [now left|]. simpl.
  destruct (find (postedAt tweetId) (tweets s)) as [t|] eqn:Hf; simpl;
    [|now left].
  destruct (toggleLike userName (t_likes t)) as [likes btn] eqn:E. simpl.
  destruct (rejects 1); [now left|]. simpl.
  destruct (rejects 2); simpl.
  - right. right. exists t. rewrite E. split; reflexivity.
  - right. left. reflexivity.
Qed.

(** The stores an edit request can leave: the store as it was, the store
    after the [save] of the original alone, or the store after both
    writes. *)
Lemma editTweetWith_store rejects tweetId content userId s :
  fst (editTweetWith rejects tweetId content userId s) = s
  \/ fst (editTweetWith rejects tweetId content userId s)
     = fst (editTweet tweetId content userId s)
  \/ exists str original,
       content = JString str
       /\ fst (editTweetWith rejects tweetId content userId s)
          = set_tweets
              (updateFirst (hasId (t_id original))
                 (fun d => set_t_isEdited true (set_t_content str d))
                 (tweets s)) s.
Proof.
  unfold editTweetWith, editTweet, bind, await, checkContent, Tweet_findById,
    Tweet_findOne.
  destruct content as [| |[|]|z|str|]; simpl; try (now left).
  - destruct (z =? 0)%Z; simpl; now left.
  - destruct (str =? EmptyString); simpl; [now left|].
    destruct (trim str =? EmptyString); simpl; [now left|].
    destruct (rejects 0); [now left|]. simpl.
    destruct (find (postedAt tweetId) (tweets s)) as [tweet|]; simpl;
      [|now left].
    destruct (rejects 1); [now left|]. simpl.
    destruct (find (hasId (originalId tweet)) (tweets s)) as [original|];
      simpl; [|now left].
    destruct (t_postedBy original) as [author|]; simpl; [|now left].
    destruct (author =? userId)%N; simpl; [|now left].
    destruct (rejects 2); [now left|]. simpl.
    destruct (rejects 3); simpl.
    + right. right. exists str, original. split; reflexivity.
    + right. left. now destruct (rejects 4).
Qed.

(** The stores a comment request can leave: the store as it was, the store
    with the comment and nothing else, the store after the [save] of the
    original, with or without the author on the comment, or the store
    after all the writes. *)
Lemma composeCommentWith_store rejects tweetId content username now s :
  let newComment := mkComment (nextId s) content None now [] "black" false in
  let s' := fst (composeCommentWith rejects tweetId content username now s) in
  s' = s
  \/ s' = fst (composeComment tweetId content username now s)
  \/ exists stored,
       (stored = comments s ++ [newComment]
        \/ exists user,
             stored = updateFirst (commentHasId (nextId s))
                        (set_c_postedBy (Some (u_id user)))
                        (comments s ++ [newComment]))
       /\ (s' = mkStore (tweets s) stored (users s) (N.succ (nextId s))
           \/ exists original,
                s' = mkStore
                       (updateFirst (hasId (t_id original))
                          (set_t_comments (nextId s :: t_comments original))
                          (tweets s))
                       stored (users s) (N.succ (nextId s))).
Proof.
  intros newComment s'. subst s'.
  unfold composeCommentWith, composeComment, bind, await, Comment_create,
    Tweet_findById, Tweet_findOne, User_findOne.
  destruct (rejects 0); [now left|]. simpl.
  assert (Horphan :
            exists stored,
              (stored = comments s ++ [newComment]
               \/ exists user,
                    stored = updateFirst (commentHasId (nextId s))
                               (set_c_postedBy (Some (u_id user)))
                               (comments s ++ [newComment]))
              /\ (mkStore (tweets s) (comments s ++ [newComment]) (users s)
                          (N.succ (nextId s))
                  = mkStore (tweets s) stored (users s) (N.succ (nextId s))
                  \/ exists original : Tweet,
                       mkStore (tweets s) (comments s ++ [newComment]) (users s)
                               (N.succ (nextId s))
                       = mkStore
                           (updateFirst (hasId (t_id original))
                              (set_t_comments (nextId s :: t_comments original))
                              (tweets s))
                           stored (users s) (N.succ (nextId s))))
    by (eexists; split; [left; reflexivity | left; reflexivity]).
  destruct (rejects 1); [right; right; exact Horphan|]. simpl.
  destruct (find (postedAt tweetId) (tweets s)) as [tweet|]; simpl;
    [|right; left; reflexivity].
  destruct (rejects 2); [right; right; exact Horphan|]. simpl.
  destruct (find (hasId (originalId tweet)) (tweets s)) as [original|];
    simpl; [|right; left; reflexivity].
  destruct (rejects 3); [right; right; exact Horphan|]. simpl.
  destruct (find (named username) (users s)) as [user|]; simpl;
    [|right; left; reflexivity].
  destruct (rejects 4); [right; right; exact Horphan|]. simpl.
  destruct (rejects 5); simpl.
  { right. right. eexists. split; [right; exists user; reflexivity|].
    left. reflexivity. }
  destruct (rejects 6); simpl.
  { right. right. eexists. split; [right; exists user; reflexivity|].
    right. exists original. reflexivity. }
  right. left. now destruct (rejects 7).
Qed.

(* ================================================================== *)
(** * Every handler keeps the copies in step                           *)
(* ================================================================== *)

Lemma Repl_counter l next next' :
  (next <= next')%N -> Repl l next -> Repl l next'.
Proof. intros Hle. now apply Repl_ext. Qed.

Lemma pullId_absent o l : existsb (N.eqb o) l = false -> pullId o l = l.
Proof.
  unfold pullId. induction l as [|x r IH]; simpl; [reflexivity|].
  intros H. apply orb_false_elim in H as [Hx Hr].
  rewrite N.eqb_sym, Hx. simpl. now rewrite IH.
Qed.

Lemma replicated_likeTweet userName tweetId s :
  replicated s -> replicated (fst (likeTweet userName tweetId s)).
Proof.
  intros H. rewrite likeTweet_store.
  destruct (find (postedAt tweetId) (tweets s)) as [t|] eqn:Hf; [|assumption].
  apply find_some in Hf as [Ht _].
  unfold replicated in *. simpl.
  pose proof H as (Hnd & _).
  unfold hasId. rewrite (updateFirst_as_map t_id _ _ _ Hnd).
  unfold updateAll. rewrite map_map.
  set (L := fst (toggleLike userName (t_likes t))).
  apply (Repl_patch (isOriginalOrCopyOf (originalId t))
           (fun m => (fst (fst (fst m)), snd (fst (fst m)), L, snd m))).
  - intros d Hd. destruct (t_id d =? t_id t)%N; simpl;
      match goal with |- context [if ?b then _ else _] => destruct b end;
      reflexivity.
  - intros d Hd. destruct (t_id d =? t_id t)%N; simpl;
      match goal with |- context [if ?b then _ else _] => destruct b end;
      reflexivity.
  - intros d Hd. destruct (N.eqb_spec (t_id d) (t_id t)) as [E|_].
    + assert (d = t) by now apply (NoDup_map_eq t_id (tweets s)). subst d.
      pose proof (isOriginalOrCopyOf_self t) as Hself.
      unfold isOriginalOrCopyOf in *. simpl. now rewrite Hself.
    + destruct (isOriginalOrCopyOf (originalId t) d); reflexivity.
  - now apply (Repl_group_sel _ (nextId s)).
  - assumption.
Qed.

Lemma Repl_set_comments l next t original newComments :
  Repl l next -> In t l ->
  find (hasId (originalId t)) l = Some original ->
  Repl (updateAll (isOriginalOrCopyOf (originalId t)) (set_t_comments newComments)
          (updateFirst (hasId (originalId t)) (set_t_comments newComments) l))
       next.
Proof.
  intros H Ht Ho. pose proof H as (Hnd & _).
  unfold hasId. rewrite (updateFirst_as_map t_id _ _ _ Hnd).
  unfold updateAll. rewrite map_map.
  apply (Repl_patch (isOriginalOrCopyOf (originalId t))
           (fun m => (fst m, newComments))).
  - intros d Hd. destruct (t_id d =? originalId t)%N; simpl;
      match goal with |- context [if ?b then _ else _] => destruct b end;
      reflexivity.
  - intros d Hd. destruct (t_id d =? originalId t)%N; simpl;
      match goal with |- context [if ?b then _ else _] => destruct b end;
      reflexivity.
  - intros d Hd. unfold isOriginalOrCopyOf.
    destruct (t_id d =? originalId t)%N eqn:E; cbn; rewrite ?E; cbn;
      [reflexivity|].
    destruct (t_retweetedFrom d) as [r|]; [|reflexivity].
    destruct (r =? originalId t)%N; reflexivity.
  - now apply (Repl_group_sel _ next).
  - assumption.
Qed.

Lemma replicated_composeComment tweetId content username now s :
  replicated s ->
  replicated (fst (composeComment tweetId content username now s)).
Proof.
  intros H. rewrite composeComment_store. cbv zeta. unfold replicated in *.
  assert (Horphan : Repl (tweets s) (N.succ (nextId s)))
    by (apply (Repl_counter _ (nextId s)); [lia | assumption]).
  destruct (find (postedAt tweetId) (tweets s)) as [tweet|] eqn:Hf; [|exact Horphan].
  destruct (find (hasId (originalId tweet)) (tweets s)) as [original|] eqn:Ho;
    [|exact Horphan].
  destruct (find (named username) (users s)) as [user|]; [|exact Horphan].
  simpl. apply (Repl_set_comments _ _ _ original); try assumption.
  now apply find_some in Hf.
Qed.

Lemma replicated_editTweet tweetId content userId s :
  replicated s -> replicated (fst (editTweet tweetId content userId s)).
Proof.
  intros H.
  destruct (editTweet_store tweetId content userId s)
    as [[-> _]|(str & t & original & _ & Hf & Ho & _ & -> & _)]; [assumption|].
  apply find_some in Hf as [Ht _].
  unfold replicated in *. simpl. pose proof H as (Hnd & _).
  unfold hasId. rewrite (updateFirst_as_map t_id _ _ _ Hnd).
  unfold updateAll. rewrite map_map.
  apply (Repl_patch (isOriginalOrCopyOf (originalId t))
           (fun m => (str, true, snd (fst m), snd m))).
  - intros d Hd. destruct (t_id d =? originalId t)%N; simpl;
      match goal with |- context [if ?b then _ else _] => destruct b end;
      reflexivity.
  - intros d Hd. destruct (t_id d =? originalId t)%N; simpl;
      match goal with |- context [if ?b then _ else _] => destruct b end;
      reflexivity.
  - intros d Hd. unfold isOriginalOrCopyOf, isCopyOf.
    destruct (t_id d =? originalId t)%N eqn:E; cbn; rewrite ?E; cbn;
      (destruct (t_retweetedFrom d) as [r|]; [|reflexivity]);
      destruct (r =? originalId t)%N; reflexivity.
  - now apply (Repl_group_sel _ (nextId s)).
  - assumption.
Qed.

Lemma replicated_retweet userName tweetId userId now clock s :
  replicated s ->
  replicated (fst (retweet userName tweetId userId now clock s)).
Proof.
  intros H.
  destruct (retweet_store userName tweetId userId now clock s)
    as [->|[(tweet & Hf & ->)|(tweet & users' & Hf & ->)]]; [assumption| |];
    unfold replicated in *; simpl.
  - apply find_some in Hf as [Ht _].
    eapply Repl_ext;
      [apply map_updateFirst; reflexivity | apply N.le_refl |].
    apply Repl_append; [reflexivity | | assumption].
    right. exists tweet. repeat split. assumption.
  - eapply Repl_ext;
      [apply map_updateFirst; reflexivity | apply N.le_refl |].
    now apply Repl_removeFirst.
Qed.

Lemma replicated_deleteComment commentId s :
  replicated s -> replicated (fst (deleteComment commentId s)).
Proof.
  intros H. rewrite deleteComment_store. unfold replicated in *.
  destruct (find (commentPostedAt commentId) (comments s)) as [c|];
    [|exact H].
  destruct (castObjectId commentId) as [o|]; [|exact H]. simpl.
  apply (Repl_patch (fun _ => true)
           (fun m => (fst m, pullId o (snd m)))).
  - intros d Hd. now destruct (existsb (N.eqb o) (t_comments d)).
  - intros d Hd. now destruct (existsb (N.eqb o) (t_comments d)).
  - intros d Hd. destruct (existsb (N.eqb o) (t_comments d)) eqn:E;
      [reflexivity|].
    unfold mirrored. simpl. now rewrite (pullId_absent _ _ E).
  - reflexivity.
  - assumption.
Qed.

Lemma replicated_likeComment userName commentId s :
  replicated s -> replicated (fst (likeComment userName commentId s)).
Proof.
  intros H. rewrite likeComment_store.
  now destruct (find (commentPostedAt commentId) (comments s)).
Qed.

Lemma replicated_editComment commentId content s :
  replicated s -> replicated (fst (editComment commentId content s)).
Proof.
  intros H.
  now destruct (editComment_store commentId content s)
    as [->|(str & c & _ & _ & ->)].
Qed.

Lemma map_core_saved_buttons username docs l :
  map core
    (fold_left (fun l d =>
       updateFirst (hasId (t_id d))
         (set_t_likeTweetBtn (likeBtnFor username (t_likes d))) l) docs l)
  = map core l.
Proof.
  revert l. induction docs as [|d r IH]; intros l; simpl; [reflexivity|].
  rewrite IH. now apply map_updateFirst.
Qed.

Lemma replicated_topic castSkip decoded tag t s :
  replicated s -> replicated (fst (topic castSkip decoded tag t s)).
Proof.
  intros H.
  destruct (topic_store castSkip decoded tag t s)
    as [->|(username & docs & ->)]; [assumption|].
  unfold replicated in *. simpl.
  eapply Repl_ext; [apply map_core_saved_buttons | apply N.le_refl | assumption].
Qed.

Lemma replicated_composeTweet content tag image username now clock likeBtn retweetBtn s :
  replicated s ->
  replicated (fst (composeTweet content tag image username now clock
                                likeBtn retweetBtn s)).
Proof.
  intros H. rewrite <- fst_answer, composeTweet_store. cbv zeta.
  unfold replicated in *.
  destruct (find (named username) (users s)) as [user|]; simpl.
  - eapply Repl_ext;
      [apply map_updateFirst; reflexivity | apply N.le_refl |].
    apply Repl_append; [reflexivity | now left | assumption].
  - apply Repl_append; [reflexivity | now left | assumption].
Qed.

Lemma replicated_deleteTweet tweetId userId s :
  replicated s -> replicated (fst (deleteTweet tweetId userId s)).
Proof.
  intros H. rewrite <- fst_run, deleteTweet_store.
  destruct (find (postedAt tweetId) (tweets s)) as [tweet|]; [|assumption].
  destruct (t_postedBy tweet) as [author|]; [|assumption].
  destruct (author =? userId)%N; [|assumption].
  unfold replicated in *. simpl. now apply Repl_removeFirst.
Qed.

Lemma replicated_storeAfter r s :
  faultFree r = true -> replicated s -> replicated (storeAfter r s).
Proof.
  destruct r; simpl; intros Hfree.
  - apply replicated_composeTweet.
  - rewrite composeCommentWith_faultFree by assumption.
    apply replicated_composeComment.
  - apply replicated_retweet.
  - rewrite likeTweetWith_faultFree by assumption.
    apply replicated_likeTweet.
  - apply replicated_likeComment.
  - apply replicated_deleteTweet.
  - apply replicated_deleteComment.
  - rewrite editTweetWith_faultFree by assumption.
    apply replicated_editTweet.
  - apply replicated_editComment.
  - now rewrite feed_store.
  - apply replicated_topic.
  - now rewrite tweetComments_store.
Qed.

Lemma replicated_storeAfterAll rs s :
  forallb faultFree rs = true ->
  replicated s -> replicated (storeAfterAll rs s).
Proof.
  unfold storeAfterAll. revert s.
  induction rs as [|r rs IH]; intros s Hfree H; simpl; [assumption|].
  simpl in Hfree. apply andb_prop in Hfree as [Hr Hrs].
  apply IH; [assumption|]. now apply replicated_storeAfter.
Qed.

(* ================================================================== *)
(** * Every handler keeps the likes free of repetitions                *)
(* ================================================================== *)

Section Everywhere.
Context {A : Type} (Q : A -> Prop).

Lemma all_updateFirst p f (l : list A) :
  (forall d, In d l -> Q d) -> (forall d, In d l -> Q (f d)) ->
  forall d, In d (updateFirst p f l) -> Q d.
Proof.
  intros Hl Hf d Hd.
  apply In_updateFirst in Hd as [Hd|(d0 & Hd & ->)]; [now apply Hl | now apply Hf].
Qed.

Lemma all_updateAll q g (l : list A) :
  (forall d, In d l -> Q d) -> (forall d, In d l -> Q (g d)) ->
  forall d, In d (updateAll q g l) -> Q d.
Proof.
  intros Hl Hg d Hd. apply In_updateAll in Hd as (d0 & Hd & ->).
  destruct (q d0); [now apply Hg | now apply Hl].
Qed.

Lemma all_removeFirst p (l : list A) :
  (forall d, In d l -> Q d) -> forall d, In d (removeFirst p l) -> Q d.
Proof. intros Hl d Hd. apply Hl. now apply In_removeFirst in Hd. Qed.

Lemma all_app_one (l : list A) n :
  (forall d, In d l -> Q d) -> Q n -> forall d, In d (l ++ [n]) -> Q d.
Proof.
  intros Hl Hn d Hd. apply in_app_or in Hd as [Hd|[<-|[]]]; [now apply Hl | exact Hn].
Qed.

Lemma all_fold_updateFirst {B : Type} (p : B -> A -> bool) (f : B -> A -> A)
    (bs : list B) (l : list A) :
  (forall b d, Q d -> Q (f b d)) ->
  (forall d, In d l -> Q d) ->
  forall d, In d (fold_left (fun l b => updateFirst (p b) (f b) l) bs l) -> Q d.
Proof.
  intros Hf. revert l. induction bs as [|b r IH]; intros l Hl; simpl; [exact Hl|].
  apply IH. apply all_updateFirst; [exact Hl|].
  intros d Hd. simpl. now apply Hf, Hl.
Qed.
End Everywhere.

Lemma likesAreSets_likeTweet userName tweetId s :
  likesAreSets s -> likesAreSets (fst (likeTweet userName tweetId s)).
Proof.
  intros [Ht Hc]. rewrite likeTweet_store.
  destruct (find (postedAt tweetId) (tweets s)) as [t|] eqn:Hf; [|now split].
  apply find_some in Hf as [Hin _].
  assert (HL : NoDup (fst (toggleLike userName (t_likes t))))
    by now apply toggleLike_NoDup, Ht.
  split; [|exact Hc]. simpl.
  apply all_updateAll; [apply all_updateFirst; [exact Ht|] |]; intros; exact HL.
Qed.

Lemma likesAreSets_likeComment userName commentId s :
  likesAreSets s -> likesAreSets (fst (likeComment userName commentId s)).
Proof.
  intros [Ht Hc]. rewrite likeComment_store.
  destruct (find (commentPostedAt commentId) (comments s)) as [c|] eqn:Hf;
    [|now split].
  apply find_some in Hf as [Hin _].
  split; [exact Ht|]. simpl.
  apply all_updateFirst; [exact Hc|].
  intros d _. simpl. now apply toggleLike_NoDup, Hc.
Qed.

Lemma likesAreSets_composeComment tweetId content username now s :
  likesAreSets s ->
  likesAreSets (fst (composeComment tweetId content username now s)).
Proof.
  intros [Ht Hc]. rewrite composeComment_store. cbv zeta.
  assert (Hnew : forall c,
             In c (comments s ++ [mkComment (nextId s) content None now [] "black" false]) ->
             NoDup (c_likes c))
    by (apply all_app_one; [exact Hc | constructor]).
  destruct (find (postedAt tweetId) (tweets s)) as [tweet|];
    [|split; [exact Ht | exact Hnew]].
  destruct (find (hasId (originalId tweet)) (tweets s)) as [original|];
    [|split; [exact Ht | exact Hnew]].
  destruct (find (named username) (users s)) as [user|];
    [|split; [exact Ht | exact Hnew]].
  split; simpl.
  - apply all_updateAll; [apply all_updateFirst; [exact Ht|] |];
      intros d Hd; simpl; try now apply Ht.
    apply In_updateFirst in Hd as [Hd|(d0 & Hd & ->)]; simpl; now apply Ht.
  - apply all_updateFirst; [exact Hnew|]. intros d Hd. simpl. now apply Hnew.
Qed.

Lemma likesAreSets_editTweet tweetId content userId s :
  likesAreSets s -> likesAreSets (fst (editTweet tweetId content userId s)).
Proof.
  intros [Ht Hc].
  destruct (editTweet_store tweetId content userId s)
    as [[-> _]|(str & t & original & _ & _ & _ & _ & -> & _)]; [now split|].
  split; [|exact Hc]. simpl.
  apply all_updateAll; [apply all_updateFirst; [exact Ht|] |];
    intros d Hd; simpl; try now apply Ht.
  apply In_updateFirst in Hd as [Hd|(d0 & Hd & ->)]; simpl; now apply Ht.
Qed.

Lemma likesAreSets_editComment commentId content s :
  likesAreSets s -> likesAreSets (fst (editComment commentId content s)).
Proof.
  intros [Ht Hc].
  destruct (editComment_store commentId content s)
    as [->|(str & c & _ & _ & ->)]; [now split|].
  split; [exact Ht|]. simpl.
  apply all_updateFirst; [exact Hc|]. intros d Hd. simpl. now apply Hc.
Qed.

Lemma likesAreSets_retweet userName tweetId userId now clock s :
  likesAreSets s ->
  likesAreSets (fst (retweet userName tweetId userId now clock s)).
Proof.
  intros [Ht Hc].
  destruct (retweet_store userName tweetId userId now clock s)
    as [->|[(tweet & Hf & ->)|(tweet & users' & Hf & ->)]]; [now split| |];
    (split; [|exact Hc]); simpl.
  - apply find_some in Hf as [Hin _].
    assert (Hnew : forall d,
               In d (tweets s ++
                     [mkTweet (nextId s) (t_content tweet) (t_postedBy tweet)
                        (t_likes tweet) (t_retweets tweet ++ [userName])
                        (t_tag tweet) (t_likeTweetBtn tweet) "green"
                        (t_image tweet) (t_comments tweet) (t_isEdited tweet) now
                        (Some (originalId tweet)) true clock]) ->
               NoDup (t_likes d))
      by (apply all_app_one; [exact Ht | simpl; now apply Ht]).
    apply all_updateFirst; [exact Hnew|]. intros d Hd. simpl. now apply Hnew.
  - assert (Hrest : forall d,
               In d (removeFirst (copyPostedBy (originalId tweet) userId) (tweets s)) ->
               NoDup (t_likes d))
      by (apply all_removeFirst; exact Ht).
    apply all_updateFirst; [exact Hrest|]. intros d Hd. simpl. now apply Hrest.
Qed.

Lemma likesAreSets_deleteComment commentId s :
  likesAreSets s -> likesAreSets (fst (deleteComment commentId s)).
Proof.
  intros [Ht Hc]. rewrite deleteComment_store.
  assert (Hrest : forall c,
             In c (removeFirst (commentPostedAt commentId) (comments s)) ->
             NoDup (c_likes c))
    by (apply all_removeFirst; exact Hc).
  destruct (find (commentPostedAt commentId) (comments s)) as [c|];
    [|now split].
  destruct (castObjectId commentId) as [o|]; [|now split].
  split; [|exact Hrest]. simpl.
  apply all_updateAll; [exact Ht|]. intros d Hd. simpl. now apply Ht.
Qed.

Lemma likesAreSets_topic castSkip decoded tag t s :
  likesAreSets s -> likesAreSets (fst (topic castSkip decoded tag t s)).
Proof.
  intros [Ht Hc].
  destruct (topic_store castSkip decoded tag t s)
    as [->|(username & docs & ->)]; [now split|].
  split; simpl.
  - apply (all_fold_updateFirst (fun d => NoDup (t_likes d))
             (fun d => hasId (t_id d))
             (fun d => set_t_likeTweetBtn (likeBtnFor username (t_likes d))));
      [intros b d Hd; exact Hd | exact Ht].
  - apply (all_fold_updateFirst (fun c => NoDup (c_likes c))
             (fun o => commentHasId o)
             (fun _ c => set_c_likeCommentBtn (likeBtnFor username (c_likes c)) c));
      [intros b d Hd; exact Hd | exact Hc].
Qed.

Lemma likesAreSets_composeTweet content tag image username now clock likeBtn retweetBtn s :
  likesAreSets s ->
  likesAreSets (fst (composeTweet content tag image username now clock
                                  likeBtn retweetBtn s)).
Proof.
  intros [Ht Hc]. rewrite <- fst_answer, composeTweet_store. cbv zeta.
  assert (Hnew : forall d,
             In d (tweets s ++
                   [mkTweet (nextId s) content None [] [] tag likeBtn retweetBtn
                            (orNull image) [] false now None false clock]) ->
             NoDup (t_likes d))
    by (apply all_app_one; [exact Ht | constructor]).
  destruct (find (named username) (users s)) as [user|]; (split; [|exact Hc]);
    simpl; [|exact Hnew].
  apply all_updateFirst; [exact Hnew|]. intros d Hd. simpl. now apply Hnew.
Qed.

Lemma likesAreSets_deleteTweet tweetId userId s :
  likesAreSets s -> likesAreSets (fst (deleteTweet tweetId userId s)).
Proof.
  intros [Ht Hc]. rewrite <- fst_run, deleteTweet_store.
  destruct (find (postedAt tweetId) (tweets s)) as [tweet|]; [|now split].
  destruct (t_postedBy tweet) as [author|]; [|now split].
  destruct (author =? userId)%N; [|now split].
  split; [|exact Hc]. simpl. apply all_removeFirst; exact Ht.
Qed.

(** A rejected store call leaves the likes free of repetitions too: the
    writes that went through before it keep them so one by one. *)
Lemma likesAreSets_likeTweetWith rejects userName tweetId s :
  likesAreSets s ->
  likesAreSets (fst (likeTweetWith rejects userName tweetId s)).
Proof.
  intros H.
  destruct (likeTweetWith_store rejects userName tweetId s)
    as [->|[->|(t & Hf & ->)]];
    [assumption | now apply likesAreSets_likeTweet|].
  destruct H as [Ht Hc]. apply find_some in Hf as [Hin _].
  split; [|exact Hc]. simpl.
  apply all_updateFirst; [exact Ht|]. intros d _. simpl.
  now apply toggleLike_NoDup, Ht.
Qed.

Lemma likesAreSets_editTweetWith rejects tweetId content userId s :
  likesAreSets s ->
  likesAreSets (fst (editTweetWith rejects tweetId content userId s)).
Proof.
  intros H.
  destruct (editTweetWith_store rejects tweetId content userId s)
    as [->|[->|(str & original & _ & ->)]];
    [assumption | now apply likesAreSets_editTweet|].
  destruct H as [Ht Hc]. split; [|exact Hc]. simpl.
  apply all_updateFirst; [exact Ht|]. intros d Hd. simpl. now apply Ht.
Qed.

Lemma likesAreSets_composeCommentWith rejects tweetId content username now s :
  likesAreSets s ->
  likesAreSets (fst (composeCommentWith rejects tweetId content username now s)).
Proof.
  intros H.
  destruct (composeCommentWith_store rejects tweetId content username now s)
    as [->|[->|(stored & Hstored & Hs')]];
    [assumption | now apply likesAreSets_composeComment|].
  destruct H as [Ht Hc].
  assert (Hnew : forall c,
             In c (comments s ++ [mkComment (nextId s) content None now [] "black" false]) ->
             NoDup (c_likes c))
    by (apply all_app_one; [exact Hc | constructor]).
  assert (Hst : forall c, In c stored -> NoDup (c_likes c)).
  { destruct Hstored as [->|(user & ->)]; [exact Hnew|].
    apply all_updateFirst; [exact Hnew|]. intros d Hd. simpl. now apply Hnew. }
  destruct Hs' as [->|(original & ->)]; (split; [|exact Hst]); simpl;
    [exact Ht|].
  apply all_updateFirst; [exact Ht|]. intros d Hd. simpl. now apply Ht.
Qed.

Lemma likesAreSets_storeAfter r s : likesAreSets s -> likesAreSets (storeAfter r s).
Proof.
  destruct r; simpl.
  - apply likesAreSets_composeTweet.
  - apply likesAreSets_composeCommentWith.
  - apply likesAreSets_retweet.
  - apply likesAreSets_likeTweetWith.
  - apply likesAreSets_likeComment.
  - apply likesAreSets_deleteTweet.
  - apply likesAreSets_deleteComment.
  - apply likesAreSets_editTweetWith.
  - apply likesAreSets_editComment.
  - now rewrite feed_store.
  - apply likesAreSets_topic.
  - now rewrite tweetComments_store.
Qed.

Lemma likesAreSets_storeAfterAll rs s :
  likesAreSets s -> likesAreSets (storeAfterAll rs s).
Proof.
  unfold storeAfterAll. revert s.
  induction rs as [|r rs IH]; intros s H; simpl; [assumption|].
  apply IH. now apply likesAreSets_storeAfter.
Qed.

(* ================================================================== *)
(** * Properties of the store the requests reach                       *)
(* ================================================================== *)

Lemma Repl_nil next : Repl [] next.
Proof. repeat split; simpl; try tauto. constructor. Qed.

(** X1.  A request in which no store call rejects, served with no other
    request in between, keeps the replication invariant: when the [_id]s
    of the tweets are distinct and were handed out, no copy points at a
    copy and every copy agrees with its original on content, [isEdited],
    likes and comments, the same holds of the store the request leaves,
    whatever the route, its arguments and its answer. *)
Theorem every_request_keeps_copies_in_step :
  forall (r : Request) (s : Store),
    faultFree r = true -> replicated s -> replicated (storeAfter r s).
Proof. intros r s Hfree H. now apply replicated_storeAfter. Qed.

Lemma every_request_keeps_copies_in_step_witness :
  replicated (storeAfter (ReqLikeTweet noFaults "carol" "t1")
                (storeAfter (ReqRetweet "bob" "t0" 2%N "t1" 200%Z)
                   (storeAfter (ReqComposeTweet "hello" (Some "rocq") None "alice"
                                  "t0" 100%Z "black" "black") storeSignedUp))).
Proof.
  apply every_request_keeps_copies_in_step; [reflexivity|].
  apply every_request_keeps_copies_in_step; [reflexivity|].
  apply every_request_keeps_copies_in_step; [reflexivity|].
  apply Repl_nil.
Defined.

(** X2.  In a store reached from one without tweets by requests served
    one after the other, none of which had a store call rejected, a tweet
    that points at a stored tweet shows the content, the edited mark, the
    likes and the comments of that tweet, and that tweet is itself no
    copy. *)
Theorem copies_mirror_originals_after_any_requests :
  forall (rs : list Request) (s : Store) (C O : Tweet),
    forallb faultFree rs = true ->
    tweets s = [] ->
    In C (tweets (storeAfterAll rs s)) ->
    In O (tweets (storeAfterAll rs s)) ->
    t_retweetedFrom C = Some (t_id O) ->
    t_content C = t_content O
    /\ t_isEdited C = t_isEdited O
    /\ t_likes C = t_likes O
    /\ t_comments C = t_comments O
    /\ t_retweetedFrom O = None.
Proof.
  intros rs s C O Hfree Hempty HC HO Hfrom.
  assert (H : replicated (storeAfterAll rs s)).
  { apply replicated_storeAfterAll; [assumption|].
    unfold replicated. rewrite Hempty. apply Repl_nil. }
  destruct H as (_ & _ & _ & Hchain & Hmirror).
  pose proof (Hmirror C O HC HO Hfrom) as Hm. unfold mirrored in Hm.
  injection Hm as Hc He Hl Hk.
  repeat split; try assumption. now apply (Hchain C O).
Qed.

Lemma copies_mirror_originals_witness :
  let s := storeAfterAll busyDay storeSignedUp in
  let O := nth 0 (tweets s) aliceTweet in
  let C := nth 1 (tweets s) aliceTweet in
  t_content C = t_content O
  /\ t_isEdited C = t_isEdited O
  /\ t_likes C = t_likes O
  /\ t_comments C = t_comments O
  /\ t_retweetedFrom O = None.
Proof.
  intros s O C.
  apply (copies_mirror_originals_after_any_requests busyDay storeSignedUp C O).
  - reflexivity.
  - reflexivity.
  - vm_compute. right. left. reflexivity.
  - vm_compute. left. reflexivity.
  - vm_compute. reflexivity.
Defined.

(** X3.  Requests served one after the other never put a name twice in
    the likes of a tweet or of a comment: a store whose [likes] arrays are
    free of repetitions is left so by every list of requests, and on the
    three routes that propagate also by a request in which a store call
    rejects. *)
Theorem likes_stay_sets_after_any_requests :
  forall (rs : list Request) (s : Store),
    likesAreSets s -> likesAreSets (storeAfterAll rs s).
Proof. intros rs s H. now apply likesAreSets_storeAfterAll. Qed.

Lemma likes_stay_sets_witness :
  likesAreSets (storeAfterAll busyDay storeSignedUp).
Proof.
  apply likes_stay_sets_after_any_requests.
  split; simpl; tauto.
Defined.

(** X4.  On a store that satisfies the replication invariant, a like
    toggle aimed at a copy does flip the user in the likes of the
    original: the copy's array, which the handler reads, is the
    original's. *)
Theorem like_on_copy_flips_original_when_replicated :
  forall (s : Store) (userName tweetId : string),
    replicated s -> likeOnCopyFlipsOriginal s userName tweetId.
Proof.
  intros s userName tweetId H C o O Hf Hfrom HO.
  assert (Hlikes : t_likes C = t_likes O).
  { destruct H as (_ & _ & _ & _ & Hmirror).
    pose proof (hasId_found _ _ _ HO) as Hid. subst o.
    assert (Hm : mirrored C = mirrored O).
    { apply Hmirror; [apply (find_some _ _ Hf) | apply (find_some _ _ HO) | assumption]. }
    unfold mirrored in Hm. congruence. }
  assert (Ho : originalId C = o) by (unfold originalId; now rewrite Hfrom).
  rewrite (likeTweet_run _ _ _ _ Hf). simpl. rewrite Ho.
  rewrite find_updateAll by reflexivity.
  destruct (find_updateFirst_any (hasId o) (hasId (t_id C))
              (fun d => set_t_likeTweetBtn (snd (toggleLike userName (t_likes C)))
                          (set_t_likes (fst (toggleLike userName (t_likes C))) d))
              (tweets s) O (fun x => eq_refl) HO) as [E|E];
    rewrite E; simpl;
    rewrite isOriginalOrCopyOf_id by (simpl; exact (hasId_found _ _ _ HO));
    (eexists; split; [reflexivity|]); simpl; now rewrite Hlikes.
Qed.

Lemma like_on_copy_flips_original_witness :
  likeOnCopyFlipsOriginal
    (storeAfter (ReqRetweet "bob" "t0" 2%N "t1" 200%Z)
       (storeAfter (ReqComposeTweet "hello" (Some "rocq") None "alice"
                      "t0" 100%Z "black" "black") storeSignedUp))
    "carol" "t1".
Proof.
  apply like_on_copy_flips_original_when_replicated.
  apply replicated_storeAfter; [reflexivity|].
  apply replicated_storeAfter; [reflexivity|].
  apply Repl_nil.
Defined.

(* ================================================================== *)
(** * Comments: error paths and the listing                            *)
(* ================================================================== *)

(** X5.  The comment handler stores the comment before it looks for the
    tweet, the original and the user.  When the request ends in a 404 the
    tweets and the users are as before, and the collection of comments has
    one more record: the comment of the request, without author, which no
    tweet was given. *)
Theorem comment_survives_its_404 :
  forall (s s' : Store) (tweetId content username now : string) (r : Response),
    run (composeComment tweetId content username now) s = (s', Some r) ->
    code r = 404 ->
    s' = mkStore (tweets s)
           (comments s ++ [mkComment (nextId s) content None now [] "black" false])
           (users s) (N.succ (nextId s)).
Proof.
  intros s s' tweetId content username now r Hrun Hcode.
  unfold run in Hrun. rewrite composeComment_store in Hrun. cbv zeta in Hrun.
  destruct (find (postedAt tweetId) (tweets s)) as [tweet|];
    [|now injection Hrun as <- _].
  destruct (find (hasId (originalId tweet)) (tweets s)) as [original|];
    [|now injection Hrun as <- _].
  destruct (find (named username) (users s)) as [user|];
    [|now injection Hrun as <- _].
  injection Hrun as _ <-. discriminate Hcode.
Qed.

Lemma comment_survives_its_404_witness :
  fst (run (composeComment "nowhere" "lost" "bob" "c9") store0)
  = mkStore [aliceTweet] [mkComment 11%N "lost" None "c9" [] "black" false]
            (users store0) 12%N.
Proof.
  apply (comment_survives_its_404 store0 _ "nowhere" "lost" "bob" "c9"
           (mkResponse 404 (Message "error" "Tweet not found"))).
  - reflexivity.
  - reflexivity.
Defined.

Lemma find_app_miss {A : Type} (p : A -> bool) l l' :
  find p l = None -> find p (l ++ l') = find p l'.
Proof.
  induction l as [|e r IH]; simpl; [reflexivity|].
  destruct (p e); [discriminate | exact IH].
Qed.

Lemma updateFirst_app_miss {A : Type} (p : A -> bool) f l l' :
  find p l = None -> updateFirst p f (l ++ l') = l ++ updateFirst p f l'.
Proof.
  induction l as [|e r IH]; simpl; [reflexivity|].
  destruct (p e); [discriminate|]. intros H. now rewrite IH.
Qed.

Lemma find_map_same {A : Type} (p : A -> bool) G l :
  (forall d, p (G d) = p d) -> find p (map G l) = option_map G (find p l).
Proof.
  intros Hp. induction l as [|e r IH]; simpl; [reflexivity|].
  rewrite Hp. destruct (p e); [reflexivity | exact IH].
Qed.

(** A tweet found by its time before a comment is attached is found after,
    with the original it had. *)
Lemma found_after_set_comments tweetId q o newComments l T0 :
  find (postedAt tweetId) l = Some T0 ->
  exists T',
    find (postedAt tweetId)
      (updateAll q (set_t_comments newComments)
         (updateFirst (hasId o) (set_t_comments newComments) l)) = Some T'
    /\ originalId T' = originalId T0.
Proof.
  intros Hf. rewrite find_updateAll by reflexivity.
  destruct (find_updateFirst_any (postedAt tweetId) (hasId o)
              (set_t_comments newComments) l T0 (fun x => eq_refl) Hf) as [E|E];
    rewrite E; simpl; eexists; (split; [reflexivity|]);
    match goal with |- context [if ?b then _ else _] => destruct b end;
    reflexivity.
Qed.

(** X6.  A comment that was attached with a 200 answer is the first of the
    comments listed for the tweet, with the content, the time and an
    author, whether the listing is asked through the tweet the comment was
    sent to or through any other tweet with the same original. *)
Theorem new_comment_is_listed_first :
  forall (s s' : Store) (b : Body)
         (tweetId listedId content username now : string) (T T0 : Tweet),
    (forall c, In c (comments s) -> c_id c <> nextId s) ->
    find (postedAt tweetId) (tweets s) = Some T ->
    find (postedAt listedId) (tweets s) = Some T0 ->
    originalId T0 = originalId T ->
    run (composeComment tweetId content username now) s
    = (s', Some (mkResponse 200 b)) ->
    exists author rest,
      answer (tweetComments listedId) s'
      = (s', inl (mkComment (nextId s) content (Some author) now [] "black" false
                  :: rest)).
Proof.
  intros s s' b tweetId listedId content username now T T0 Hfresh Hf Hf0 Horig Hrun.
  unfold run in Hrun. rewrite composeComment_store, Hf in Hrun. cbv zeta in Hrun.
  destruct (find (hasId (originalId T)) (tweets s)) as [original|] eqn:Ho;
    [|discriminate Hrun].
  destruct (find (named username) (users s)) as [user|]; [|discriminate Hrun].
  injection Hrun as <- _.
  assert (Hnone : find (commentHasId (nextId s)) (comments s) = None).
  { apply find_no_match. intros c Hc. unfold commentHasId.
    apply N.eqb_neq. now apply Hfresh. }
  destruct (found_after_set_comments listedId
              (isOriginalOrCopyOf (originalId T)) (originalId T)
              (nextId s :: t_comments original) (tweets s) T0 Hf0)
    as (T' & Hf' & Horig').
  exists (u_id user).
  eexists.
  unfold answer, tweetComments, bind, Tweet_findById, Tweet_findOne. simpl.
  rewrite Hf'. simpl. rewrite Horig', Horig.
  rewrite find_updateAll by reflexivity.
  rewrite (find_updateFirst_same _ _ _ _ Ho) by (simpl; apply (find_some _ _ Ho)).
  simpl.
  rewrite isOriginalOrCopyOf_id by (simpl; exact (hasId_found _ _ _ Ho)).
  unfold ret. simpl.
  rewrite (updateFirst_app_miss _ _ _ _ Hnone), (find_app_miss _ _ _ Hnone).
  unfold commentHasId. simpl. rewrite !N.eqb_refl. simpl.
  rewrite !N.eqb_refl. reflexivity.
Qed.

Lemma new_comment_is_listed_first_witness :
  exists author rest,
    answer (tweetComments "t0")
           (fst (run (composeComment "t1" "nice" "bob" "c0") storeBobRetweeted))
    = (fst (run (composeComment "t1" "nice" "bob" "c0") storeBobRetweeted),
       inl (mkComment 12%N "nice" (Some author) "c0" [] "black" false :: rest)).
Proof.
  apply (new_comment_is_listed_first storeBobRetweeted _
           (CommentResult
              (Some (mkComment 12%N "nice" (Some 2%N) "c0" [] "black" false)) 1)
           "t1" "t0" "nice" "bob" "c0"
           (nth 1 (tweets storeBobRetweeted) aliceTweet)
           (nth 0 (tweets storeBobRetweeted) aliceTweet)).
  - intros c [].
  - reflexivity.
  - reflexivity.
  - reflexivity.
  - reflexivity.
Defined.

(* ================================================================== *)
(** * Edits: what is checked and what is not                           *)
(* ================================================================== *)



(** X8.  Only the author of the original may edit: a request with content
    that is not blank, sent by another user, is answered with status 403
    and changes nothing, through the original as through any copy of it. *)
Theorem editTweet_by_other_user_forbidden :
  forall (s : Store) (tweetId str : string) (userId author : ObjectId)
         (tweet original : Tweet),
    allWhiteSpace str = false ->
    find (postedAt tweetId) (tweets s) = Some tweet ->
    find (hasId (originalId tweet)) (tweets s) = Some original ->
    t_postedBy original = Some author ->
    author <> userId ->
    run (editTweet tweetId (JString str) userId) s
    = (s, Some (mkResponse 403 (Message "error" "Unauthorized to edit this tweet"))).
Proof.
  intros s tweetId str userId author tweet original Hstr Hf Ho Hby Hne.
  unfold run, editTweet, bind, Tweet_findById, Tweet_findOne.
  rewrite (checkContent_passes _ _ Hstr), Hf. simpl. rewrite Ho. simpl.
  rewrite Hby. apply N.eqb_neq in Hne. now rewrite Hne.
Qed.

Lemma editTweet_by_other_user_forbidden_witness :
  run (editTweet "t1" (JString "mine now") 2%N) storeBobRetweeted
  = (storeBobRetweeted,
     Some (mkResponse 403 (Message "error" "Unauthorized to edit this tweet"))).
Proof.
  apply (editTweet_by_other_user_forbidden storeBobRetweeted "t1" "mine now"
           2%N 1%N
           (nth 1 (tweets storeBobRetweeted) aliceTweet)
           (nth 0 (tweets storeBobRetweeted) aliceTweet)).
  - reflexivity.
  - reflexivity.
  - reflexivity.
  - reflexivity.
  - discriminate.
Defined.

(** X9.  The edit of a comment asks for no identity and checks no owner:
    whoever sends content that is not blank for a stored comment gets
    status 200, and the comment is stored with the new content and the
    edited mark.  Its [_id], author, time and likes stay, and so do the
    other comments, the tweets and the users. *)
Theorem editComment_by_anyone :
  forall (s : Store) (commentId str : string) (c : Comment),
    allWhiteSpace str = false ->
    distinct (map c_id (comments s)) = true ->
    find (commentPostedAt commentId) (comments s) = Some c ->
    exists s',
      run (editComment commentId (JString str)) s
      = (s', Some (mkResponse 200 (Message "ok" "Comment updated successfully")))
      /\ find (commentPostedAt commentId) (comments s')
         = Some (mkComment (c_id c) str (c_postedBy c) (c_postedCommentTime c)
                           (c_likes c) (c_likeCommentBtn c) true)
      /\ (forall c', In c' (comments s') -> c_id c' <> c_id c -> In c' (comments s))
      /\ map c_id (comments s') = map c_id (comments s)
      /\ tweets s' = tweets s
      /\ users s' = users s.
Proof.
  intros s commentId str c Hstr Hids Hf. apply distinct_NoDup in Hids.
  eexists. split; [|split; [|split; [|split; [|split]]]].
  - unfold run, editComment, bind, Comment_findOne.
    rewrite (checkContent_passes _ _ Hstr). simpl. rewrite Hf. reflexivity.
  - simpl. unfold commentHasId.
    apply (find_updateFirst_key c_id (commentPostedAt commentId)
             (fun d => set_c_isEdited true (set_c_content str d)) _ c Hids);
      [reflexivity | assumption].
  - simpl. intros c' Hin Hne. unfold commentHasId in Hin.
    rewrite (updateFirst_as_map c_id _ _ _ Hids) in Hin.
    apply in_map_iff in Hin as (d & <- & Hd).
    destruct (N.eqb_spec (c_id d) (c_id c)) as [E|_]; [|assumption].
    simpl in Hne. contradiction.
  - simpl. now apply map_updateFirst.
  - reflexivity.
  - reflexivity.
Qed.

Lemma editComment_by_anyone_witness :
  exists s',
    run (editComment "May 1st 2024, 1:05:09 pm" (JString "not so nice"))
        storeBobCommented
    = (s', Some (mkResponse 200 (Message "ok" "Comment updated successfully")))
    /\ find (commentPostedAt "May 1st 2024, 1:05:09 pm") (comments s')
       = Some (mkComment 11%N "not so nice" (Some 2%N) "May 1st 2024, 1:05:09 pm"
                         [] "black" true).
Proof.
  destruct (editComment_by_anyone storeBobCommented "May 1st 2024, 1:05:09 pm"
              "not so nice"
              (mkComment 11%N "nice" (Some 2%N) "May 1st 2024, 1:05:09 pm"
                         [] "black" false)
              eq_refl eq_refl eq_refl)
    as (s' & Hrun & Hfind & _).
  exists s'. split; [exact Hrun | exact Hfind].
Defined.

(* ================================================================== *)
(** * Deleting a tweet                                                 *)
(* ================================================================== *)

Lemma find_removeFirst_other {A : Type} (p q : A -> bool) l c :
  find p l = Some c -> q c = false -> find p (removeFirst q l) = Some c.
Proof.
  induction l as [|e r IH]; simpl; [discriminate|].
  intros Hf Hq. destruct (q e) eqn:Eq.
  - destruct (p e); [|assumption]. injection Hf as ->. congruence.
  - simpl. destruct (p e); [assumption | now apply IH].
Qed.

Lemma find_removeFirst_key {A : Type} (k : A -> N) o (l : list A) :
  NoDup (map k l) ->
  find (fun x => (k x =? o)%N) (removeFirst (fun x => (k x =? o)%N) l) = None.
Proof.
  induction l as [|e r IH]; simpl; [reflexivity|].
  intros Hnd. inversion Hnd as [|? ? Hnot Hnd']; subst.
  destruct (N.eqb_spec (k e) o) as [<-|Hne].
  - apply find_no_match. intros d Hd. apply N.eqb_neq. intros E.
    apply Hnot. rewrite <- E. now apply in_map.
  - simpl. apply N.eqb_neq in Hne. rewrite Hne. now apply IH.
Qed.

(** X10.  The deletion of an original does not reach its copies.  After
    the author has deleted the tweet, a copy of it is still stored and
    still found; a like through the copy is answered with status 200,
    while an edit, a comment and the listing of the comments through the
    copy are answered with status 404, "Original tweet not found". *)
Theorem deleteTweet_leaves_copies_dangling :
  forall (s : Store) (deletedId copyId : string) (userId : ObjectId)
         (O C : Tweet) (str content username now liker : string)
         (editor : ObjectId),
    distinct (map t_id (tweets s)) = true ->
    find (postedAt deletedId) (tweets s) = Some O ->
    t_postedBy O = Some userId ->
    t_retweetedFrom O = None ->
    find (postedAt copyId) (tweets s) = Some C ->
    t_retweetedFrom C = Some (t_id O) ->
    allWhiteSpace str = false ->
    let s' := fst (run (deleteTweet deletedId userId) s) in
    snd (run (deleteTweet deletedId userId) s)
    = Some (mkResponse 200 (Message "ok" "Tweet deleted successfully"))
    /\ find (postedAt copyId) (tweets s') = Some C
    /\ find (hasId (t_id O)) (tweets s') = None
    /\ snd (run (editTweet copyId (JString str) editor) s')
       = Some (mkResponse 404 (Message "error" "Original tweet not found"))
    /\ snd (run (composeComment copyId content username now) s')
       = Some (mkResponse 404 (Message "error" "Original tweet not found"))
    /\ snd (answer (tweetComments copyId) s')
       = inr (Some (mkResponse 404 (Message "error" "Original tweet not found")))
    /\ snd (run (likeTweet liker copyId) s')
       = Some (mkResponse 200
                 (LikeResult (List.length (fst (toggleLike liker (t_likes C))))
                             (snd (toggleLike liker (t_likes C))))).
Proof.
  intros s deletedId copyId userId O C str content username now liker editor
         Hids HfO Hby HOfrom HfC HCfrom Hstr s'.
  apply distinct_NoDup in Hids.
  assert (HC : hasId (t_id O) C = false).
  { unfold hasId. apply N.eqb_neq. intros E.
    assert (C = O).
    { apply (NoDup_map_eq t_id (tweets s)); try assumption;
        [apply (find_some _ _ HfC) | apply (find_some _ _ HfO)]. }
    subst C. congruence. }
  assert (Hs' : tweets s' = removeFirst (hasId (t_id O)) (tweets s)).
  { unfold s'. rewrite deleteTweet_store, HfO, Hby, N.eqb_refl. reflexivity. }
  assert (HfC' : find (postedAt copyId) (tweets s') = Some C)
    by (rewrite Hs'; now apply find_removeFirst_other).
  assert (HO' : find (hasId (originalId C)) (tweets s') = None).
  { unfold originalId. rewrite HCfrom, Hs'. unfold hasId.
    now apply (find_removeFirst_key t_id). }
  split; [|split; [|split; [|split; [|split; [|split]]]]].
  - rewrite deleteTweet_store, HfO, Hby, N.eqb_refl. reflexivity.
  - exact HfC'.
  - unfold originalId in HO'. now rewrite HCfrom in HO'.
  - unfold run, editTweet, bind, Tweet_findById, Tweet_findOne.
    rewrite (checkContent_passes _ _ Hstr), HfC'. simpl. now rewrite HO'.
  - unfold run. rewrite composeComment_store, HfC', HO'. reflexivity.
  - unfold answer, tweetComments, bind, Tweet_findById, Tweet_findOne.
    rewrite HfC'. simpl. now rewrite HO'.
  - now rewrite (likeTweet_run _ _ _ _ HfC').
Qed.

Lemma deleteTweet_leaves_copies_dangling_witness :
  let s' := fst (run (deleteTweet "t0" 1%N) storeBobRetweeted) in
  find (postedAt "t1") (tweets s')
  = Some (nth 1 (tweets storeBobRetweeted) aliceTweet)
  /\ find (hasId 10%N) (tweets s') = None
  /\ snd (run (composeComment "t1" "nice" "bob" "c0") s')
     = Some (mkResponse 404 (Message "error" "Original tweet not found")).
Proof.
  intros s'.
  destruct (deleteTweet_leaves_copies_dangling storeBobRetweeted "t0" "t1" 1%N
              (nth 0 (tweets storeBobRetweeted) aliceTweet)
              (nth 1 (tweets storeBobRetweeted) aliceTweet)
              "hello again" "nice" "bob" "c0" "carol" 1%N
              eq_refl eq_refl eq_refl eq_refl eq_refl eq_refl eq_refl)
    as (_ & Hfound & Hgone & _ & Hcomment & _).
  split; [exact Hfound | split; [exact Hgone | exact Hcomment]].
Defined.

(** The store a successful retweet of an original leaves, and the copy as
    it is found at the time of the request. *)
Lemma retweet_original_store s userName tweetId userId now clock O :
  find (postedAt tweetId) (tweets s) = Some O ->
  t_isRetweeted O = false ->
  t_retweetedFrom O = None ->
  ~ In userName (t_retweets O) ->
  let copy :=
    mkTweet (nextId s) (t_content O) (t_postedBy O) (t_likes O)
      (t_retweets O ++ [userName]) (t_tag O) (t_likeTweetBtn O) "green"
      (t_image O) (t_comments O) (t_isEdited O) now (Some (t_id O)) true clock in
  fst (run (retweet userName tweetId userId now clock) s)
  = mkStore
      (updateFirst (hasId (t_id O))
         (fun d => set_t_retweets (push userName (t_retweets d)) d) (tweets s)
       ++ [copy])
      (comments s)
      match find (named userName) (users s) with
      | Some user =>
          updateFirst (userHasId (u_id user))
            (set_u_tweets (unshift (nextId s) (u_tweets user))) (users s)
      | None => users s
      end
      (N.succ (nextId s)).
Proof.
  intros Hf Hr Hfrom Hnot copy. apply indexOf_None in Hnot.
  rewrite (retweet_run_create s userName tweetId userId now clock O Hf Hnot Hr).
  cbv zeta. simpl.
  assert (Ho : originalId O = t_id O) by (unfold originalId; now rewrite Hfrom).
  rewrite Ho.
  destruct (find (hasId (t_id O)) (tweets s)) as [d|] eqn:E.
  - now rewrite (updateFirst_app_hit _ _ _ _ _ E).
  - exfalso. apply find_some in Hf as [Hin _].
    pose proof (find_none _ _ E _ Hin) as Hcontra.
    unfold hasId in Hcontra. now rewrite N.eqb_refl in Hcontra.
Qed.

(** X11.  The copy a retweet creates is posted under the author of the
    original, and the deletion of a tweet is granted to the one it is
    posted by.  So the user who retweeted cannot delete the copy (status
    403, nothing changes), and the author of the original can. *)
Theorem retweeter_cannot_delete_own_copy :
  forall (s : Store) (userName tweetId : string) (userId author : ObjectId)
         (now : string) (clock : Z) (O : Tweet),
    find (postedAt tweetId) (tweets s) = Some O ->
    t_isRetweeted O = false ->
    t_retweetedFrom O = None ->
    ~ In userName (t_retweets O) ->
    t_postedBy O = Some author ->
    author <> userId ->
    (forall d, In d (tweets s) -> t_postedTweetTime d <> now) ->
    let s1 := fst (run (retweet userName tweetId userId now clock) s) in
    run (deleteTweet now userId) s1
    = (s1, Some (mkResponse 403
                   (Message "error" "Unauthorized to delete this tweet")))
    /\ snd (run (deleteTweet now author) s1)
       = Some (mkResponse 200 (Message "ok" "Tweet deleted successfully")).
Proof.
  intros s userName tweetId userId author now clock O
         Hf Hr Hfrom Hnot Hby Hne Htime s1.
  pose proof (retweet_original_store s userName tweetId userId now clock O
                Hf Hr Hfrom Hnot) as Hs1.
  cbv zeta in Hs1. fold s1 in Hs1.
  assert (Hmiss : find (postedAt now)
                    (updateFirst (hasId (t_id O))
                       (fun d => set_t_retweets (push userName (t_retweets d)) d)
                       (tweets s)) = None).
  { apply find_no_match. intros d Hd. unfold postedAt.
    apply String.eqb_neq.
    apply In_updateFirst in Hd as [Hd|(d0 & Hd & ->)];
      [now apply Htime | exact (Htime d0 Hd)]. }
  assert (Hcopy : exists copy,
             find (postedAt now) (tweets s1) = Some copy
             /\ t_postedBy copy = Some author).
  { rewrite Hs1. simpl. rewrite (find_app_miss _ _ _ Hmiss). simpl.
    unfold postedAt at 1. simpl. rewrite String.eqb_refl.
    eexists. split; [reflexivity | exact Hby]. }
  destruct Hcopy as (copy & Hfc & Hcby).
  rewrite !deleteTweet_store, Hfc, Hcby, N.eqb_refl.
  apply N.eqb_neq in Hne. rewrite Hne. split; reflexivity.
Qed.

Lemma retweeter_cannot_delete_own_copy_witness :
  run (deleteTweet "t1" 2%N) storeBobRetweeted
  = (storeBobRetweeted,
     Some (mkResponse 403 (Message "error" "Unauthorized to delete this tweet"))).
Proof.
  apply (retweeter_cannot_delete_own_copy store0 "bob" "t0" 2%N 1%N "t1" 200%Z
           aliceTweet).
  - reflexivity.
  - reflexivity.
  - reflexivity.
  - simpl. tauto.
  - reflexivity.
  - discriminate.
  - intros d [<-|[]]. discriminate.
Defined.

(* ================================================================== *)
(** * Tweets without an author                                         *)
(* ================================================================== *)

(** X12.  A tweet is stored before its author is looked up.  When the user
    of the token is not stored, the request is answered with status 404
    and the tweet stays, posted by no one; from then on a request to
    delete it or to edit it makes the handler throw, whoever asks: the
    answer is status 500 and the tweet stays. *)
Theorem tweet_of_unknown_user_cannot_be_removed :
  forall (s : Store) (content : string) (tag image : option string)
         (username now : string) (clock : Z) (likeBtn retweetBtn : string)
         (str : string) (userId : ObjectId),
    find (named username) (users s) = None ->
    (forall d, In d (tweets s) -> t_postedTweetTime d <> now) ->
    (forall d, In d (tweets s) -> t_id d <> nextId s) ->
    allWhiteSpace str = false ->
    let orphan := mkTweet (nextId s) content None [] [] tag likeBtn retweetBtn
                          (orNull image) [] false now None false clock in
    let s1 := mkStore (tweets s ++ [orphan]) (comments s) (users s)
                      (N.succ (nextId s)) in
    answer (composeTweet content tag image username now clock likeBtn retweetBtn) s
    = (s1, inr (Some (mkResponse 404 (Message "error" "User not found"))))
    /\ run (deleteTweet now userId) s1
       = (s1, Some (mkResponse 500 (Message "error" "Internal server error")))
    /\ run (editTweet now (JString str) userId) s1
       = (s1, Some (mkResponse 500 (Message "error" "Internal server error"))).
Proof.
  intros s content tag image username now clock likeBtn retweetBtn str userId
         Huser Htime Hid Hstr orphan s1.
  assert (Hmiss : find (postedAt now) (tweets s) = None).
  { apply find_no_match. intros d Hd. unfold postedAt.
    apply String.eqb_neq. now apply Htime. }
  assert (Hidmiss : find (hasId (nextId s)) (tweets s) = None).
  { apply find_no_match. intros d Hd. unfold hasId.
    apply N.eqb_neq. now apply Hid. }
  assert (Hf : find (postedAt now) (tweets s1) = Some orphan).
  { simpl. rewrite (find_app_miss _ _ _ Hmiss). simpl.
    unfold postedAt. simpl. now rewrite String.eqb_refl. }
  split; [|split].
  - rewrite composeTweet_store. cbv zeta. now rewrite Huser.
  - now rewrite deleteTweet_store, Hf.
  - unfold run, editTweet, bind, Tweet_findById, Tweet_findOne.
    rewrite (checkContent_passes _ _ Hstr), Hf. simpl.
    rewrite (find_app_miss _ _ _ Hidmiss). simpl.
    unfold hasId. simpl. rewrite N.eqb_refl. reflexivity.
Qed.

Lemma tweet_of_unknown_user_witness :
  run (deleteTweet "t5" 1%N)
      (fst (answer (composeTweet "anyone?" None None "carol" "t5" 500%Z
                                 "black" "black") store0))
  = (fst (answer (composeTweet "anyone?" None None "carol" "t5" 500%Z
                               "black" "black") store0),
     Some (mkResponse 500 (Message "error" "Internal server error"))).
Proof.
  destruct (tweet_of_unknown_user_cannot_be_removed store0 "anyone?" None None
              "carol" "t5" 500%Z "black" "black" "x" 1%N) as (_ & Hdel & _).
  - reflexivity.
  - intros d [<-|[]]. discriminate.
  - intros d [<-|[]]. discriminate.
  - reflexivity.
  - exact Hdel.
Defined.

(* ================================================================== *)
(** * The retweet toggle in the hands of the author                    *)
(* ================================================================== *)

Lemma removeFirst_app_last {A : Type} (q : A -> bool) l x :
  (forall d, In d l -> q d = false) -> q x = true ->
  removeFirst q (l ++ [x]) = l.
Proof.
  intros Hl Hx. induction l as [|e r IH]; simpl.
  - now rewrite Hx.
  - rewrite (Hl e (or_introl eq_refl)). f_equal. apply IH.
    intros d Hd. apply Hl. now right.
Qed.

Lemma updateFirst_twice {A : Type} (p : A -> bool) f g l :
  (forall x, p (f x) = p x) ->
  updateFirst p g (updateFirst p f l) = updateFirst p (fun x => g (f x)) l.
Proof.
  intros Hp. induction l as [|e r IH]; simpl; [reflexivity|].
  destruct (p e) eqn:E; simpl.
  - now rewrite Hp, E.
  - now rewrite E, IH.
Qed.

Lemma updateFirst_fix {A : Type} (p : A -> bool) h l d :
  find p l = Some d -> h d = d -> updateFirst p h l = l.
Proof.
  induction l as [|e r IH]; simpl; [reflexivity|].
  destruct (p e); intros Hf Hh.
  - injection Hf as ->. now rewrite Hh.
  - f_equal. now apply IH.
Qed.

Lemma find_by_key {A : Type} (k : A -> N) (l : list A) d :
  NoDup (map k l) -> In d l -> find (fun x => (k x =? k d)%N) l = Some d.
Proof.
  intros Hnd Hin.
  destruct (find (fun x => (k x =? k d)%N) l) as [e|] eqn:E.
  - apply find_some in E as [He Hk]. apply N.eqb_eq in Hk.
    f_equal. now apply (NoDup_map_eq k l).
  - pose proof (find_none _ _ E _ Hin) as H. simpl in H.
    now rewrite N.eqb_refl in H.
Qed.

Lemma pullString_push userName l :
  ~ In userName l -> pullString userName (push userName l) = l.
Proof.
  unfold pullString, push. induction l as [|x r IH]; simpl; intros H.
  - now rewrite String.eqb_refl.
  - destruct (String.eqb_spec x userName) as [->|_]; [tauto|]. simpl.
    f_equal. apply IH. tauto.
Qed.

Lemma filter_out_fresh (n : ObjectId) l :
  ~ In n l -> filter (fun id => negb (id =? n)%N) l = l.
Proof.
  induction l as [|x r IH]; simpl; intros H; [reflexivity|].
  destruct (N.eqb_spec x n) as [->|_]; [tauto|]. simpl.
  f_equal. apply IH. tauto.
Qed.

Lemma set_t_retweets_back (d : Tweet) a :
  set_t_retweets (t_retweets d) (set_t_retweets a d) = d.
Proof. now destruct d. Qed.

Lemma set_u_tweets_back (u : User) a :
  set_u_tweets (u_tweets u) (set_u_tweets a u) = u.
Proof. now destruct u. Qed.

(** X13.  For the author of an original that has no copy yet, the toggle
    works as a pair: the same request sent twice first creates the copy
    and then takes it back.  The second request is answered with status
    200 and the former count, and the tweets, the comments and the users
    are as before the first; only the ObjectId of the copy is spent. *)
Theorem author_retweet_round_trip :
  forall (s : Store) (userName tweetId : string) (userId : ObjectId)
         (now now' : string) (clock clock' : Z) (O : Tweet),
    distinct (map t_id (tweets s)) = true ->
    distinct (map u_id (users s)) = true ->
    find (postedAt tweetId) (tweets s) = Some O ->
    t_isRetweeted O = false ->
    t_retweetedFrom O = None ->
    ~ In userName (t_retweets O) ->
    t_postedBy O = Some userId ->
    (forall d, In d (tweets s) -> t_retweetedFrom d <> Some (t_id O)) ->
    (forall u, In u (users s) -> ~ In (nextId s) (u_tweets u)) ->
    let s1 := fst (run (retweet userName tweetId userId now clock) s) in
    run (retweet userName tweetId userId now' clock') s1
    = (mkStore (tweets s) (comments s) (users s) (N.succ (nextId s)),
       Some (mkResponse 200
               (RetweetResult (Z.of_nat (List.length (t_retweets O))) "black"))).
Proof.
  intros s userName tweetId userId now now' clock clock' O
         Hids Huids Hf Hr Hfrom Hnot Hby Hnocopy Hfresh s1.
  apply distinct_NoDup in Hids. apply distinct_NoDup in Huids.
  pose proof (retweet_original_store s userName tweetId userId now clock O
                Hf Hr Hfrom Hnot) as Hs1.
  cbv zeta in Hs1. fold s1 in Hs1.
  set (pushUser := fun d => set_t_retweets (push userName (t_retweets d)) d) in *.
  set (l1 := updateFirst (hasId (t_id O)) pushUser (tweets s)) in *.
  set (copy := mkTweet (nextId s) (t_content O) (t_postedBy O) (t_likes O)
                 (t_retweets O ++ [userName]) (t_tag O) (t_likeTweetBtn O)
                 "green" (t_image O) (t_comments O) (t_isEdited O) now
                 (Some (t_id O)) true clock) in *.
  assert (HinO : In O (tweets s)) by apply (find_some _ _ Hf).
  assert (HfO : find (hasId (t_id O)) (tweets s) = Some O)
    by (apply (find_by_key t_id); assumption).
  assert (Hf1 : find (postedAt tweetId) (tweets s1) = Some (pushUser O)).
  { rewrite Hs1. simpl. apply find_app_found.
    apply (find_updateFirst_key t_id (postedAt tweetId) pushUser _ O Hids);
      [reflexivity | assumption]. }
  assert (Hi1 : indexOf userName (t_retweets (pushUser O))
                = Some (List.length (t_retweets O)))
    by (simpl; now apply indexOf_push).
  assert (Ho1 : originalId (pushUser O) = t_id O)
    by (unfold originalId; simpl; now rewrite Hfrom).
  assert (Hl1 : forall d, In d l1 -> copyPostedBy (t_id O) userId d = false).
  { intros d Hd. apply copyPostedBy_false. intros [Hcontra _].
    apply In_updateFirst in Hd as [Hd|(d0 & Hd & ->)];
      now apply (Hnocopy _ Hd). }
  assert (Hcopy : copyPostedBy (t_id O) userId copy = true).
  { unfold copyPostedBy, isCopyOf. simpl. rewrite Hby, !N.eqb_refl. reflexivity. }
  assert (Hdel : find (copyPostedBy (t_id O) userId) (tweets s1) = Some copy).
  { rewrite Hs1. simpl. rewrite (find_app_miss _ _ _ (find_no_match _ _ Hl1)).
    simpl. now rewrite Hcopy. }
  rewrite (retweet_run_unretweet _ _ _ userId now' clock' _ _ Hf1 Hi1).
  rewrite Ho1, Hdel.
  assert (Htweets :
            updateFirst (hasId (t_id O))
              (fun d => set_t_retweets (pullString userName (t_retweets d)) d)
              (removeFirst (copyPostedBy (t_id O) userId) (tweets s1))
            = tweets s).
  { rewrite Hs1. simpl. rewrite (removeFirst_app_last _ _ _ Hl1 Hcopy).
    unfold l1. rewrite updateFirst_twice by reflexivity.
    apply (updateFirst_fix _ _ _ O HfO). unfold pushUser.
    change (t_retweets (set_t_retweets (push userName (t_retweets O)) O))
      with (push userName (t_retweets O)).
    rewrite (pullString_push _ _ Hnot). apply set_t_retweets_back. }
  assert (Husers :
            match find (named userName) (users s1) with
            | Some user =>
                updateFirst (userHasId (u_id user))
                  (set_u_tweets (filter (fun id => negb (id =? t_id copy)%N)
                                        (u_tweets user))) (users s1)
            | None => users s1
            end = users s).
  { rewrite Hs1. simpl.
    destruct (find (named userName) (users s)) as [user|] eqn:Hu.
    - assert (Hin : In user (users s)) by apply (find_some _ _ Hu).
      unfold userHasId at 1 3.
      rewrite (find_updateFirst_key u_id (named userName) _ _ user Huids)
        by (reflexivity || assumption).
      simpl. rewrite N.eqb_refl. simpl.
      rewrite (filter_out_fresh _ _ (Hfresh user Hin)).
      unfold userHasId. rewrite updateFirst_twice by reflexivity.
      apply (updateFirst_fix _ _ _ user); [now apply (find_by_key u_id)|].
      apply set_u_tweets_back.
    - now rewrite Hu. }
  rewrite Htweets, Husers. f_equal; [now rewrite Hs1|].
  do 3 f_equal. unfold pushUser, push. simpl. rewrite length_app. simpl. lia.
Qed.

Lemma author_retweet_round_trip_witness :
  run (retweet "alice" "t0" 1%N "t2" 300%Z) storeAliceRetweeted
  = (mkStore (tweets store0) (comments store0) (users store0) 12%N,
     Some (mkResponse 200 (RetweetResult 0 "black"))).
Proof.
  apply (author_retweet_round_trip store0 "alice" "t0" 1%N "t1" "t2"
           200%Z 300%Z aliceTweet).
  - reflexivity.
  - reflexivity.
  - reflexivity.
  - reflexivity.
  - reflexivity.
  - simpl. tauto.
  - reflexivity.
  - intros d [<-|[]]. discriminate.
  - intros u [<-|[<-|[]]]; simpl; [intros [H|[]]; discriminate H | tauto].
Defined.

(* ================================================================== *)
(** * Pages of the feed                                                *)
(* ================================================================== *)

Lemma firstn_tile {A : Type} a b (m : list A) :
  firstn a m ++ firstn b (skipn a m) = firstn (a + b) m.
Proof.
  revert m. induction a as [|a IH]; intros m; simpl; [reflexivity|].
  destruct m as [|x r]; simpl.
  - now rewrite firstn_nil.
  - f_equal. apply IH.
Qed.

Lemma NoDup_firstn {A : Type} n (l : list A) : NoDup l -> NoDup (firstn n l).
Proof.
  intros H. rewrite <- (firstn_skipn n l) in H.
  now apply NoDup_app_remove_r in H.
Qed.

Lemma NoDup_skipn {A : Type} n (l : list A) : NoDup l -> NoDup (skipn n l).
Proof.
  intros H. rewrite <- (firstn_skipn n l) in H.
  now apply NoDup_app_remove_l in H.
Qed.

Lemma NoDup_map_filter {A B : Type} (k : A -> B) p (l : list A) :
  NoDup (map k l) -> NoDup (map k (filter p l)).
Proof.
  induction l as [|e r IH]; simpl; [trivial|].
  intros Hnd. inversion Hnd as [|? ? Hnot Hnd']; subst.
  destruct (p e); simpl; [|now apply IH].
  constructor; [|now apply IH].
  intros Hin. apply Hnot. apply in_map_iff in Hin as (d & E & Hd).
  apply filter_In in Hd as [Hd _]. rewrite <- E. now apply in_map.
Qed.

Lemma distinctTimes_NoDup l : distinctTimes l = true -> NoDup l.
Proof.
  induction l as [|x r IH]; simpl; intros H; constructor;
    apply andb_prop in H as [Hx Hr].
  - intros Hin. apply negb_true_iff in Hx.
    assert (E : existsb (Z.eqb x) r = true)
      by (apply existsb_exists; exists x; split; [assumption | apply Z.eqb_refl]).
    congruence.
  - now apply IH.
Qed.

(** With distinct creation times there is one newest-first arrangement. *)
Lemma newestFirst_unique L L' :
  NoDup (map t_createdAt L) -> Permutation L L' ->
  newestFirst L -> newestFirst L' -> L = L'.
Proof.
  unfold newestFirst. revert L'.
  induction L as [|a r IH]; intros L' Hnd Hp Hs Hs'.
  - apply Permutation_nil in Hp. now subst.
  - destruct L' as [|a' r'];
      [apply Permutation_sym, Permutation_nil in Hp; discriminate|].
    inversion Hs as [|? ? Hsr Hall]; subst.
    inversion Hs' as [|? ? Hsr' Hall']; subst.
    rewrite Forall_forall in Hall, Hall'.
    assert (Ha' : In a' (a :: r))
      by (apply (Permutation_in _ (Permutation_sym Hp)); now left).
    assert (Ha : In a (a' :: r'))
      by (apply (Permutation_in _ Hp); now left).
    assert (E : a = a').
    { apply (NoDup_map_eq t_createdAt (a :: r)); [assumption | now left | assumption|].
      destruct Ha' as [->|Ha']; [reflexivity|].
      destruct Ha as [->|Ha]; [reflexivity|].
      specialize (Hall _ Ha'). specialize (Hall' _ Ha). lia. }
    subst a'. f_equal. apply IH; try assumption.
    + simpl in Hnd. now inversion Hnd.
    + now apply Permutation_cons_inv in Hp.
Qed.

(** X14.  Consecutive pages of the feed tile the listing.  When the stored
    originals have distinct creation times, the page at an offset [n] and
    the page at [n + 20], put end to end, are the 40 entries from [n] on,
    or as many as are left, of the newest-first arrangement of the
    originals, whichever way the store arranges them for each of the two
    requests, and no tweet is on both pages. *)
Theorem feed_pages_tile :
  forall (s : Store) (n : N) (username : string),
    (n + 20 < 2 ^ 53)%N ->
    distinct (map t_id (tweets s)) = true ->
    let originals := filter (fun d => negb (t_isRetweeted d)) (tweets s) in
    distinctTimes (map t_createdAt originals) = true ->
    exists docs docs',
      run (feed (Some (decimal n)) username) s
      = (s, Some (mkResponse 200
                    (FeedResult (map (withButtons username) docs) username)))
      /\ run (feed (Some (decimal (n + 20))) username) s
         = (s, Some (mkResponse 200
                       (FeedResult (map (withButtons username) docs') username)))
      /\ isPageOf 20 originals (N.to_nat n) docs
      /\ isPageOf 20 originals (N.to_nat n + 20) docs'
      /\ isPageOf 40 originals (N.to_nat n) (docs ++ docs')
      /\ NoDup (map t_id (docs ++ docs'))
      /\ forall L, Permutation L originals -> newestFirst L ->
                   docs ++ docs' = firstn 40 (skipn (N.to_nat n) L).
Proof.
  intros s n username Hn Hids originals Htimes.
  apply distinct_NoDup in Hids. apply distinctTimes_NoDup in Htimes.
  set (L0 := sortNewestFirst originals).
  assert (Htile : firstn 20 (skipn (N.to_nat n) L0)
                  ++ firstn 20 (skipn (N.to_nat n + 20) L0)
                  = firstn 40 (skipn (N.to_nat n) L0)).
  { rewrite (Nat.add_comm (N.to_nat n) 20), <- skipn_skipn.
    apply (firstn_tile 20 20). }
  exists (firstn 20 (skipn (N.to_nat n) L0)),
         (firstn 20 (skipn (N.to_nat n + 20) L0)).
  split; [apply feed_run_decimal; lia|].
  split.
  { rewrite feed_run_decimal by assumption.
    now rewrite N2Nat.inj_add. }
  split; [apply isPageOf_slice|]. split; [apply isPageOf_slice|].
  rewrite Htile. split; [apply isPageOf_slice|]. split.
  - rewrite <- firstn_map, <- skipn_map.
    apply NoDup_firstn, NoDup_skipn.
    apply (Permutation_NoDup
             (Permutation_map t_id (Permutation_sym (sortNewestFirst_perm _)))).
    now apply NoDup_map_filter.
  - intros L Hp Hs. f_equal. f_equal. symmetry.
    apply newestFirst_unique; try assumption.
    + apply (Permutation_NoDup
               (Permutation_map t_createdAt (Permutation_sym Hp))).
      exact Htimes.
    + rewrite Hp. symmetry. apply sortNewestFirst_perm.
    + apply sortNewestFirst_sorted.
Qed.

(** Twenty-five tweets, from the fourth newest on: a full page and the two
    tweets that are left. *)
Lemma feed_pages_tile_witness :
  exists docs docs',
    run (feed (Some "3") "alice") storeOfMany
    = (storeOfMany,
       Some (mkResponse 200 (FeedResult (map (withButtons "alice") docs) "alice")))
    /\ run (feed (Some "23") "alice") storeOfMany
       = (storeOfMany,
          Some (mkResponse 200 (FeedResult (map (withButtons "alice") docs') "alice")))
    /\ List.length docs = 20
    /\ List.length docs' = 2
    /\ NoDup (map t_id (docs ++ docs')).
Proof.
  destruct (feed_pages_tile storeOfMany 3%N "alice")
    as (docs & docs' & H1 & H2 & (_ & _ & _ & _ & _ & Hl1)
        & (_ & _ & _ & _ & _ & Hl2) & _ & Hnd & _).
  - reflexivity.
  - reflexivity.
  - reflexivity.
  - exists docs, docs'. split; [exact H1|]. split; [exact H2|].
    split; [exact Hl1|]. split; [exact Hl2 | exact Hnd].
Defined.

(* ================================================================== *)
(** * What the listings write and show                                 *)
(* ================================================================== *)










(** X16.  The comments of a tweet are listed alike through the tweet and
    through a copy of it: both requests are answered with the comments
    the original refers to, in the order of its [comments] array, and
    neither changes the store. *)
Theorem comments_listed_alike_through_copy_and_original :
  forall (s : Store) (copyId originalTime : string) (C O : Tweet),
    distinct (map t_id (tweets s)) = true ->
    find (postedAt copyId) (tweets s) = Some C ->
    find (postedAt originalTime) (tweets s) = Some O ->
    t_retweetedFrom C = Some (t_id O) ->
    t_retweetedFrom O = None ->
    answer (tweetComments copyId) s
    = (s, inl (populate (t_comments O) (comments s)))
    /\ answer (tweetComments originalTime) s = answer (tweetComments copyId) s.
Proof.
  intros s copyId originalTime C O Hids HfC HfO HCfrom HOfrom.
  apply distinct_NoDup in Hids.
  assert (Hid : find (hasId (t_id O)) (tweets s) = Some O)
    by (apply (find_by_key t_id); [assumption | apply (find_some _ _ HfO)]).
  assert (HC : answer (tweetComments copyId) s
               = (s, inl (populate (t_comments O) (comments s)))).
  { unfold answer, tweetComments, bind, Tweet_findById, Tweet_findOne.
    rewrite HfC. simpl. unfold originalId. rewrite HCfrom, Hid. reflexivity. }
  split; [exact HC|]. rewrite HC.
  unfold answer, tweetComments, bind, Tweet_findById, Tweet_findOne.
  rewrite HfO. simpl. unfold originalId. rewrite HOfrom, Hid. reflexivity.
Qed.

Lemma comments_listed_alike_witness :
  answer (tweetComments "t0") (fst (run (composeComment "t1" "nice" "bob" "c0")
                                        storeBobRetweeted))
  = answer (tweetComments "t1") (fst (run (composeComment "t1" "nice" "bob" "c0")
                                          storeBobRetweeted)).
Proof.
  set (s := fst (run (composeComment "t1" "nice" "bob" "c0") storeBobRetweeted)).
  apply (comments_listed_alike_through_copy_and_original s "t1" "t0"
           (nth 1 (tweets s) aliceTweet) (nth 0 (tweets s) aliceTweet)).
  - vm_compute. reflexivity.
  - vm_compute. reflexivity.
  - vm_compute. reflexivity.
  - vm_compute. reflexivity.
  - vm_compute. reflexivity.
Defined.

Lemma In_populate refs l c : In c (populate refs l) -> In c l.
Proof.
  unfold populate. intros H. apply in_flat_map in H as (o & _ & H).
  destruct (find (commentHasId o) l) as [d|] eqn:E; [|contradiction].
  destruct H as [<-|[]]. apply (find_some _ _ E).
Qed.

Lemma removeFirst_found_key {A : Type} (k : A -> N) (p : A -> bool) l c x :
  NoDup (map k l) -> find p l = Some c -> In x (removeFirst p l) -> k x <> k c.
Proof.
  induction l as [|e r IH]; simpl; [discriminate|].
  intros Hnd Hf Hin. inversion Hnd as [|? ? Hnot Hnd']; subst.
  destruct (p e).
  - injection Hf as <-. intros E. apply Hnot. rewrite <- E. now apply in_map.
  - destruct Hin as [<-|Hin]; [|now apply IH].
    intros E. apply Hnot. rewrite E. apply in_map. apply (find_some _ _ Hf).
Qed.

(** X17.  A comment that was deleted is listed no more, for any tweet:
    the listing shows the comments that are stored, so the reference the
    deletion leaves in the [comments] of a tweet does not show. *)
Theorem deleted_comment_leaves_the_listing :
  forall (s : Store) (commentId tweetId : string) (c : Comment)
         (listing : list Comment),
    distinct (map c_id (comments s)) = true ->
    find (commentPostedAt commentId) (comments s) = Some c ->
    let s1 := fst (run (deleteComment commentId) s) in
    answer (tweetComments tweetId) s1 = (s1, inl listing) ->
    ~ In (c_id c) (map c_id listing).
Proof.
  intros s commentId tweetId c listing Hids Hf s1 Hlist Hin.
  apply distinct_NoDup in Hids.
  assert (Hcomments : comments s1
                      = removeFirst (commentPostedAt commentId) (comments s)).
  { unfold s1. rewrite fst_run, deleteComment_store, Hf.
    now destruct (castObjectId commentId). }
  assert (Hsub : forall x, In x listing -> In x (comments s1)).
  { unfold answer, tweetComments, bind, Tweet_findById, Tweet_findOne in Hlist.
    destruct (find (postedAt tweetId) (tweets s1)) as [tweet|];
      [|discriminate Hlist].
    simpl in Hlist.
    destruct (find (hasId (originalId tweet)) (tweets s1)) as [original|];
      [|discriminate Hlist].
    simpl in Hlist. injection Hlist as <-.
    intros x. apply In_populate. }
  apply in_map_iff in Hin as (x & Hx & Hin).
  apply Hsub in Hin. rewrite Hcomments in Hin.
  now apply (removeFirst_found_key c_id _ _ c x Hids Hf Hin).
Qed.

Lemma deleted_comment_leaves_the_listing_witness :
  ~ In 11%N (map c_id []).
Proof.
  apply (deleted_comment_leaves_the_listing storeBobCommented
           "May 1st 2024, 1:05:09 pm" "t0"
           (mkComment 11%N "nice" (Some 2%N) "May 1st 2024, 1:05:09 pm"
                      [] "black" false) []).
  - reflexivity.
  - reflexivity.
  - vm_compute. reflexivity.
Defined.

(* ================================================================== *)
(** * A tweet from its creation to its deletion                        *)
(* ================================================================== *)

Lemma sortNewestFirst_newest l d :
  (forall e, In e l -> (t_createdAt e < t_createdAt d)%Z) ->
  sortNewestFirst (l ++ [d]) = d :: sortNewestFirst l.
Proof.
  unfold sortNewestFirst. induction l as [|e r IH]; simpl; intros H;
    [reflexivity|].
  rewrite IH by (intros x Hx; apply H; now right). simpl.
  destruct (Z.leb_spec (t_createdAt d) (t_createdAt e)) as [Hle|_];
    [|reflexivity].
  pose proof (H e (or_introl eq_refl)). lia.
Qed.

(** X18.  A tweet that was posted with a 200 answer heads the first page
    of the feed of every reader: it is stored under the user of the token,
    its buttons are black, and it comes before every tweet that was
    created earlier. *)
Theorem new_tweet_heads_the_feed :
  forall (s : Store) (content : string) (tag image : option string)
         (username now : string) (clock : Z) (likeBtn retweetBtn : string)
         (user : User) (t : option string) (reader : string),
    find (named username) (users s) = Some user ->
    (forall d, In d (tweets s) -> t_id d <> nextId s) ->
    (forall d, In d (tweets s) -> (t_createdAt d < clock)%Z) ->
    orZero (parseInt t) = 0%Z ->
    let s1 := fst (answer (composeTweet content tag image username now clock
                             likeBtn retweetBtn) s) in
    let posted := mkTweet (nextId s) content (Some (u_id user)) [] [] tag
                          "black" "black" (orNull image) [] false now None
                          false clock in
    exists rest,
      run (feed t reader) s1
      = (s1, Some (mkResponse 200 (FeedResult (posted :: rest) reader))).
Proof.
  intros s content tag image username now clock likeBtn retweetBtn user t reader
         Huser Hid Hclock Ht s1 posted.
  assert (Hmiss : find (hasId (nextId s)) (tweets s) = None).
  { apply find_no_match. intros d Hd. unfold hasId.
    apply N.eqb_neq. now apply Hid. }
  assert (Hs1 : tweets s1
                = tweets s
                  ++ [mkTweet (nextId s) content (Some (u_id user)) [] [] tag
                              likeBtn retweetBtn (orNull image) [] false now None
                              false clock]).
  { unfold s1. rewrite composeTweet_store. cbv zeta. rewrite Huser. simpl.
    rewrite (updateFirst_app_miss _ _ _ _ Hmiss). simpl.
    unfold hasId. simpl. now rewrite N.eqb_refl. }
  rewrite feed_run, Ht. simpl Z.ltb. cbv iota. simpl Z.to_nat.
  unfold pageOf. rewrite Hs1, filter_app. simpl filter at 2.
  rewrite sortNewestFirst_newest.
  - simpl. eexists. reflexivity.
  - intros e He. apply filter_In in He as [He _]. simpl. now apply Hclock.
Qed.

Lemma new_tweet_heads_the_feed_witness :
  exists rest,
    run (feed None "bob")
        (fst (answer (composeTweet "second" None None "alice" "t5" 500%Z
                                   "black" "black") storeBobRetweeted))
    = (fst (answer (composeTweet "second" None None "alice" "t5" 500%Z
                                 "black" "black") storeBobRetweeted),
       Some (mkResponse 200
               (FeedResult
                  (mkTweet 12%N "second" (Some 1%N) [] [] None "black" "black"
                           None [] false "t5" None false 500%Z :: rest)
                  "bob"))).
Proof.
  apply (new_tweet_heads_the_feed storeBobRetweeted "second" None None "alice"
           "t5" 500%Z "black" "black" (mkUser 1%N "alice" [10%N]) None "bob").
  - reflexivity.
  - intros d [<-|[<-|[]]]; discriminate.
  - intros d [<-|[<-|[]]]; reflexivity.
  - reflexivity.
Defined.

(** X19.  A tweet is deleted once.  After its author has deleted it with a
    200 answer, the tweet is found no more, its [_id] is out of the
    [tweets] of the author, and the same request sent again is answered
    with status 404 and changes nothing. *)
Theorem deleteTweet_twice_is_not_found :
  forall (s : Store) (tweetId : string) (userId : ObjectId) (O : Tweet),
    distinct (map t_id (tweets s)) = true ->
    find (postedAt tweetId) (tweets s) = Some O ->
    t_postedBy O = Some userId ->
    (forall d, In d (tweets s) -> t_postedTweetTime d = tweetId -> d = O) ->
    let s1 := fst (run (deleteTweet tweetId userId) s) in
    snd (run (deleteTweet tweetId userId) s)
    = Some (mkResponse 200 (Message "ok" "Tweet deleted successfully"))
    /\ find (hasId (t_id O)) (tweets s1) = None
    /\ (forall u, find (userHasId userId) (users s1) = Some u ->
                  ~ In (t_id O) (u_tweets u))
    /\ run (deleteTweet tweetId userId) s1
       = (s1, Some (mkResponse 404 (Message "error" "Tweet not found"))).
Proof.
  intros s tweetId userId O Hids Hf Hby Hone s1.
  apply distinct_NoDup in Hids.
  assert (Hs1 : s1 = mkStore
                       (removeFirst (hasId (t_id O)) (tweets s))
                       (comments s)
                       match find (userHasId userId) (users s) with
                       | Some user =>
                           updateFirst (userHasId (u_id user))
                             (set_u_tweets
                                (filter (fun id => negb (id =? t_id O)%N)
                                        (u_tweets user))) (users s)
                       | None => users s
                       end
                       (nextId s)).
  { unfold s1. rewrite deleteTweet_store, Hf, Hby, N.eqb_refl. reflexivity. }
  assert (Hgone : find (hasId (t_id O)) (tweets s1) = None).
  { rewrite Hs1. simpl. unfold hasId. now apply (find_removeFirst_key t_id). }
  assert (Hnone : find (postedAt tweetId) (tweets s1) = None).
  { apply find_no_match. intros d Hd. unfold postedAt.
    apply String.eqb_neq. intros Htime.
    pose proof (find_none _ _ Hgone _ Hd) as Hcontra.
    rewrite Hs1 in Hd. simpl in Hd. apply In_removeFirst in Hd.
    rewrite (Hone d Hd Htime) in Hcontra.
    unfold hasId in Hcontra. now rewrite N.eqb_refl in Hcontra. }
  split; [|split; [|split]].
  - rewrite deleteTweet_store, Hf, Hby, N.eqb_refl. reflexivity.
  - exact Hgone.
  - intros u Hu. rewrite Hs1 in Hu. simpl in Hu.
    destruct (find (userHasId userId) (users s)) as [user|] eqn:E;
      [|congruence].
    assert (Hk : u_id user = userId).
    { apply find_some in E as [_ E]. unfold userHasId in E.
      now apply N.eqb_eq in E. }
    rewrite Hk in Hu.
    rewrite (find_updateFirst_same _ _ _ _ E) in Hu
      by (apply find_some in E as [_ E]; exact E).
    injection Hu as <-. simpl. intros Hin. apply filter_In in Hin as [_ Hin].
    now rewrite N.eqb_refl in Hin.
  - now rewrite deleteTweet_store, Hnone.
Qed.

Lemma deleteTweet_twice_witness :
  run (deleteTweet "t0" 1%N) (fst (run (deleteTweet "t0" 1%N) store0))
  = (fst (run (deleteTweet "t0" 1%N) store0),
     Some (mkResponse 404 (Message "error" "Tweet not found"))).
Proof.
  destruct (deleteTweet_twice_is_not_found store0 "t0" 1%N aliceTweet)
    as (_ & _ & _ & H).
  - reflexivity.
  - reflexivity.
  - reflexivity.
  - intros d [<-|[]] _. reflexivity.
  - exact H.
Defined.

(* ================================================================== *)
(** * A propagation that is rejected                                   *)
(* ================================================================== *)



